(** * Deshkar invoice: GST totals, amount in words, GSTIN lookup and PDF pagination

    A shallow embedding of the pure core of the invoice application:
    [src/lib/utils.ts], the item and totals logic of
    [src/components/InvoiceForm.tsx] and the table construction and
    first-page split of [src/lib/pdf-export.ts].

    Numbers.  A JavaScript [number] is an IEEE 754 double; it is modelled
    by the rational it denotes ([Q]), and values that the code passes
    through [Math.round], [Math.floor] or [parseInt] are integers ([Z]).
    Products, quotients and sums that involve a rate are rounded to the
    nearest double as the processor does ([Float64]); sums and halves of
    integers are exact in doubles as long as they stay below 2^53, the
    number range of this development, and are written without rounding.
    [NaN] only arises from the parsers and is modelled by [None];
    infinities and the negative zero are not modelled.

    Strings.  A JavaScript string is modelled by the bytes of its UTF-8
    encoding; [String_length] counts its UTF-16 code units, which is what
    [s.length] returns, and [trim] knows the white space beyond ASCII. *)

From Stdlib Require Import ZArith QArith Qround Qpower String Ascii List.
From Stdlib Require Import Lia Lqa.
From Stdlib Require SpecFloat.
From Stdlib Require Import DecimalPos.
From stdpp Require Import base option list strings gmap.

Local Open Scope Z_scope.

(** ** JavaScript primitives *)

Module JS.

(** [Math.round]: nearest integer, ties towards +infinity. *)
Definition Math_round (x : Q) : Z := Qfloor (x + (1 # 2))%Q.

(** [Math.floor (a / b)] on integers, for a positive divisor. *)
Definition floor_div (a b : Z) : Z := a / b.

(** The remainder operator [%] on integers: the sign follows the
    dividend. *)
Definition rem (a b : Z) : Z := Z.rem a b.

(** A value of TypeScript type [number | string]. *)
Inductive NumOrStr : Type :=
| Num (q : Q)
| Str (s : string).

(** Truthiness of a string and of a number, as tested by [!x]. *)
Definition truthy_str (s : string) : bool := negb (String.eqb s "").
Definition truthy_num (q : Q) : bool := negb (Qeq_bool q 0).
Definition truthy (v : NumOrStr) : bool :=
  match v with
  | Num q => truthy_num q
  | Str s => truthy_str s
  end.

(** [arr[i]] used inside a string concatenation: an index outside the
    array reads [undefined], which concatenates as the text
    "undefined". *)
Definition arr_get (arr : list string) (i : Z) : string :=
  if i <? 0 then "undefined"
  else default "undefined" (arr !! Z.to_nat i).

(** [s.length]: the number of UTF-16 code units of the text.  A code
    point takes one unit, and two when it lies beyond U+FFFF, which is
    when its UTF-8 encoding starts with a byte from 240 on; the
    continuation bytes 128..191 of an encoding add nothing. *)
Definition utf16_units (c : ascii) : nat :=
  let b := N_of_ascii c in
  if (b <? 128)%N then 1%nat
  else if (b <? 192)%N then 0%nat
  else if (b <? 240)%N then 1%nat
  else 2%nat.

Fixpoint String_length (s : string) : nat :=
  match s with
  | EmptyString => 0%nat
  | String c s' => (utf16_units c + String_length s')%nat
  end.

(** White space removed by [String.prototype.trim]: the code points of
    [WhiteSpace] and [LineTerminator], by the bytes of their encoding.
    One byte: U+0009 to U+000D and U+0020. *)
Definition is_whitespace1 (c : ascii) : bool :=
  match c with
  | " "%char | "009"%char | "010"%char | "011"%char | "012"%char
  | "013"%char => true
  | _ => false
  end.

(** Two bytes: U+00A0. *)
Definition is_whitespace2 (c1 c2 : ascii) : bool :=
  ((N_of_ascii c1 =? 194) && (N_of_ascii c2 =? 160))%N.

(** Three bytes: U+1680, U+2000 to U+200A, U+2028, U+2029, U+202F,
    U+205F, U+3000 and U+FEFF. *)
Definition is_whitespace3 (c1 c2 c3 : ascii) : bool :=
  let b1 := N_of_ascii c1 in
  let b2 := N_of_ascii c2 in
  let b3 := N_of_ascii c3 in
  ((b1 =? 225) && ((b2 =? 154) && (b3 =? 128))
   || (b1 =? 226) && ((b2 =? 128) && ((128 <=? b3) && (b3 <=? 138)))
   || (b1 =? 226) && ((b2 =? 128)
                      && ((b3 =? 168) || (b3 =? 169) || (b3 =? 175)))
   || (b1 =? 226) && ((b2 =? 129) && (b3 =? 159))
   || (b1 =? 227) && ((b2 =? 128) && (b3 =? 128))
   || (b1 =? 239) && ((b2 =? 187) && (b3 =? 191)))%N.

Fixpoint trimStart (s : string) : string :=
  match s with
  | EmptyString => EmptyString
  | String c1 s1 =>
      if is_whitespace1 c1 then trimStart s1
      else
        match s1 with
        | EmptyString => s
        | String c2 s2 =>
            if is_whitespace2 c1 c2 then trimStart s2
            else
              match s2 with
              | EmptyString => s
              | String c3 s3 =>
                  if is_whitespace3 c1 c2 c3 then trimStart s3 else s
              end
        end
  end.

(** A string of white space only. *)
Definition blank (s : string) : bool := String.eqb (trimStart s) "".

(** The text up to the point from which only white space follows. *)
Fixpoint trimEnd (s : string) : string :=
  match s with
  | EmptyString => EmptyString
  | String c s' => if blank s then EmptyString else String c (trimEnd s')
  end.

Definition trim (s : string) : string := trimEnd (trimStart s).

(** A test on every character of a string. *)
Fixpoint string_forallb (f : ascii -> bool) (s : string) : bool :=
  match s with
  | EmptyString => true
  | String c s' => f c && string_forallb f s'
  end.

(** [s.split(sep)] for a one-character separator. *)
Fixpoint split (sep : ascii) (s : string) : list string :=
  match s with
  | EmptyString => [EmptyString]
  | String c s' =>
      if Ascii.eqb c sep then EmptyString :: split sep s'
      else match split sep s' with
           | h :: t => String c h :: t
           | [] => [String c EmptyString]
           end
  end.

(** [arr.join(sep)]. *)
Fixpoint join (sep : string) (l : list string) : string :=
  match l with
  | [] => EmptyString
  | [x] => x
  | x :: tl => x +:+ sep +:+ join sep tl
  end.

(** Decimal digits of a natural number, most significant first. *)
Fixpoint uint_digits (u : Decimal.uint) : string :=
  match u with
  | Decimal.Nil => EmptyString
  | Decimal.D0 u => String "0" (uint_digits u)
  | Decimal.D1 u => String "1" (uint_digits u)
  | Decimal.D2 u => String "2" (uint_digits u)
  | Decimal.D3 u => String "3" (uint_digits u)
  | Decimal.D4 u => String "4" (uint_digits u)
  | Decimal.D5 u => String "5" (uint_digits u)
  | Decimal.D6 u => String "6" (uint_digits u)
  | Decimal.D7 u => String "7" (uint_digits u)
  | Decimal.D8 u => String "8" (uint_digits u)
  | Decimal.D9 u => String "9" (uint_digits u)
  end.

Definition digits (n : N) : string := uint_digits (N.to_uint n).

(** [n.toString()] on an integer. *)
Definition Z_toString (z : Z) : string :=
  (if z <? 0 then "-" else "") +:+ digits (Z.abs_N z).

End JS.

(** ** Double-precision arithmetic

    The finite doubles are the rationals m * 2^e with |m| < 2^53 and
    e >= -1074.  An arithmetic operation yields the double nearest to
    the exact result, the one with an even m when two are equally near
    (IEEE 754, round to nearest, ties to even).  There is no upper bound
    on e here: overflow to infinity is not modelled. *)

Module Float64.

Definition pow2 (e : Z) : Q := (2 ^ e)%Q.

(** The integer part of the binary logarithm of a positive rational:
    the difference of the logarithms of numerator and denominator, or
    one less. *)
Definition ilog2 (a : Q) : Z :=
  let k := Z.log2 (Qnum a) - Z.log2 (Zpos (Qden a)) in
  if Qle_bool (pow2 k) a then k else k - 1.

(** The nearest integer, the even one of two equally near. *)
Definition rne (t : Q) : Z :=
  let f := Qfloor t in
  match (t - inject_Z f ?= 1 # 2)%Q with
  | Lt => f
  | Gt => f + 1
  | Eq => if Z.even f then f else f + 1
  end.

(** Rounding of a positive rational: 53 significant bits, and no bit
    below 2^-1074. *)
Definition round_pos (a : Q) : Q :=
  let e := Z.max (ilog2 a - 52) (-1074) in
  (inject_Z (rne (a / pow2 e)) * pow2 e)%Q.

(** The double nearest to a rational; a double is left as it is.  This
    is also the value of a decimal literal and of a decimal text read by
    [parseFloat] or [Number]. *)
Definition round (q : Q) : Q :=
  let q := Qred q in
  match (q ?= 0)%Q with
  | Eq => 0%Q
  | Gt => round_pos q
  | Lt => (- round_pos (- q))%Q
  end.

(** The operators [*], [/] and [+] on doubles. *)
Definition mul (x y : Q) : Q := round (x * y).
Definition div (x y : Q) : Q := round (x / y).
Definition add (x y : Q) : Q := round (x + y).

End Float64.

(** The same numbers in the IEEE 754 specification of the standard
    library, for comparison: precision 53 and maximal exponent 1024. *)

Module IEEE.

Definition of_Z (z : Z) : SpecFloat.spec_float :=
  SpecFloat.binary_normalize 53 1024 z 0 false.

Definition div := SpecFloat.SFdiv 53 1024.
Definition mul := SpecFloat.SFmul 53 1024.
Definition add := SpecFloat.SFadd 53 1024.

(** The rational a finite number denotes. *)
Definition value (x : SpecFloat.spec_float) : option Q :=
  match x with
  | SpecFloat.S754_zero _ => Some 0%Q
  | SpecFloat.S754_finite s m e =>
      Some ((if s then -1 else 1) * inject_Z (Zpos m) * Float64.pow2 e)%Q
  | _ => None
  end.

Definition denotes (x : SpecFloat.spec_float) (q : Q) : bool :=
  match value x with
  | Some v => Qeq_bool v q
  | None => false
  end.

End IEEE.

(** ** The platform number formatter

    The last three digits form one group, the digits before them groups
    of two counted from the right, and a negative number carries a
    leading minus sign. *)

Module Intl.

(** Consecutive pairs of a string, from the left. *)
Fixpoint by2 (s : string) : list string :=
  match s with
  | EmptyString => []
  | String a EmptyString => [String a EmptyString]
  | String a (String b tl) => String a (String b EmptyString) :: by2 tl
  end.

Fixpoint str_take (k : nat) (s : string) : string :=
  match k, s with
  | S k', String c s' => String c (str_take k' s')
  | _, _ => EmptyString
  end.

Fixpoint str_drop (k : nat) (s : string) : string :=
  match k, s with
  | S k', String _ s' => str_drop k' s'
  | _, _ => s
  end.

Definition indianChunks (ds : string) : list string :=
  let n := String.length ds in
  if (n <=? 3)%nat then [ds]
  else
    let head := str_take (n - 3) ds in
    let last3 := str_drop (n - 3) ds in
    (if Nat.odd (n - 3)
     then str_take 1 head :: by2 (str_drop 1 head)
     else by2 head) ++ [last3].

(** Modelled from the spec: [Intl.NumberFormat('en-IN', ...).format], a
    platform function that is not part of the sources, on an integer:
    "Indian digit-grouping convention (2-then-3 grouping, e.g.
    12,34,567)", no fraction digits. *)
Definition format_en_IN (z : Z) : string :=
  (if z <? 0 then "-" else "") +:+
  JS.join "," (indianChunks (JS.digits (Z.abs_N z))).

End Intl.

Import JS.

(** ** [src/lib/utils.ts]: the GST calculator *)

Record GST : Type := mkGST {
  gst_cgst : Z;
  gst_sgst : Z;
  gst_igst : Z;
  gst_total : Z
}.

(** The rate is a double: [Float64.round gstRate] is [gstRate] itself
    then, and the double of the literal when the rate is written as a
    decimal such as 5.1.  The product with the rate and its hundredth
    are rounded to doubles.  [gstAmount] is an integer and a double, so
    its half is exact; its sum with [roundedAmount] is a sum of
    integers. *)
Definition calculateGST (amount gstRate : Q) : GST :=
  let gstRate := Float64.round gstRate in
  let roundedAmount := Math_round amount in
  let gstAmount :=
    Math_round
      (Float64.div (Float64.mul (inject_Z roundedAmount) gstRate) 100) in
  {| gst_cgst := Math_round (inject_Z gstAmount / 2)%Q;
     gst_sgst := Math_round (inject_Z gstAmount / 2)%Q;
     gst_igst := Math_round (inject_Z gstAmount);
     gst_total := Math_round (inject_Z roundedAmount + inject_Z gstAmount)%Q |}.


(** [formatCurrency] needs [parseFloat]; the other platform functions the
    embedded code calls are collected with it.  [None] stands for
    [NaN], and a result [Some q] is the value of the double the parser
    returns. *)
Class Platform : Type := {
  parseFloat : string -> option Q;
  parseInt : string -> option Z;
  Number_toString : Q -> string
}.

(** What the properties below use of the parsers: the empty string is
    not a number. *)
Class PlatformLaws `{Platform} : Prop := {
  parseFloat_empty : parseFloat "" = None;
  parseInt_empty : parseInt "" = None
}.

Section Utils.

Context `{Platform}.

Definition formatCurrency (amount : NumOrStr) : string :=
  let format (amount : Q) : string :=
    if Qeq_bool amount 0 then ""
    else
      let roundedAmount := Math_round amount in
      Intl.format_en_IN roundedAmount in
  match amount with
  | Str amount =>
      if String.eqb amount "" || String.eqb amount "0" then ""
      else match parseFloat amount with
           | None => amount
           | Some numAmount => format numAmount
           end
  | Num amount => format amount
  end.

End Utils.

Definition ones : list string :=
  [""; "One"; "Two"; "Three"; "Four"; "Five"; "Six"; "Seven"; "Eight";
   "Nine"].
Definition teens : list string :=
  ["Ten"; "Eleven"; "Twelve"; "Thirteen"; "Fourteen"; "Fifteen"; "Sixteen";
   "Seventeen"; "Eighteen"; "Nineteen"].
Definition tens : list string :=
  [""; ""; "Twenty"; "Thirty"; "Forty"; "Fifty"; "Sixty"; "Seventy";
   "Eighty"; "Ninety"].

Definition convertHundreds (n : Z) : string :=
  let result := "" in
  let '(result, n) :=
    if 100 <=? n
    then (result +:+ arr_get ones (floor_div n 100) +:+ " Hundred ",
          rem n 100)
    else (result, n) in
  if 20 <=? n then
    let result := result +:+ arr_get tens (floor_div n 10) +:+ " " in
    let n := rem n 10 in
    if 0 <? n then result +:+ arr_get ones n +:+ " " else result
  else if 10 <=? n then
    result +:+ arr_get teens (n - 10) +:+ " "
  else
    if 0 <? n then result +:+ arr_get ones n +:+ " " else result.

Definition numberToWords (num : Z) : string :=
  if num =? 0 then "Zero"
  else
    let crores := floor_div num 10000000 in
    let lakhs := floor_div (rem num 10000000) 100000 in
    let thousandsValue := floor_div (rem num 100000) 1000 in
    let hundreds := rem num 1000 in
    let result := "" in
    let result :=
      if 0 <? crores then result +:+ convertHundreds crores +:+ "Crore "
      else result in
    let result :=
      if 0 <? lakhs then result +:+ convertHundreds lakhs +:+ "Lakh "
      else result in
    let result :=
      if 0 <? thousandsValue
      then result +:+ convertHundreds thousandsValue +:+ "Thousand "
      else result in
    let result :=
      if 0 <? hundreds then result +:+ convertHundreds hundreds
      else result in
    trim result +:+ " Only".

(** The GST state code table. *)
Record StateInfo : Type := mkStateInfo {
  si_state : string;
  si_code : string
}.

Definition GST_STATE_CODES : gmap string StateInfo :=
  list_to_map
    [("01", mkStateInfo "Jammu and Kashmir" "01");
     ("02", mkStateInfo "Himachal Pradesh" "02");
     ("03", mkStateInfo "Punjab" "03");
     ("04", mkStateInfo "Chandigarh" "04");
     ("05", mkStateInfo "Uttarakhand" "05");
     ("06", mkStateInfo "Haryana" "06");
     ("07", mkStateInfo "Delhi" "07");
     ("08", mkStateInfo "Rajasthan" "08");
     ("09", mkStateInfo "Uttar Pradesh" "09");
     ("10", mkStateInfo "Bihar" "10");
     ("11", mkStateInfo "Sikkim" "11");
     ("12", mkStateInfo "Arunachal Pradesh" "12");
     ("13", mkStateInfo "Nagaland" "13");
     ("14", mkStateInfo "Manipur" "14");
     ("15", mkStateInfo "Mizoram" "15");
     ("16", mkStateInfo "Tripura" "16");
     ("17", mkStateInfo "Meghalaya" "17");
     ("18", mkStateInfo "Assam" "18");
     ("19", mkStateInfo "West Bengal" "19");
     ("20", mkStateInfo "Jharkhand" "20");
     ("21", mkStateInfo "Odisha" "21");
     ("22", mkStateInfo "Chhattisgarh" "22");
     ("23", mkStateInfo "Madhya Pradesh" "23");
     ("24", mkStateInfo "Gujarat" "24");
     ("26", mkStateInfo "Dadra and Nagar Haveli and Daman and Diu" "26");
     ("27", mkStateInfo "Maharashtra" "27");
     ("29", mkStateInfo "Karnataka" "29");
     ("30", mkStateInfo "Goa" "30");
     ("31", mkStateInfo "Lakshadweep" "31");
     ("32", mkStateInfo "Kerala" "32");
     ("33", mkStateInfo "Tamil Nadu" "33");
     ("34", mkStateInfo "Puducherry" "34");
     ("35", mkStateInfo "Andaman and Nicobar Islands" "35");
     ("36", mkStateInfo "Telangana" "36");
     ("37", mkStateInfo "Andhra Pradesh" "37");
     ("38", mkStateInfo "Ladakh" "38")].

(** [GST_STATE_CODES[stateCode] || null]: every entry is an object, hence
    truthy, and no inherited property of an object has a two-character
    name, so the result is the lookup in the table.  Strings are taken
    character by character (ASCII). *)
Definition getStateFromGSTIN (gstin : string) : option StateInfo :=
  if negb (truthy_str gstin) || (String.length gstin <? 2)%nat then None
  else
    let stateCode := substring 0 2 gstin in
    GST_STATE_CODES !! stateCode.

(** ** Data model ([src/types/invoice.ts]) *)

Record InvoiceItem : Type := mkItem {
  item_id : string;
  item_sno : Z;
  item_town : string;
  item_location : string;
  item_hsn : string;
  item_media : string;
  item_size : string;
  item_area : NumOrStr;
  item_type : string;
  item_ratePM : NumOrStr;
  item_period : string;
  item_amount : Z
}.

Record BillingParty : Type := mkParty {
  bp_name : string;
  bp_address : string;
  bp_city : string;
  bp_state : string;
  bp_pincode : string;
  bp_gstin : string;
  bp_phone : option string;
  bp_email : option string
}.

Record Invoice : Type := mkInvoice {
  inv_invoiceNumber : string;
  inv_invoiceDate : string;
  inv_dueDate : option string;
  inv_poNumber : option string;
  inv_poDate : option string;
  inv_displayName : option string;
  inv_duration : option string;
  inv_billingParty : BillingParty;
  inv_items : list InvoiceItem;
  inv_subtotal : Z;
  inv_cgst : Z;
  inv_sgst : Z;
  inv_igst : Z;
  inv_grandTotal : Z;
  inv_totalInWords : string;
  inv_termsAndConditions : list string
}.

Record InvoiceFormData : Type := mkForm {
  invoiceNumber : string;
  invoiceDate : string;
  dueDate : string;
  creditDays : Z;
  poNumber : string;
  poDate : string;
  displayName : string;
  duration : string;
  startDate : string;
  billingParty : BillingParty;
  items : list InvoiceItem;
  gstRate : Q;
  isInterstate : bool;
  termsAndConditions : string
}.

(** Object spread with one field replaced. *)
Definition set_sno (sno : Z) (i : InvoiceItem) : InvoiceItem :=
  mkItem (item_id i) sno (item_town i) (item_location i) (item_hsn i)
    (item_media i) (item_size i) (item_area i) (item_type i)
    (item_ratePM i) (item_period i) (item_amount i).

Definition set_id (id : string) (i : InvoiceItem) : InvoiceItem :=
  mkItem id (item_sno i) (item_town i) (item_location i) (item_hsn i)
    (item_media i) (item_size i) (item_area i) (item_type i)
    (item_ratePM i) (item_period i) (item_amount i).

Definition set_items (l : list InvoiceItem) (f : InvoiceFormData)
  : InvoiceFormData :=
  mkForm (invoiceNumber f) (invoiceDate f) (dueDate f) (creditDays f)
    (poNumber f) (poDate f) (displayName f) (duration f) (startDate f)
    (billingParty f) l (gstRate f) (isInterstate f) (termsAndConditions f).

Definition set_gstRate (r : Q) (f : InvoiceFormData) : InvoiceFormData :=
  mkForm (invoiceNumber f) (invoiceDate f) (dueDate f) (creditDays f)
    (poNumber f) (poDate f) (displayName f) (duration f) (startDate f)
    (billingParty f) (items f) r (isInterstate f) (termsAndConditions f).

Definition set_isInterstate (b : bool) (f : InvoiceFormData)
  : InvoiceFormData :=
  mkForm (invoiceNumber f) (invoiceDate f) (dueDate f) (creditDays f)
    (poNumber f) (poDate f) (displayName f) (duration f) (startDate f)
    (billingParty f) (items f) (gstRate f) b (termsAndConditions f).

(** ** [src/components/InvoiceForm.tsx] *)

Module InvoiceForm.

Definition INITIAL_BILLING_PARTY : BillingParty :=
  mkParty "" "" "" "" "" "" (Some "") (Some "").

(** [INITIAL_ITEM], completed with the [id] and [sno] it omits. *)
Definition INITIAL_ITEM (id : string) (sno : Z) : InvoiceItem :=
  mkItem id sno "" "" "998366" "" "" (Str "") "" (Str "") "" 0.

Section WithPlatform.

Context `{Platform}.

(** [typeof ratePM === 'string' ? parseFloat(ratePM) : ratePM]. *)
Definition rateValue (ratePM : NumOrStr) : option Q :=
  match ratePM with
  | Str s => parseFloat s
  | Num q => Some q
  end.

(** The rate is a double, as in [calculateGST]; the two products, the
    daily rate and the sum are rounded to doubles. *)
Definition calculateAmountFromDuration (ratePM : NumOrStr)
    (duration : string) : Z :=
  if negb (truthy ratePM) || negb (truthy_str duration) then 0
  else
    match rateValue ratePM with
    | None => 0
    | Some rate =>
        match parseInt duration with
        | None => 0
        | Some durationDays =>
            let rate := Float64.round rate in
            let months := floor_div durationDays 30 in
            let remainingDays := rem durationDays 30 in
            let monthlyAmount := Float64.mul (inject_Z months) rate in
            let dailyRate := Float64.div rate 30 in
            let dailyAmount :=
              Float64.mul (inject_Z remainingDays) dailyRate in
            Math_round (Float64.add monthlyAmount dailyAmount)
        end
    end.

End WithPlatform.

(** The state updaters.  [now] is the text of [Date.now()].  [addItem]
    reads the item count from the form state of the render that created
    the handler ([formData]) and appends to the state the updater
    receives ([prev]). *)
Definition addItem (formData : InvoiceFormData) (now : string)
    (prev : InvoiceFormData) : InvoiceFormData :=
  let newItem :=
    INITIAL_ITEM now (Z.of_nat (length (items formData)) + 1) in
  set_items (items prev ++ [newItem]) prev.

Definition removeItem (id : string) (prev : InvoiceFormData)
  : InvoiceFormData :=
  set_items
    (imap (fun index item => set_sno (Z.of_nat index + 1) item)
       (List.filter (fun item => negb (String.eqb (item_id item) id))
          (items prev)))
    prev.

Definition copyItem (id : string) (now : string) (prev : InvoiceFormData)
  : InvoiceFormData :=
  match List.find (fun item => String.eqb (item_id item) id) (items prev)
  with
  | None => prev
  | Some itemToCopy =>
      let copiedItem :=
        set_sno (Z.of_nat (length (items prev)) + 1)
          (set_id now itemToCopy) in
      set_items (items prev ++ [copiedItem]) prev
  end.

(** One insertion or removal, run on the committed state: the handler
    of [addItem] is recreated whenever the item count changes, so the
    count it reads is that of the state it updates. *)
Inductive item_step : InvoiceFormData -> InvoiceFormData -> Prop :=
| step_addItem (now : string) (prev : InvoiceFormData) :
    item_step prev (addItem prev now prev)
| step_copyItem (id now : string) (prev : InvoiceFormData) :
    item_step prev (copyItem id now prev)
| step_removeItem (id : string) (prev : InvoiceFormData) :
    item_step prev (removeItem id prev).

Record Totals : Type := mkTotals {
  subtotal : Z;
  cgst : Z;
  sgst : Z;
  igst : Z;
  grandTotal : Z
}.

Definition calculateTotals (formData : InvoiceFormData) : Totals :=
  let subtotal :=
    Math_round
      (inject_Z
         (fold_left (fun sum item => sum + item_amount item)
            (items formData) 0)) in
  let gst := calculateGST (inject_Z subtotal) (gstRate formData) in
  {| subtotal := subtotal;
     cgst := if isInterstate formData then 0 else gst_cgst gst;
     sgst := if isInterstate formData then 0 else gst_sgst gst;
     igst := if isInterstate formData then gst_igst gst else 0;
     grandTotal := gst_total gst |}.

(** [s || undefined]. *)
Definition or_undefined (s : string) : option string :=
  if truthy_str s then Some s else None.

Definition generateInvoice (formData : InvoiceFormData) : Invoice :=
  let totals := calculateTotals formData in
  {| inv_invoiceNumber := invoiceNumber formData;
     inv_invoiceDate := invoiceDate formData;
     inv_dueDate := or_undefined (dueDate formData);
     inv_poNumber := or_undefined (poNumber formData);
     inv_poDate := or_undefined (poDate formData);
     inv_displayName := or_undefined (displayName formData);
     inv_duration := or_undefined (duration formData);
     inv_billingParty := billingParty formData;
     inv_items := items formData;
     inv_subtotal := subtotal totals;
     inv_cgst := cgst totals;
     inv_sgst := sgst totals;
     inv_igst := igst totals;
     inv_grandTotal := grandTotal totals;
     inv_totalInWords :=
       numberToWords (Math_round (inject_Z (grandTotal totals)));
     inv_termsAndConditions :=
       List.filter (fun term => truthy_str (trim term))
         (split "010" (termsAndConditions formData)) |}.

(** *** Item and billing-party edits *)

Definition set_amount (a : Z) (i : InvoiceItem) : InvoiceItem :=
  mkItem (item_id i) (item_sno i) (item_town i) (item_location i)
    (item_hsn i) (item_media i) (item_size i) (item_area i) (item_type i)
    (item_ratePM i) (item_period i) a.

Definition set_period (p : string) (i : InvoiceItem) : InvoiceItem :=
  mkItem (item_id i) (item_sno i) (item_town i) (item_location i)
    (item_hsn i) (item_media i) (item_size i) (item_area i) (item_type i)
    (item_ratePM i) p (item_amount i).

Definition set_billingParty (b : BillingParty) (f : InvoiceFormData)
  : InvoiceFormData :=
  mkForm (invoiceNumber f) (invoiceDate f) (dueDate f) (creditDays f)
    (poNumber f) (poDate f) (displayName f) (duration f) (startDate f)
    b (items f) (gstRate f) (isInterstate f) (termsAndConditions f).

Definition set_duration (d : string) (f : InvoiceFormData)
  : InvoiceFormData :=
  mkForm (invoiceNumber f) (invoiceDate f) (dueDate f) (creditDays f)
    (poNumber f) (poDate f) (displayName f) d (startDate f)
    (billingParty f) (items f) (gstRate f) (isInterstate f)
    (termsAndConditions f).

Definition set_startDate (d : string) (f : InvoiceFormData)
  : InvoiceFormData :=
  mkForm (invoiceNumber f) (invoiceDate f) (dueDate f) (creditDays f)
    (poNumber f) (poDate f) (displayName f) (duration f) d
    (billingParty f) (items f) (gstRate f) (isInterstate f)
    (termsAndConditions f).

Definition set_terms (t : string) (f : InvoiceFormData) : InvoiceFormData :=
  mkForm (invoiceNumber f) (invoiceDate f) (dueDate f) (creditDays f)
    (poNumber f) (poDate f) (displayName f) (duration f) (startDate f)
    (billingParty f) (items f) (gstRate f) (isInterstate f) t.

(** The calendar part of [calculatePeriodFromDates] belongs to the
    platform ([Date], [toLocaleDateString('en-GB')]):
    [formatShifted startDate k] is the DD/MM/YYYY text of
    [new Date(startDate)] moved by [k] days with [setDate]. *)
Class DateLib : Type := {
  formatShifted : string -> Z -> string
}.

Definition DEFAULT_TERMS : list string :=
  [ "Any complaint about the advertisement must be received within 7 days from the date of bill.";
    "Cheques/D.D.(crossed) to be drawn in favour of DESHKAR ADVERTISING, RAIPUR";
    "Interest will be charged @ 24% if the bill is not paid in 10 days.";
    "No receipt is valid unless given on official form.";
    "Subject to Raipur Jurisdiction. State: Chhattisgarh, State Code : 22";
    "Enquiry Pin Code : 492001";
    "Our PAN NO.: AKJPD0941N & Our GST NO.: 22AKJPD0941N4Z8" ].

(** A field of an item together with its new value, as [updateItem]
    receives them. *)
Inductive ItemUpdate : Type :=
| upd_id (v : string)
| upd_sno (v : Z)
| upd_town (v : string)
| upd_location (v : string)
| upd_hsn (v : string)
| upd_media (v : string)
| upd_size (v : string)
| upd_area (v : NumOrStr)
| upd_type (v : string)
| upd_ratePM (v : NumOrStr)
| upd_period (v : string)
| upd_amount (v : Z).

(** [{ ...item, [field]: value }]. *)
Definition applyUpdate (upd : ItemUpdate) (i : InvoiceItem) : InvoiceItem :=
  match upd with
  | upd_id v => set_id v i
  | upd_sno v => set_sno v i
  | upd_town v =>
      mkItem (item_id i) (item_sno i) v (item_location i) (item_hsn i)
        (item_media i) (item_size i) (item_area i) (item_type i)
        (item_ratePM i) (item_period i) (item_amount i)
  | upd_location v =>
      mkItem (item_id i) (item_sno i) (item_town i) v (item_hsn i)
        (item_media i) (item_size i) (item_area i) (item_type i)
        (item_ratePM i) (item_period i) (item_amount i)
  | upd_hsn v =>
      mkItem (item_id i) (item_sno i) (item_town i) (item_location i) v
        (item_media i) (item_size i) (item_area i) (item_type i)
        (item_ratePM i) (item_period i) (item_amount i)
  | upd_media v =>
      mkItem (item_id i) (item_sno i) (item_town i) (item_location i)
        (item_hsn i) v (item_size i) (item_area i) (item_type i)
        (item_ratePM i) (item_period i) (item_amount i)
  | upd_size v =>
      mkItem (item_id i) (item_sno i) (item_town i) (item_location i)
        (item_hsn i) (item_media i) v (item_area i) (item_type i)
        (item_ratePM i) (item_period i) (item_amount i)
  | upd_area v =>
      mkItem (item_id i) (item_sno i) (item_town i) (item_location i)
        (item_hsn i) (item_media i) (item_size i) v (item_type i)
        (item_ratePM i) (item_period i) (item_amount i)
  | upd_type v =>
      mkItem (item_id i) (item_sno i) (item_town i) (item_location i)
        (item_hsn i) (item_media i) (item_size i) (item_area i) v
        (item_ratePM i) (item_period i) (item_amount i)
  | upd_ratePM v =>
      mkItem (item_id i) (item_sno i) (item_town i) (item_location i)
        (item_hsn i) (item_media i) (item_size i) (item_area i)
        (item_type i) v (item_period i) (item_amount i)
  | upd_period v => set_period v i
  | upd_amount v => set_amount v i
  end.

Inductive GlobalField : Type := gf_startDate | gf_duration.

Inductive PartyField : Type :=
| pf_name | pf_address | pf_city | pf_state | pf_pincode | pf_gstin
| pf_phone | pf_email.

(** [{ ...prev.billingParty, [field]: value }]. *)
Definition setPartyField (field : PartyField) (value : string)
    (b : BillingParty) : BillingParty :=
  match field with
  | pf_name =>
      mkParty value (bp_address b) (bp_city b) (bp_state b) (bp_pincode b)
        (bp_gstin b) (bp_phone b) (bp_email b)
  | pf_address =>
      mkParty (bp_name b) value (bp_city b) (bp_state b) (bp_pincode b)
        (bp_gstin b) (bp_phone b) (bp_email b)
  | pf_city =>
      mkParty (bp_name b) (bp_address b) value (bp_state b) (bp_pincode b)
        (bp_gstin b) (bp_phone b) (bp_email b)
  | pf_state =>
      mkParty (bp_name b) (bp_address b) (bp_city b) value (bp_pincode b)
        (bp_gstin b) (bp_phone b) (bp_email b)
  | pf_pincode =>
      mkParty (bp_name b) (bp_address b) (bp_city b) (bp_state b) value
        (bp_gstin b) (bp_phone b) (bp_email b)
  | pf_gstin =>
      mkParty (bp_name b) (bp_address b) (bp_city b) (bp_state b)
        (bp_pincode b) value (bp_phone b) (bp_email b)
  | pf_phone =>
      mkParty (bp_name b) (bp_address b) (bp_city b) (bp_state b)
        (bp_pincode b) (bp_gstin b) (Some value) (bp_email b)
  | pf_email =>
      mkParty (bp_name b) (bp_address b) (bp_city b) (bp_state b)
        (bp_pincode b) (bp_gstin b) (bp_phone b) (Some value)
  end.

Definition set_state (st : string) (b : BillingParty) : BillingParty :=
  setPartyField pf_state st b.

Definition updateBillingParty (field : PartyField) (value : string)
    (prev : InvoiceFormData) : InvoiceFormData :=
  let updatedBillingParty :=
    setPartyField field value (billingParty prev) in
  let updatedBillingParty :=
    match field with
    | pf_gstin =>
        if truthy_str value then
          match getStateFromGSTIN value with
          | Some stateInfo => set_state (si_state stateInfo) updatedBillingParty
          | None => updatedBillingParty
          end
        else updatedBillingParty
    | _ => updatedBillingParty
    end in
  set_billingParty updatedBillingParty prev.

(** The [onChange] handler of the state selector: the state is stored,
    then the interstate flag is derived from it. *)
Definition onStateChange (value : string) (prev : InvoiceFormData)
  : InvoiceFormData :=
  let prev := updateBillingParty pf_state value prev in
  set_isInterstate (negb (String.eqb value "Chhattisgarh")) prev.

(** The [onChange] handler of the interstate check box. *)
Definition onInterstateToggle (checked : bool) (prev : InvoiceFormData)
  : InvoiceFormData :=
  set_isInterstate checked prev.

Section WithDates.

Context `{Platform} `{DateLib}.

Definition calculatePeriodFromDates (startDate duration : string)
  : string :=
  if negb (truthy_str startDate) || negb (truthy_str duration) then ""
  else
    match parseInt duration with
    | None => ""
    | Some durationDays =>
        formatShifted startDate 0 +:+ " to " +:+
        formatShifted startDate (durationDays - 1)
    end.

Definition updateItem (id : string) (upd : ItemUpdate)
    (prev : InvoiceFormData) : InvoiceFormData :=
  set_items
    (map
       (fun item =>
          if String.eqb (item_id item) id then
            let updatedItem := applyUpdate upd item in
            let updatedItem :=
              match upd with
              | upd_ratePM ratePM =>
                  if truthy_str (duration prev) then
                    if truthy ratePM && truthy_str (duration prev)
                    then set_amount
                           (calculateAmountFromDuration ratePM
                              (duration prev))
                           updatedItem
                    else updatedItem
                  else updatedItem
              | _ => updatedItem
              end in
            if truthy_str (startDate prev) && truthy_str (duration prev)
            then set_period
                   (calculatePeriodFromDates (startDate prev)
                      (duration prev))
                   updatedItem
            else updatedItem
          else item)
       (items prev))
    prev.

Definition updateGlobalDateDuration (field : GlobalField) (value : string)
    (prev : InvoiceFormData) : InvoiceFormData :=
  let updatedFormData :=
    match field with
    | gf_startDate => set_startDate value prev
    | gf_duration => set_duration value prev
    end in
  let updatedItems :=
    map
      (fun item =>
         let updatedItem := item in
         let updatedItem :=
           if truthy_str (startDate updatedFormData)
              && truthy_str (duration updatedFormData)
           then set_period
                  (calculatePeriodFromDates (startDate updatedFormData)
                     (duration updatedFormData))
                  updatedItem
           else updatedItem in
         if truthy (item_ratePM item)
            && truthy_str (duration updatedFormData)
         then set_amount
                (calculateAmountFromDuration (item_ratePM item)
                   (duration updatedFormData))
                updatedItem
         else updatedItem)
      (items prev) in
  set_items updatedItems updatedFormData.

End WithDates.

End InvoiceForm.

(** ** [src/lib/pdf-export.ts]: the combined table and its split *)

Module PdfExport.

Inductive PageBreak : Type := pb_avoid | pb_auto.

(** The calls on the document that carry the table and the continuation
    markers; coordinates and fonts are left out. *)
Inductive DrawOp : Type :=
| autoTable (pageBreak : PageBreak) (body : list (list string))
| text (s : string)
| addPage
| setPage (pageNum : nat)
| addHeaderFooter (pageNum : nat)
| rect.

Definition CARRIED_FORWARD : string := "C/F (Carried Forward)".
Definition BROUGHT_FORWARD : string := "B/F (Brought Forward)".

Definition maxRowsFirstPage : nat := 13.

Section WithPlatform.

Context `{Platform}.

Definition formatCompactCurrency (amount : NumOrStr) : string :=
  let format (amount : Q) : string :=
    if Qeq_bool amount 0 then ""
    else
      let roundedAmount := Math_round amount in
      Intl.format_en_IN roundedAmount in
  match amount with
  | Str amount =>
      if String.eqb amount "" || String.eqb amount "0" then ""
      else match parseFloat amount with
           | None => amount
           | Some numAmount => format numAmount
           end
  | Num amount => format amount
  end.

Definition toString (v : NumOrStr) : string :=
  match v with
  | Num q => Number_toString q
  | Str s => s
  end.

Definition itemRow (item : InvoiceItem) : list string :=
  [ Z_toString (item_sno item);
    item_town item;
    item_location item;
    item_hsn item;
    item_media item;
    item_size item;
    toString (item_area item);
    item_type item;
    formatCompactCurrency (item_ratePM item);
    item_period item;
    formatCompactCurrency (Num (inject_Z (item_amount item))) ].

Definition tableData (invoice : Invoice) : list (list string) :=
  map itemRow (inv_items invoice) ++
  [ [""; ""; ""; ""; ""; ""; ""; ""; ""; "SUB TOTAL";
     formatCompactCurrency (Num (inject_Z (inv_subtotal invoice)))];
    [""; ""; ""; ""; ""; ""; ""; ""; ""; "Add : CGST @ 9%";
     if 0 <? inv_cgst invoice
     then formatCompactCurrency (Num (inject_Z (inv_cgst invoice)))
     else "0"];
    [""; ""; ""; ""; ""; ""; ""; ""; ""; "Add : SGST @ 9%";
     if 0 <? inv_sgst invoice
     then formatCompactCurrency (Num (inject_Z (inv_sgst invoice)))
     else "0"];
    [""; ""; ""; ""; ""; ""; ""; ""; ""; "Add : IGST @ 18%";
     if 0 <? inv_igst invoice
     then formatCompactCurrency (Num (inject_Z (inv_igst invoice)))
     else "0"];
    [""; ""; ""; ""; ""; ""; ""; ""; ""; "Less : PO"; "0"];
    [""; ""; ""; ""; ""; ""; ""; ""; ""; "GRAND TOTAL";
     formatCompactCurrency (Num (inject_Z (inv_grandTotal invoice)))] ].

Definition firstPageData (invoice : Invoice) : list (list string) :=
  take maxRowsFirstPage (tableData invoice).

Definition remainingData (invoice : Invoice) : list (list string) :=
  drop maxRowsFirstPage (tableData invoice).

(** The first-page table, and the continuation page when rows
    remain. *)
Definition drawTables (invoice : Invoice) : list DrawOp :=
  [autoTable pb_avoid (firstPageData invoice)] ++
  (if (0 <? length (remainingData invoice))%nat
   then [ text CARRIED_FORWARD;
          addPage;
          addHeaderFooter 2;
          rect;
          text BROUGHT_FORWARD;
          autoTable pb_auto (remainingData invoice) ]
   else []).

End WithPlatform.

(** The decoration of pages 3 and beyond, once the renderer has
    reported how many pages [totalPages] the tables took. *)
Definition stampPage (totalPages pageNum : nat) : list DrawOp :=
  [setPage pageNum; addHeaderFooter pageNum; rect; text BROUGHT_FORWARD]
  ++ (if (pageNum <? totalPages)%nat then [text CARRIED_FORWARD] else []).

Definition stampPages (totalPages : nat) : list DrawOp :=
  if (2 <? totalPages)%nat
  then flat_map (stampPage totalPages) (seq 3 (totalPages - 2))
       ++ [setPage totalPages]
  else [setPage totalPages].

(** *** Cell styling *)

(** [getResponsiveFontSize (text, maxLength, baseFontSize)].  The
    limits are small integers, whose multiples by 1.5, 2 and 3 are
    exact in doubles. *)
Definition getResponsiveFontSize (text : string) (maxLength : Q)
    (baseFontSize : Z) : Z :=
  if negb (truthy_str text) then baseFontSize
  else
    let textLength := inject_Z (Z.of_nat (String_length text)) in
    if Qle_bool textLength maxLength then baseFontSize
    else if Qle_bool textLength (maxLength * (3 # 2)) then
      Z.max (baseFontSize - 1) 5
    else if Qle_bool textLength (maxLength * 2) then
      Z.max (baseFontSize - 2) 4
    else Z.max (baseFontSize - 3) 3.

(** [COLUMN_LIMITS], read through the [switch] on the column index. *)
Definition columnLimit (columnIndex : nat) : Q :=
  match columnIndex with
  | 0%nat => 3 | 1%nat => 8 | 2%nat => 15 | 3%nat => 8 | 4%nat => 10
  | 5%nat => 8 | 6%nat => 6 | 7%nat => 8 | 8%nat => 10 | 9%nat => 20
  | 10%nat => 12
  | _ => 10
  end.

Inductive Overflow : Type := ov_linebreak | ov_hidden | ov_other.
Inductive CellWidth : Type := cw_wrap | cw_fixed (w : Q).
Inductive VAlign : Type := va_top | va_middle | va_bottom.
Inductive HAlign : Type := ha_left | ha_center | ha_right.
Inductive FontStyle : Type := fs_normal | fs_bold.
Inductive Section_ : Type := sec_head | sec_body | sec_foot.

Record Styles : Type := mkStyles {
  st_overflow : Overflow;
  st_cellWidth : CellWidth;
  st_valign : VAlign;
  st_halign : HAlign;
  st_lineWidth : Q;
  st_lineColor : Z * Z * Z;
  st_fontStyle : FontStyle;
  st_fillColor : option (Z * Z * Z);
  st_fontSize : Z
}.

(** What the callbacks read of their argument [data]. *)
Record CellData : Type := mkCellData {
  cd_section : Section_;
  cd_rowIndex : nat;
  cd_columnIndex : nat;
  cd_text : list string;
  cd_styles : Styles
}.

(** Responsive sizing of a cell whose first text line is [text]. *)
Definition sizeCell (columnIndex : nat) (text : string) (s : Styles)
  : Styles :=
  let maxLength := columnLimit columnIndex in
  let responsiveFontSize := getResponsiveFontSize text maxLength 7 in
  let s :=
    mkStyles (st_overflow s) (st_cellWidth s) (st_valign s) (st_halign s)
      (st_lineWidth s) (st_lineColor s) (st_fontStyle s) (st_fillColor s)
      responsiveFontSize in
  if Qle_bool (inject_Z (Z.of_nat (String_length text))) (maxLength * 3)
  then
    mkStyles ov_hidden (st_cellWidth s) (st_valign s) (st_halign s)
      (st_lineWidth s) (st_lineColor s) (st_fontStyle s) (st_fillColor s)
      (st_fontSize s)
  else
    mkStyles ov_linebreak cw_wrap (st_valign s) (st_halign s)
      (st_lineWidth s) (st_lineColor s) (st_fontStyle s) (st_fillColor s)
      (st_fontSize s).

(** [didParseCell] of the first-page table; [itemCount] is
    [invoice.items.length]. *)
Definition didParseCell_firstPage (itemCount : nat) (data : CellData)
  : Styles :=
  let s := cd_styles data in
  let s :=
    mkStyles ov_linebreak cw_wrap va_middle (st_halign s) (1 # 4) (0, 0, 0)
      (st_fontStyle s) (st_fillColor s) (st_fontSize s) in
  let totalsStartRow := itemCount in
  let isSubTotalRow := (cd_rowIndex data =? totalsStartRow)%nat in
  let isGrandTotalRow := (cd_rowIndex data =? totalsStartRow + 5)%nat in
  let isTotalsRow := (totalsStartRow <=? cd_rowIndex data)%nat in
  if isTotalsRow then
    let s :=
      if (cd_columnIndex data <? 9)%nat then
        mkStyles (st_overflow s) (st_cellWidth s) (st_valign s)
          (st_halign s) 0 (255, 255, 255) (st_fontStyle s) (st_fillColor s)
          (st_fontSize s)
      else
        mkStyles (st_overflow s) (st_cellWidth s) (st_valign s)
          (st_halign s) (1 # 4) (0, 0, 0) (st_fontStyle s) (st_fillColor s)
          (st_fontSize s) in
    let s :=
      if isSubTotalRow || isGrandTotalRow then
        if (9 <=? cd_columnIndex data)%nat then
          mkStyles (st_overflow s) (st_cellWidth s) (st_valign s)
            (st_halign s) (st_lineWidth s) (st_lineColor s) fs_bold
            (Some (240, 240, 240)) (st_fontSize s)
        else s
      else s in
    if (cd_columnIndex data =? 9)%nat then
      mkStyles (st_overflow s) (st_cellWidth s) (st_valign s) ha_left
        (st_lineWidth s) (st_lineColor s) (st_fontStyle s) (st_fillColor s)
        (st_fontSize s)
    else s
  else
    match cd_text data with
    | line :: _ => sizeCell (cd_columnIndex data) line s
    | [] => s
    end.

(** [didParseCell] of the continuation table. *)
Definition didParseCell_continuation (data : CellData) : Styles :=
  let s := cd_styles data in
  let s :=
    mkStyles ov_linebreak cw_wrap (st_valign s) (st_halign s)
      (st_lineWidth s) (st_lineColor s) (st_fontStyle s) (st_fillColor s)
      (st_fontSize s) in
  match cd_section data with
  | sec_body =>
      match cd_text data with
      | line :: _ => sizeCell (cd_columnIndex data) line s
      | [] => s
      end
  | _ => s
  end.

(** [getStateFromGSTIN(gstin || '')?.code || '00']. *)
Definition stateCode (gstin : string) : string :=
  match getStateFromGSTIN (if truthy_str gstin then gstin else "") with
  | Some stateInfo =>
      if truthy_str (si_code stateInfo) then si_code stateInfo else "00"
  | None => "00"
  end.

(** *** The document the calls act on

    Only the page count, the current page and the marker texts with the
    page they land on are kept.  [addPage] appends a page and moves to
    it, [setPage] moves, [text] writes on the current page, and a table
    that the renderer breaks over [spill] further pages leaves the
    document on the last of them. *)
Record Doc : Type := mkDoc {
  doc_pages : nat;
  doc_current : nat;
  doc_texts : list (nat * string)
}.

Definition exec (spill : PageBreak -> list (list string) -> nat)
    (d : Doc) (op : DrawOp) : Doc :=
  match op with
  | autoTable pageBreak body =>
      let last := (doc_current d + spill pageBreak body)%nat in
      mkDoc (Nat.max (doc_pages d) last) last (doc_texts d)
  | text s => mkDoc (doc_pages d) (doc_current d)
                (doc_texts d ++ [(doc_current d, s)])
  | addPage => mkDoc (S (doc_pages d)) (S (doc_pages d)) (doc_texts d)
  | setPage pageNum => mkDoc (doc_pages d) pageNum (doc_texts d)
  | addHeaderFooter _ => d
  | rect => d
  end.

Definition run (spill : PageBreak -> list (list string) -> nat)
    (ops : list DrawOp) (d : Doc) : Doc :=
  fold_left (exec spill) ops d.

Section Pages.

Context `{Platform}.

(** The tables, then the stamping of pages 3 and beyond with the page
    count the document has reached ([getNumberOfPages]). *)
Definition drawPages (spill : PageBreak -> list (list string) -> nat)
    (invoice : Invoice) : Doc :=
  let d := run spill (drawTables invoice) (mkDoc 1 1 []) in
  let totalPages := doc_pages d in
  run spill (stampPages totalPages) d.

End Pages.

End PdfExport.

(** ** [src/lib/excel-export.ts]: the rows of the sheet *)

Module ExcelExport.

Definition titles : list NumOrStr :=
  [ Str "S.No."; Str "Town"; Str "Location"; Str "HSN"; Str "Media";
    Str "Size"; Str "Area"; Str "Type"; Str "Rate P.M."; Str "Period";
    Str "Amount" ].

Definition headerData (invoice : Invoice) : list (list NumOrStr) :=
  let party := inv_billingParty invoice in
  [ [Str "DESHKAR ADVERTISING"];
    [Str "Shop No. 123, Advertisement Plaza"];
    [Str "Mumbai, Maharashtra - 400001"];
    [Str "Phone: +91 98765 43210 | Email: info@deshkaradvertising.com"];
    [Str "GSTIN: 27AAAAA0000A1Z5"];
    [Str ""];
    [Str "TAX INVOICE"];
    [Str ""];
    [ Str ("Invoice No: " +:+ inv_invoiceNumber invoice); Str ""; Str "";
      Str ("Invoice Date: " +:+ inv_invoiceDate invoice) ];
    [ Str (match inv_dueDate invoice with
           | Some d => if truthy_str d then "Due Date: " +:+ d else ""
           | None => ""
           end) ];
    [Str ""];
    [Str "BILL TO:"];
    [Str (bp_name party)];
    [Str (bp_address party)];
    [Str (bp_city party +:+ ", " +:+ bp_state party +:+ " - "
          +:+ bp_pincode party)];
    [Str ("GSTIN: " +:+ bp_gstin party)];
    [Str ""];
    [Str "INVOICE DETAILS:"];
    titles ].

Definition itemCells (item : InvoiceItem) : list NumOrStr :=
  [ Num (inject_Z (item_sno item));
    Str (item_town item);
    Str (item_location item);
    Str (item_hsn item);
    Str (item_media item);
    Str (item_size item);
    item_area item;
    Str (item_type item);
    item_ratePM item;
    Str (item_period item);
    Num (inject_Z (item_amount item)) ].

Definition itemsData (invoice : Invoice) : list (list NumOrStr) :=
  map itemCells (inv_items invoice).

Definition summaryRow (label : string) (value : Z) : list NumOrStr :=
  [ Str ""; Str ""; Str ""; Str ""; Str ""; Str ""; Str ""; Str "";
    Str label; Str ""; Num (inject_Z value) ].

Definition taxData (invoice : Invoice) : list (list NumOrStr) :=
  let taxData :=
    [ [Str ""]; summaryRow "Subtotal:" (inv_subtotal invoice) ] in
  let taxData :=
    if 0 <? inv_cgst invoice
    then taxData ++ [ summaryRow "CGST:" (inv_cgst invoice);
                      summaryRow "SGST:" (inv_sgst invoice) ]
    else taxData ++ [ summaryRow "IGST:" (inv_igst invoice) ] in
  taxData ++ [ summaryRow "Grand Total:" (inv_grandTotal invoice) ].

Definition wordsData (invoice : Invoice) : list (list NumOrStr) :=
  [ [Str ""];
    [Str ("Amount in Words: " +:+ inv_totalInWords invoice)];
    [Str ""] ].

Definition termsData (invoice : Invoice) : list (list NumOrStr) :=
  [ [Str "TERMS & CONDITIONS:"] ] ++
  imap (fun index term =>
          [Str (Z_toString (Z.of_nat index + 1) +:+ ". " +:+ term)])
    (inv_termsAndConditions invoice) ++
  [ [Str ""]; [Str ""]; [Str "For DESHKAR ADVERTISING"];
    [Str "Authorized Signatory"] ].

Definition allData (invoice : Invoice) : list (list NumOrStr) :=
  headerData invoice ++ itemsData invoice ++ taxData invoice ++
  wordsData invoice ++ termsData invoice.

(** The row styled as the table header. *)
Definition headerRowIndex (invoice : Invoice) : nat :=
  (length (headerData invoice) - 1)%nat.

End ExcelExport.

(** ** Reference notions used to state the properties *)

Module Spec.

(** Words separated by single spaces. *)
Definition unwords (ws : list string) : string := join " " ws.

(** Every word followed by one space, as the converter builds its
    result. *)
Fixpoint spaced (ws : list string) : string :=
  match ws with
  | [] => EmptyString
  | w :: tl => w +:+ " " +:+ spaced tl
  end.

(** A character of a word: an ASCII character that is not white
    space. *)
Definition solid (c : ascii) : bool :=
  (N_of_ascii c <? 128)%N && negb (is_whitespace1 c).

(** A non-empty ASCII string without white space. *)
Definition wordlike (w : string) : bool :=
  truthy_str w && forallb solid (list_ascii_of_string w).

(** The words of a group [g], read off its decimal digits: the hundreds
    word, then either the teen word (tens digit 1) or the tens word
    followed by the ones word. *)
Definition groupWords (g : Z) : list string :=
  let h := g / 100 in
  let t := (g mod 100) / 10 in
  let o := g mod 10 in
  (if 0 <? h then [arr_get ones h; "Hundred"] else []) ++
  (if t =? 1 then [arr_get teens o]
   else (if 2 <=? t then [arr_get tens t] else []) ++
        (if 0 <? o then [arr_get ones o] else [])).

(** A group followed by its scale word; nothing for a zero group. *)
Definition scaled (g : Z) (scale : string) : list string :=
  if 0 <? g then groupWords g ++ [scale] else [].

Definition numberWords (n : Z) : list string :=
  scaled (n / 10000000) "Crore" ++
  scaled ((n mod 10000000) / 100000) "Lakh" ++
  scaled ((n mod 100000) / 1000) "Thousand" ++
  (if 0 <? n mod 1000 then groupWords (n mod 1000) else []).

Definition numberToWords (n : Z) : string :=
  if n =? 0 then "Zero" else unwords (numberWords n) +:+ " Only".

(** The proper words of the three tables. *)
Definition dictionary : list string :=
  List.filter truthy_str (ones ++ teens ++ tens) ++ ["Hundred"].

(** Indian grouping of a digit string: one group of one to three
    digits, or a leading group of one or two digits, groups of two, and
    a final group of three, separated by commas. *)
Definition is_digit (c : ascii) : bool :=
  (48 <=? nat_of_ascii c)%nat && (nat_of_ascii c <=? 57)%nat.

Definition all_digits (s : string) : bool := string_forallb is_digit s.

Fixpoint shape_tail (chunks : list string) : bool :=
  match chunks with
  | [] => false
  | [last] => (String.length last =? 3)%nat
  | mid :: tl => (String.length mid =? 2)%nat && shape_tail tl
  end.

Definition indian_shape (chunks : list string) : bool :=
  match chunks with
  | [] => false
  | [only] =>
      (1 <=? String.length only)%nat && (String.length only <=? 3)%nat
  | first :: tl =>
      (1 <=? String.length first)%nat && (String.length first <=? 2)%nat
      && shape_tail tl
  end.

Definition indian_grouped (s : string) : bool :=
  let chunks := split "," s in
  forallb all_digits chunks && indian_shape chunks.

Definition digits_and_commas (s : string) : bool :=
  string_forallb (fun c => is_digit c || Ascii.eqb c ",") s.

(** The string without its commas. *)
Fixpoint strip_commas (s : string) : string :=
  match s with
  | EmptyString => EmptyString
  | String c s' =>
      if Ascii.eqb c "," then strip_commas s' else String c (strip_commas s')
  end.

(** The amount for [durationDays] days at [rate] a month as the
    description gives it, on exact numbers: "months =
    floor(durationDays/30), remainderDays = durationDays mod 30, amount =
    round(months*rate + remainderDays*(rate/30))". *)
Definition amount (rate : Q) (durationDays : Z) : Z :=
  let months := durationDays / 30 in
  let remainderDays := durationDays mod 30 in
  Math_round
    (inject_Z months * rate + inject_Z remainderDays * (rate / 30))%Q.

(** The same formula in double precision: the rate is a double, and the
    quotient, the two products and the sum are each rounded to one.  The
    remainder is the one of the source, with the sign of the dividend;
    it is [durationDays mod 30] when [durationDays] is not negative. *)
Definition amount64 (rate : Q) (durationDays : Z) : Z :=
  let rate := Float64.round rate in
  let months := durationDays / 30 in
  let remainderDays := rem durationDays 30 in
  Math_round
    (Float64.add (Float64.mul (inject_Z months) rate)
       (Float64.mul (inject_Z remainderDays) (Float64.div rate 30))).

(** The items carry the sequence numbers 1..N in list order. *)
Definition sequenced (l : list InvoiceItem) : Prop :=
  map item_sno l = map (fun i => Z.of_nat i + 1) (seq 0 (length l)).

End Spec.

(** ** A platform instance for the concrete examples

    It reads non-empty strings of decimal digits, on which it agrees with
    [parseInt] and [parseFloat], and rejects everything else; it prints
    the integer part of a number. *)

Module Sample.

Fixpoint digitsValue (acc : Z) (s : string) : option Z :=
  match s with
  | EmptyString => Some acc
  | String c s' =>
      if Spec.is_digit c
      then digitsValue (10 * acc + (Z.of_nat (nat_of_ascii c) - 48)) s'
      else None
  end.

Definition parseDigits (s : string) : option Z :=
  if String.eqb s "" then None else digitsValue 0 s.

Definition platform : Platform :=
  {| parseFloat := fun s => inject_Z <$> parseDigits s;
     parseInt := parseDigits;
     Number_toString := fun q => Z_toString (Qfloor q) |}.

Definition platform_laws : @PlatformLaws platform :=
  @Build_PlatformLaws platform eq_refl eq_refl.

Definition party : BillingParty :=
  mkParty "Acme Outdoor" "1 Main Road" "Raipur" "Chhattisgarh" "492001"
    "22AKJPD0941N4Z8" None None.

Definition item (sno amount : Z) : InvoiceItem :=
  mkItem (Z_toString sno) sno "Raipur" "Station Road" "998366" "Hoarding"
    "20x10" (Str "200") "Lit" (Str "30000") "" amount.

(** A form with [n] items of the given amount each. *)
Definition form (n : nat) (amount : Z) (rate : Q) (interstate : bool)
  : InvoiceFormData :=
  mkForm "INV000001" "2025-01-01" "" 0 "" "" "" "37" ""
    party (map (fun i => item (Z.of_nat i + 1) amount) (seq 0 n))
    rate interstate "Subject to Raipur Jurisdiction.".

End Sample.

(** A calendar instance for the concrete examples: the shifted date is
    written symbolically, as the start date and the number of days. *)

Module SampleDates.

Definition datelib : InvoiceForm.DateLib :=
  {| InvoiceForm.formatShifted :=
       fun startDate k => startDate +:+ "+" +:+ Z_toString k |}.

End SampleDates.

(** * Properties *)

(** ** Rounding *)

Section Rounding.

Lemma Math_round_Z (z : Z) : Math_round (inject_Z z) = z.
Proof.
  unfold Math_round.
  assert (E : (inject_Z z + (1 # 2) == (2 * z + 1) # 2)%Q).
  { unfold Qeq, Qplus, inject_Z; simpl. lia. }
  rewrite E. unfold Qfloor.
  symmetry. apply (Z.div_unique _ _ _ 1); lia.
Qed.

Lemma Math_round_half (z : Z) :
  Math_round (inject_Z z / 2)%Q = (z + 1) / 2.
Proof.
  unfold Math_round.
  assert (E : (inject_Z z / 2 + (1 # 2) == (z + 1) # 2)%Q).
  { unfold Qeq, Qplus, Qdiv, Qmult, Qinv, inject_Z; simpl. lia. }
  rewrite E. reflexivity.
Qed.

Lemma Math_round_plus_Z (a b : Z) :
  Math_round (inject_Z a + inject_Z b)%Q = a + b.
Proof. rewrite <- inject_Z_plus. apply Math_round_Z. Qed.

Lemma Math_round_Qeq (x y : Q) : (x == y)%Q -> Math_round x = Math_round y.
Proof. intros E. unfold Math_round. now rewrite E. Qed.

Lemma Math_round_nonpos (x : Q) : (x <= 0)%Q -> Math_round x <= 0.
Proof.
  intros Hx. unfold Math_round.
  assert (L : (x + (1 # 2) <= 1 # 2)%Q).
  { rewrite <- (Qplus_0_l (1 # 2)) at 2. apply Qplus_le_l. exact Hx. }
  apply Qfloor_resp_le in L.
  change (Qfloor (1 # 2)) with 0 in L. exact L.
Qed.

Lemma Math_round_mono (x y : Q) :
  (x <= y)%Q -> Math_round x <= Math_round y.
Proof.
  intros Hxy. unfold Math_round. apply Qfloor_resp_le. lra.
Qed.

End Rounding.

(** ** Rounding to doubles *)

Section Float64Props.

Import Float64.

Lemma pow2_pos (e : Z) : (0 < pow2 e)%Q.
Proof. apply Qpower_0_lt. reflexivity. Qed.

Lemma pow2_add (a b : Z) : (pow2 (a + b) == pow2 a * pow2 b)%Q.
Proof. apply Qpower_plus. discriminate. Qed.

Lemma pow2_le (a b : Z) : a <= b -> (pow2 a <= pow2 b)%Q.
Proof.
  intros Hab. apply Qpower_le_compat_l; [ exact Hab | discriminate ].
Qed.

Lemma pow2_lt_inv (a b : Z) : (pow2 a < pow2 b)%Q -> a < b.
Proof.
  intros Hab. apply (Qpower_lt_compat_l_inv 2); [ exact Hab | reflexivity ].
Qed.

Lemma pow2_Z (e : Z) : 0 <= e -> (pow2 e == inject_Z (2 ^ e))%Q.
Proof. intros He. symmetry. apply (Zpower_Qpower 2 e He). Qed.

Lemma Qdiv_pow2 (a : Q) (e : Z) : (a / pow2 e == a * pow2 (- e))%Q.
Proof.
  unfold Qdiv. apply Qmult_comp; [ reflexivity | ].
  unfold pow2. rewrite Qpower_opp. reflexivity.
Qed.

(** [ilog2 a] is the exponent of the power of two at or below [a]. *)
Lemma ilog2_spec (a : Q) :
  (0 < a)%Q -> (pow2 (ilog2 a) <= a)%Q /\ (a < pow2 (ilog2 a + 1))%Q.
Proof.
  intros Ha. destruct a as [n d].
  assert (Hn : 0 < n).
  { unfold Qlt in Ha. simpl in Ha. lia. }
  pose proof (Z.log2_spec n Hn) as [Hn1 Hn2].
  pose proof (Z.log2_spec (Zpos d) (Pos2Z.is_pos d)) as [Hd1 Hd2].
  pose proof (Z.log2_nonneg n) as Hln.
  pose proof (Z.log2_nonneg (Zpos d)) as Hld.
  set (ln := Z.log2 n) in *. set (ld := Z.log2 (Zpos d)) in *.
  assert (Ea : (inject_Z n == (n # d) * inject_Z (Zpos d))%Q).
  { unfold Qeq, Qmult, inject_Z. simpl. lia. }
  assert (Hup : (n # d < pow2 (ln - ld + 1))%Q).
  { apply (Qmult_lt_r _ _ (pow2 ld) (pow2_pos ld)).
    rewrite <- pow2_add. replace (ln - ld + 1 + ld) with (Z.succ ln) by lia.
    apply Qle_lt_trans with (inject_Z n).
    - rewrite Ea. apply Qmult_le_l; [ exact Ha | ].
      rewrite (pow2_Z ld Hld). rewrite <- Zle_Qle. exact Hd1.
    - rewrite (pow2_Z (Z.succ ln)) by lia. rewrite <- Zlt_Qlt. exact Hn2. }
  assert (Hlo : (pow2 (ln - ld - 1) <= n # d)%Q).
  { apply (Qmult_le_r _ _ (pow2 (Z.succ ld)) (pow2_pos _)).
    rewrite <- pow2_add. replace (ln - ld - 1 + Z.succ ld) with ln by lia.
    apply Qle_trans with (inject_Z n).
    - rewrite (pow2_Z ln Hln). rewrite <- Zle_Qle. exact Hn1.
    - rewrite Ea. apply Qmult_le_l; [ exact Ha | ].
      rewrite (pow2_Z (Z.succ ld)) by lia. rewrite <- Zle_Qle. lia. }
  unfold ilog2. cbn [Qnum Qden]. fold ln ld.
  destruct (Qle_bool (pow2 (ln - ld)) (n # d)) eqn:E.
  - apply Qle_bool_iff in E. split; [ exact E | exact Hup ].
  - split; [ exact Hlo | ].
    replace (ln - ld - 1 + 1) with (ln - ld) by lia.
    apply Qnot_le_lt. intros Hc. apply Qle_bool_iff in Hc. congruence.
Qed.

Lemma ilog2_unique (a : Q) (k : Z) :
  (pow2 k <= a)%Q -> (a < pow2 (k + 1))%Q -> ilog2 a = k.
Proof.
  intros H1 H2.
  assert (Ha : (0 < a)%Q)
    by (eapply Qlt_le_trans; [ apply (pow2_pos k) | exact H1 ]).
  destruct (ilog2_spec a Ha) as [H3 H4].
  pose proof (pow2_lt_inv _ _ (Qle_lt_trans _ _ _ H1 H4)).
  pose proof (pow2_lt_inv _ _ (Qle_lt_trans _ _ _ H3 H2)).
  lia.
Qed.

Lemma ilog2_mono (a b : Q) : (0 < a)%Q -> (a <= b)%Q -> ilog2 a <= ilog2 b.
Proof.
  intros Ha Hab.
  destruct (ilog2_spec a Ha) as [H1 _].
  destruct (ilog2_spec b (Qlt_le_trans _ _ _ Ha Hab)) as [_ H2].
  pose proof (pow2_lt_inv _ _
    (Qle_lt_trans _ _ _ (Qle_trans _ _ _ H1 Hab) H2)).
  lia.
Qed.

Lemma rne_floor (t : Q) : Qfloor t <= rne t <= Qfloor t + 1.
Proof.
  unfold rne. destruct (t - inject_Z (Qfloor t) ?= 1 # 2)%Q;
    [ destruct (Z.even (Qfloor t)) | | ]; lia.
Qed.

Lemma rne_mono (t u : Q) : (t <= u)%Q -> rne t <= rne u.
Proof.
  intros Htu. pose proof (Qfloor_resp_le _ _ Htu) as Hf.
  pose proof (rne_floor t) as Ht. pose proof (rne_floor u) as Hu.
  destruct (Z.eq_dec (Qfloor t) (Qfloor u)) as [E | NE]; [ | lia ].
  assert (Hd : (t - inject_Z (Qfloor t) <= u - inject_Z (Qfloor u))%Q).
  { rewrite E. apply Qplus_le_l. exact Htu. }
  unfold rne. rewrite <- E in *.
  destruct (Qcompare_spec (t - inject_Z (Qfloor t)) (1 # 2))
    as [H1 | H1 | H1];
    destruct (Qcompare_spec (u - inject_Z (Qfloor t)) (1 # 2))
      as [H2 | H2 | H2];
    try (destruct (Z.even (Qfloor t))); try lia; exfalso; lra.
Qed.

Lemma rne_Z (z : Z) : rne (inject_Z z) = z.
Proof.
  unfold rne. rewrite Qfloor_Z.
  assert (E : (inject_Z z - inject_Z z == 0)%Q) by ring.
  destruct (Qcompare_spec (inject_Z z - inject_Z z) (1 # 2)) as [H1 | H1 | H1].
  - rewrite E in H1. discriminate.
  - reflexivity.
  - rewrite E in H1. discriminate.
Qed.

Lemma rne_Qeq (t u : Q) : (t == u)%Q -> rne t = rne u.
Proof.
  intros E. apply Z.le_antisymm; apply rne_mono; rewrite E; apply Qle_refl.
Qed.


Lemma rne_nonneg (t : Q) : (0 <= t)%Q -> 0 <= rne t.
Proof. intros Ht. rewrite <- (rne_Z 0). now apply rne_mono. Qed.

Lemma round_pos_nonneg (a : Q) : (0 < a)%Q -> (0 <= round_pos a)%Q.
Proof.
  intros Ha. unfold round_pos.
  set (e := Z.max (ilog2 a - 52) (-1074)).
  apply Qmult_le_0_compat; [ | apply Qlt_le_weak, pow2_pos ].
  rewrite <- (Zle_Qle 0). apply rne_nonneg.
  apply Qle_shift_div_l; [ apply pow2_pos | ]. lra.
Qed.

Lemma round_pos_mono (a b : Q) :
  (0 < a)%Q -> (a <= b)%Q -> (round_pos a <= round_pos b)%Q.
Proof.
  intros Ha Hab.
  assert (Hb : (0 < b)%Q) by lra.
  pose proof (ilog2_mono a b Ha Hab) as Hk.
  destruct (ilog2_spec a Ha) as [_ Ha2].
  destruct (ilog2_spec b Hb) as [Hb1 _].
  unfold round_pos.
  set (ka := ilog2 a) in *. set (kb := ilog2 b) in *.
  set (ea := Z.max (ka - 52) (-1074)). set (eb := Z.max (kb - 52) (-1074)).
  destruct (Z.eq_dec ea eb) as [E | NE].
  - rewrite <- E. apply Qmult_le_compat_r; [ | apply Qlt_le_weak, pow2_pos ].
    rewrite <- Zle_Qle. apply rne_mono.
    apply Qmult_le_compat_r; [ exact Hab | ].
    apply Qlt_le_weak, Qinv_lt_0_compat, pow2_pos.
  - assert (Hlt : ea < eb) by lia.
    assert (Eb : eb = kb - 52) by lia.
    assert (Hma : rne (a / pow2 ea) <= 2 ^ 53).
    { rewrite <- (rne_Z (2 ^ 53)). apply rne_mono.
      apply Qle_shift_div_r; [ apply pow2_pos | ].
      rewrite <- (pow2_Z 53) by lia. rewrite <- pow2_add.
      apply Qle_trans with (pow2 (ka + 1)); [ lra | ].
      apply pow2_le. lia. }
    assert (Hmb : 2 ^ 52 <= rne (b / pow2 eb)).
    { rewrite <- (rne_Z (2 ^ 52)). apply rne_mono.
      apply Qle_shift_div_l; [ apply pow2_pos | ].
      rewrite <- (pow2_Z 52) by lia. rewrite <- pow2_add.
      apply Qle_trans with (pow2 kb); [ | exact Hb1 ].
      apply pow2_le. lia. }
    apply Qle_trans with (inject_Z (2 ^ 53) * pow2 ea)%Q.
    { apply Qmult_le_compat_r; [ | apply Qlt_le_weak, pow2_pos ].
      rewrite <- Zle_Qle. exact Hma. }
    apply Qle_trans with (inject_Z (2 ^ 52) * pow2 eb)%Q.
    { rewrite <- (pow2_Z 53), <- (pow2_Z 52) by lia. rewrite <- !pow2_add.
      apply pow2_le. lia. }
    apply Qmult_le_compat_r; [ | apply Qlt_le_weak, pow2_pos ].
    rewrite <- Zle_Qle. exact Hmb.
Qed.

(** A number [m * 2^e0] with [0 < m < 2^53] and [-1074 <= e0] is a
    binary64 number: rounding leaves it alone. *)
Lemma round_pos_representable (a : Q) (m e0 : Z) :
  0 < m < 2 ^ 53 -> -1074 <= e0 -> (a == inject_Z m * pow2 e0)%Q ->
  (round_pos a == a)%Q.
Proof.
  intros Hm He0 Ea.
  assert (Ha : (0 < a)%Q).
  { rewrite Ea. apply Qmult_lt_0_compat; [ | apply pow2_pos ].
    rewrite <- (Zlt_Qlt 0). lia. }
  destruct (ilog2_spec a Ha) as [Hk1 _].
  unfold round_pos. set (k := ilog2 a) in *.
  set (e := Z.max (k - 52) (-1074)).
  assert (Hk : k < 53 + e0).
  { apply pow2_lt_inv. eapply Qle_lt_trans; [ exact Hk1 | ].
    rewrite Ea, pow2_add, (pow2_Z 53) by lia.
    apply Qmult_lt_compat_r; [ apply pow2_pos | ].
    rewrite <- Zlt_Qlt. lia. }
  assert (Hee : 0 <= e0 - e) by lia.
  assert (Ediv : (a / pow2 e == inject_Z (m * 2 ^ (e0 - e)))%Q).
  { rewrite Ea, inject_Z_mult, <- (pow2_Z _ Hee).
    replace (e0 - e) with (e0 + - e) by lia. rewrite pow2_add.
    rewrite Qdiv_pow2. ring. }
  rewrite (rne_Qeq _ _ Ediv), rne_Z, inject_Z_mult, <- (pow2_Z _ Hee).
  rewrite Ea. rewrite <- Qmult_assoc, <- pow2_add.
  replace (e0 - e + e) with e0 by lia. reflexivity.
Qed.

Lemma round_Qeq (x y : Q) : (x == y)%Q -> round x = round y.
Proof. intros E. unfold round. now rewrite (Qred_complete _ _ E). Qed.

Lemma round_pos_eq (q : Q) : (0 < q)%Q -> round q = round_pos (Qred q).
Proof.
  intros Hq. unfold round. rewrite <- (Qred_correct q) in Hq. cbv zeta.
  destruct (Qcompare_spec (Qred q) 0) as [H1 | H1 | H1];
    [ exfalso; lra | exfalso; lra | reflexivity ].
Qed.

Lemma round_neg_eq (q : Q) :
  (q < 0)%Q -> round q = (- round_pos (- Qred q))%Q.
Proof.
  intros Hq. unfold round. rewrite <- (Qred_correct q) in Hq. cbv zeta.
  destruct (Qcompare_spec (Qred q) 0) as [H1 | H1 | H1];
    [ exfalso; lra | reflexivity | exfalso; lra ].
Qed.

Lemma round_nonneg (q : Q) : (0 <= q)%Q -> (0 <= round q)%Q.
Proof.
  intros Hq. destruct (Qlt_le_dec 0 q) as [Hpos | Hle].
  - rewrite (round_pos_eq q Hpos). apply round_pos_nonneg.
    now rewrite Qred_correct.
  - assert (E : (q == 0)%Q) by lra. rewrite (round_Qeq _ _ E). apply Qle_refl.
Qed.

Lemma round_nonpos (q : Q) : (q <= 0)%Q -> (round q <= 0)%Q.
Proof.
  intros Hq. destruct (Qlt_le_dec q 0) as [Hneg | Hle].
  - rewrite (round_neg_eq q Hneg).
    assert (Hp : (0 < - Qred q)%Q) by (rewrite Qred_correct; lra).
    pose proof (round_pos_nonneg _ Hp). lra.
  - assert (E : (q == 0)%Q) by lra. rewrite (round_Qeq _ _ E). apply Qle_refl.
Qed.

Lemma round_mono (x y : Q) : (x <= y)%Q -> (round x <= round y)%Q.
Proof.
  intros Hxy. destruct (Qlt_le_dec 0 x) as [Hx | Hx].
  - assert (Hy : (0 < y)%Q) by lra.
    rewrite (round_pos_eq x Hx), (round_pos_eq y Hy).
    apply round_pos_mono; rewrite !Qred_correct; assumption.
  - destruct (Qlt_le_dec y 0) as [Hy | Hy].
    + assert (Hx' : (x < 0)%Q) by lra.
      rewrite (round_neg_eq x Hx'), (round_neg_eq y Hy).
      apply Qopp_le_compat. apply round_pos_mono.
      * rewrite Qred_correct. lra.
      * rewrite !Qred_correct. lra.
    + apply Qle_trans with 0%Q;
        [ now apply round_nonpos | now apply round_nonneg ].
Qed.

(** Integers below 2^53 in magnitude are binary64 numbers. *)
Lemma round_Z (z : Z) :
  Z.abs z < 2 ^ 53 -> (round (inject_Z z) == inject_Z z)%Q.
Proof.
  intros Hz. destruct (Z.lt_trichotomy z 0) as [Hneg | [-> | Hpos]].
  - assert (Hq : (inject_Z z < 0)%Q)
      by (rewrite (Zlt_Qlt z 0) in Hneg; exact Hneg).
    rewrite (round_neg_eq _ Hq).
    rewrite (round_pos_representable _ (- z) 0); rewrite ?Qred_correct; try lia.
    + ring.
    + rewrite inject_Z_opp. unfold pow2. simpl. ring.
  - reflexivity.
  - assert (Hq : (0 < inject_Z z)%Q)
      by (rewrite (Zlt_Qlt 0 z) in Hpos; exact Hpos).
    rewrite (round_pos_eq _ Hq).
    rewrite (round_pos_representable _ z 0); rewrite ?Qred_correct; try lia.
    + reflexivity.
    + unfold pow2. simpl. ring.
Qed.

Lemma round_pos_mantissa (a : Q) :
  (0 < a)%Q ->
  0 <= rne (a / pow2 (Z.max (ilog2 a - 52) (-1074))) <= 2 ^ 53.
Proof.
  intros Ha. destruct (ilog2_spec a Ha) as [_ Ha2].
  set (e := Z.max (ilog2 a - 52) (-1074)). split.
  - apply rne_nonneg. apply Qle_shift_div_l; [ apply pow2_pos | ]. lra.
  - rewrite <- (rne_Z (2 ^ 53)). apply rne_mono.
    apply Qle_shift_div_r; [ apply pow2_pos | ].
    rewrite <- (pow2_Z 53) by lia. rewrite <- pow2_add.
    apply Qle_trans with (pow2 (ilog2 a + 1)); [ lra | ].
    apply pow2_le. lia.
Qed.

(** Rounding leaves a double alone. *)
Lemma round_fixed (v : Q) (m e0 : Z) :
  Z.abs m < 2 ^ 53 -> -1074 <= e0 -> (v == inject_Z m * pow2 e0)%Q ->
  (round v == v)%Q.
Proof.
  intros Hm He0 Ev. pose proof (pow2_pos e0) as Hp.
  destruct (Z.lt_trichotomy m 0) as [Hneg | [-> | Hpos]].
  - assert (Hi : (inject_Z m < 0)%Q)
      by (now rewrite (Zlt_Qlt m 0) in Hneg).
    assert (Hv : (v < 0)%Q).
    { rewrite Ev.
      pose proof (Qmult_lt_compat_r _ _ _ Hp Hi) as Hlt. lra. }
    rewrite (round_neg_eq v Hv).
    rewrite (round_pos_representable _ (- m) e0); rewrite ?Qred_correct;
      try lia.
    + ring.
    + rewrite Ev, inject_Z_opp. ring.
  - assert (E : (v == 0)%Q) by (rewrite Ev; ring).
    rewrite (round_Qeq _ _ E), E. reflexivity.
  - assert (Hi : (0 < inject_Z m)%Q)
      by (now rewrite (Zlt_Qlt 0 m) in Hpos).
    assert (Hv : (0 < v)%Q).
    { rewrite Ev. now apply Qmult_lt_0_compat. }
    rewrite (round_pos_eq v Hv).
    rewrite (round_pos_representable _ m e0); rewrite ?Qred_correct;
      try lia.
    + reflexivity.
    + exact Ev.
Qed.

Lemma round_pos_double (a : Q) :
  (0 < a)%Q ->
  exists m e0 : Z,
    0 <= m < 2 ^ 53 /\ -1074 <= e0 /\
    (round_pos a == inject_Z m * pow2 e0)%Q.
Proof.
  intros Ha. pose proof (round_pos_mantissa a Ha) as Hm.
  unfold round_pos. set (e := Z.max (ilog2 a - 52) (-1074)) in *.
  set (m := rne (a / pow2 e)) in *.
  destruct (Z.eq_dec m (2 ^ 53)) as [E | NE].
  - exists (2 ^ 52), (e + 1). split; [ lia | ]. split; [ lia | ].
    rewrite E, pow2_add.
    rewrite <- (pow2_Z 53), <- (pow2_Z 52) by lia.
    rewrite <- pow2_add, <- !pow2_add.
    replace (52 + (e + 1)) with (53 + e) by lia.
    reflexivity.
  - exists m, e. split; [ lia | ]. split; [ lia | reflexivity ].
Qed.

(** The result of rounding is a double. *)
Lemma round_idem (q : Q) : (round (round q) == round q)%Q.
Proof.
  destruct (Q_dec q 0) as [[Hneg | Hpos] | E].
  - rewrite (round_neg_eq q Hneg).
    assert (Ha : (0 < - Qred q)%Q) by (rewrite Qred_correct; lra).
    destruct (round_pos_double _ Ha) as (m & e0 & Hm & He0 & Ev).
    apply (round_fixed _ (- m) e0); [ lia | lia | ].
    rewrite Ev, inject_Z_opp. ring.
  - rewrite (round_pos_eq q Hpos).
    assert (Ha : (0 < Qred q)%Q) by (rewrite Qred_correct; lra).
    destruct (round_pos_double _ Ha) as (m & e0 & Hm & He0 & Ev).
    apply (round_fixed _ m e0); [ lia | lia | exact Ev ].
  - rewrite (round_Qeq _ _ E). reflexivity.
Qed.

End Float64Props.

(** On a grid of quotients of small integers, and on products and sums
    of such quotients, the rounding above gives the numbers that the
    IEEE 754 specification of the standard library gives. *)
Example round_agrees_with_IEEE :
  forallb
    (fun n =>
       forallb
         (fun d =>
            let x := IEEE.div (IEEE.of_Z n) (IEEE.of_Z d) in
            let y := IEEE.div (IEEE.of_Z d) (IEEE.of_Z 7) in
            let x' := Float64.div (inject_Z n) (inject_Z d) in
            let y' := Float64.div (inject_Z d) 7 in
            IEEE.denotes x x' && IEEE.denotes y y'
            && IEEE.denotes (IEEE.mul x y) (Float64.mul x' y')
            && IEEE.denotes (IEEE.add x y) (Float64.add x' y')
            && IEEE.denotes (IEEE.mul (IEEE.of_Z n) y)
                 (Float64.mul (inject_Z n) y'))
         (map Z.of_nat (seq 1 13)))
    (map (fun i => 7 * Z.of_nat i - 101) (seq 0 30))
  = true.
Proof. vm_compute. reflexivity. Qed.

(** Very small and very large magnitudes: below 2^-1022 the spacing of
    the doubles no longer shrinks. *)
Example round_agrees_with_IEEE_small :
  forallb
    (fun n =>
       forallb
         (fun k =>
            IEEE.denotes
              (IEEE.div (IEEE.of_Z n) (IEEE.of_Z (2 ^ 1000 + k * 2 ^ 960)))
              (Float64.div (inject_Z n) (inject_Z (2 ^ 1000 + k * 2 ^ 960)))
            && IEEE.denotes
                 (IEEE.div
                    (IEEE.div (IEEE.of_Z n) (IEEE.of_Z (2 ^ 1000)))
                    (IEEE.of_Z (k * 2 ^ 70 + 1)))
                 (Float64.div
                    (Float64.div (inject_Z n) (inject_Z (2 ^ 1000)))
                    (inject_Z (k * 2 ^ 70 + 1)))
            && IEEE.denotes
                 (IEEE.mul (IEEE.of_Z (n * 2 ^ 500))
                    (IEEE.of_Z (2 ^ 400 + k)))
                 (Float64.mul (inject_Z (n * 2 ^ 500))
                    (inject_Z (2 ^ 400 + k))))
         (map Z.of_nat (seq 1 6)))
    (map Z.of_nat (seq 1 6))
  = true.
Proof. vm_compute. reflexivity. Qed.

(** The hundredth of the product with a rate, as the GST calculator
    computes it, keeps the order and the sign of the amount. *)
Section PercentProps.

Lemma percent64_mono (z1 z2 : Z) (r : Q) :
  z1 <= z2 -> (0 <= r)%Q ->
  (Float64.div (Float64.mul (inject_Z z1) r) 100
   <= Float64.div (Float64.mul (inject_Z z2) r) 100)%Q.
Proof.
  intros Hz Hr. unfold Float64.div, Float64.mul.
  apply round_mono. apply Qmult_le_compat_r; [ | discriminate ].
  apply round_mono. apply Qmult_le_compat_r; [ | exact Hr ].
  rewrite <- Zle_Qle. exact Hz.
Qed.

Lemma percent64_zero (r : Q) :
  Float64.div (Float64.mul (inject_Z 0) r) 100 = 0%Q.
Proof.
  unfold Float64.div, Float64.mul.
  assert (E : (inject_Z 0 * r == 0)%Q) by ring.
  rewrite (round_Qeq _ _ E). reflexivity.
Qed.

Lemma gstAmount_nonneg (z : Z) (rate : Q) :
  0 <= z -> (0 <= rate)%Q ->
  0 <= Math_round
         (Float64.div (Float64.mul (inject_Z z) (Float64.round rate)) 100).
Proof.
  intros Hz Hr.
  pose proof (percent64_mono 0 z _ Hz (round_nonneg rate Hr)) as Hp.
  rewrite percent64_zero in Hp. apply Math_round_mono in Hp. exact Hp.
Qed.

Lemma gstAmount_nonpos (z : Z) (rate : Q) :
  z <= 0 -> (0 <= rate)%Q ->
  Math_round
    (Float64.div (Float64.mul (inject_Z z) (Float64.round rate)) 100) <= 0.
Proof.
  intros Hz Hr.
  pose proof (percent64_mono z 0 _ Hz (round_nonneg rate Hr)) as Hp.
  rewrite percent64_zero in Hp. apply Math_round_mono in Hp. exact Hp.
Qed.

Lemma gstAmount_mono (z1 z2 : Z) (rate : Q) :
  z1 <= z2 -> (0 <= rate)%Q ->
  Math_round
    (Float64.div (Float64.mul (inject_Z z1) (Float64.round rate)) 100)
  <= Math_round
       (Float64.div (Float64.mul (inject_Z z2) (Float64.round rate)) 100).
Proof.
  intros Hz Hr. apply Math_round_mono.
  apply percent64_mono; [ exact Hz | now apply round_nonneg ].
Qed.

End PercentProps.

(** ** The GST calculator and the totals *)

Section GSTProps.

Lemma calculateGST_fields (amount rate : Q) :
  let g :=
    Math_round
      (Float64.div
         (Float64.mul (inject_Z (Math_round amount)) (Float64.round rate))
         100) in
  calculateGST amount rate =
    mkGST ((g + 1) / 2) ((g + 1) / 2) g (Math_round amount + g).
Proof.
  intros g. unfold calculateGST. fold g.
  now rewrite Math_round_half, Math_round_Z, Math_round_plus_Z.
Qed.

(** The interstate route carries the whole tax and adds up. *)
Lemma calculateGST_igst_total (amount rate : Q) :
  let g := calculateGST amount rate in
  gst_total g = Math_round amount + gst_igst g.
Proof. intros g. subst g. rewrite calculateGST_fields. reflexivity. Qed.

(** The two halves exceed the tax by one exactly when it is odd. *)
Lemma calculateGST_halves (amount rate : Q) :
  let g := calculateGST amount rate in
  gst_cgst g + gst_sgst g = gst_igst g + gst_igst g mod 2.
Proof.
  intros g. subst g. rewrite calculateGST_fields. simpl.
  set (t := Math_round _). clearbody t.
  Z.div_mod_to_equations. lia.
Qed.

End GSTProps.

Section TotalsProps.

Import InvoiceForm.

Lemma subtotal_is_sum (fd : InvoiceFormData) :
  subtotal (calculateTotals fd) =
    fold_left (fun sum item => sum + item_amount item) (items fd) 0.
Proof.
  unfold calculateTotals. cbn [subtotal]. apply Math_round_Z.
Qed.

(** On the interstate route the snapshot adds up for every item list
    and every rate. *)
Lemma calculateTotals_interstate (fd : InvoiceFormData) :
  isInterstate fd = true ->
  let t := calculateTotals fd in
  cgst t = 0 /\ sgst t = 0 /\
  grandTotal t = subtotal t + cgst t + sgst t + igst t.
Proof.
  intros Hi t. subst t. unfold calculateTotals.
  cbn [subtotal cgst sgst igst grandTotal]. rewrite Hi.
  repeat split.
  rewrite calculateGST_igst_total, !Math_round_Z. lia.
Qed.

(** On the intrastate route the two rounded halves overshoot the grand
    total by one whenever the tax is odd. *)
Lemma calculateTotals_intrastate (fd : InvoiceFormData) :
  isInterstate fd = false ->
  let t := calculateTotals fd in
  let tax := gst_igst (calculateGST (inject_Z (subtotal t)) (gstRate fd)) in
  igst t = 0 /\ cgst t = sgst t /\
  subtotal t + cgst t + sgst t + igst t = grandTotal t + tax mod 2.
Proof.
  intros Hi t tax. subst t tax. unfold calculateTotals.
  cbn [subtotal cgst sgst igst grandTotal]. rewrite Hi.
  set (s := Math_round (inject_Z (fold_left _ _ _))).
  pose proof (calculateGST_halves (inject_Z s) (gstRate fd)) as Hh.
  pose proof (calculateGST_igst_total (inject_Z s) (gstRate fd)) as Ht.
  cbv zeta in Hh, Ht. rewrite Math_round_Z in Ht.
  split; [ reflexivity | ].
  split; [ rewrite calculateGST_fields; reflexivity | lia ].
Qed.

End TotalsProps.

(** C1.  The snapshot of an intrastate invoice with subtotal 1005 at 18%
    does not add up: the tax is 181, each rounded half is 91, and the
    grand total 1186 is one less than subtotal + cgst + sgst + igst;
    likewise the two routes of [calculateGST] at (1005, 18) differ,
    91 + 91 against 181. *)
Theorem totals_odd_tax_do_not_add_up :
  let fd := Sample.form 1 1005 18 false in
  let t := InvoiceForm.calculateTotals fd in
  let inv := InvoiceForm.generateInvoice fd in
  let g := calculateGST 1005 18 in
  InvoiceForm.subtotal t = 1005 /\
  InvoiceForm.cgst t = 91 /\ InvoiceForm.sgst t = 91 /\
  InvoiceForm.igst t = 0 /\
  InvoiceForm.grandTotal t = 1186 /\
  inv_grandTotal inv <>
    inv_subtotal inv + inv_cgst inv + inv_sgst inv + inv_igst inv /\
  gst_cgst g + gst_sgst g = 182 /\ gst_igst g = 181 /\ gst_total g = 1186.
Proof. vm_compute. repeat split; congruence. Qed.

(** C3, as stated, fails: a negative amount yields a negative tax. *)
Lemma calculateGST_negative_amount_taxed :
  ~ (forall amount rate : Q,
       (amount <= 0)%Q ->
       gst_cgst (calculateGST amount rate) = 0 /\
       gst_sgst (calculateGST amount rate) = 0 /\
       gst_igst (calculateGST amount rate) = 0).
Proof.
  intros Hall.
  destruct (Hall (-1000)%Q 18%Q) as [Hc _]; [ discriminate | ].
  vm_compute in Hc. discriminate.
Qed.

Example calculateGST_minus_1000 :
  calculateGST (-1000) 18 = mkGST (-90) (-90) (-180) (-1180).
Proof. reflexivity. Qed.

Example calculateGST_1000 : calculateGST 1000 18 = mkGST 90 90 180 1180.
Proof. reflexivity. Qed.

(** C3, amended.  [calculateGST] is total; a zero amount yields zero tax
    at every rate; a negative or zero amount at a non-negative rate
    yields a tax that is never positive, and cgst and sgst are both the
    rounded half of igst. *)
Theorem calculateGST_zero_and_negative :
  (forall rate : Q, calculateGST 0 rate = mkGST 0 0 0 0) /\
  (forall amount rate : Q,
     (amount <= 0)%Q -> (0 <= rate)%Q ->
     let g := calculateGST amount rate in
     gst_igst g <= 0 /\
     gst_cgst g = Math_round (inject_Z (gst_igst g) / 2)%Q /\
     gst_sgst g = Math_round (inject_Z (gst_igst g) / 2)%Q /\
     gst_cgst g <= 0 /\ gst_sgst g <= 0).
Proof.
  split.
  - intros rate. rewrite calculateGST_fields.
    change (Math_round 0) with 0.
    rewrite percent64_zero. reflexivity.
  - intros amount rate Ha Hr g. subst g. rewrite calculateGST_fields.
    cbn [gst_igst gst_cgst gst_sgst]. rewrite Math_round_half.
    set (t := Math_round (Float64.div _ _)).
    assert (Ht : t <= 0).
    { apply gstAmount_nonpos; [ | exact Hr ].
      apply Math_round_nonpos, Ha. }
    repeat split; try exact Ht; Z.div_mod_to_equations; lia.
Qed.

Lemma calculateGST_zero_and_negative_witness :
  let g := calculateGST (-1000) 18 in
  gst_igst g <= 0 /\
  gst_cgst g = Math_round (inject_Z (gst_igst g) / 2)%Q /\
  gst_sgst g = Math_round (inject_Z (gst_igst g) / 2)%Q /\
  gst_cgst g <= 0 /\ gst_sgst g <= 0.
Proof.
  apply (proj2 calculateGST_zero_and_negative (-1000)%Q 18%Q);
    discriminate.
Defined.

(** The rate need not be a binary fraction: at 5.1% the product
    1500 * 5.1 is just below 7650 in doubles, and at 1.1% the product
    -14500 * 1.1 just above -15950. *)
Example calculateGST_decimal_rates :
  gst_igst (calculateGST 1500 (51 # 10)) = 76 /\
  gst_igst (calculateGST (-14500) (11 # 10)) = -160 /\
  gst_igst (calculateGST 1000 (51 # 10)) = 51.
Proof. vm_compute. repeat split. Qed.

(** ** Amount from rate and duration *)

Section AmountProps.

Import InvoiceForm.
Context `{PlatformLaws}.

Lemma truthy_str_empty (s : string) : truthy_str s = false <-> s = "".
Proof.
  unfold truthy_str. rewrite negb_false_iff. apply String.eqb_eq.
Qed.

Lemma amount64_zero_rate (r : Q) (d : Z) :
  (r == 0)%Q -> Spec.amount64 r d = 0.
Proof.
  intros E. unfold Spec.amount64, Float64.add, Float64.mul, Float64.div.
  rewrite (round_Qeq _ _ E). change (Float64.round 0) with 0%Q.
  assert (E1 : (inject_Z (d / 30) * 0 == 0)%Q) by ring.
  assert (E2 : (inject_Z (rem d 30) * 0 == 0)%Q) by ring.
  change (Float64.round (0 / 30)) with 0%Q.
  rewrite (round_Qeq _ _ E1), (round_Qeq _ _ E2).
  reflexivity.
Qed.

(** The amount is the formula in double precision whenever rate and
    duration parse; an empty or zero rate gives 0 on both sides. *)
Lemma amount_formula (ratePM : NumOrStr) (du : string) (r : Q) (d : Z) :
  rateValue ratePM = Some r -> parseInt du = Some d ->
  calculateAmountFromDuration ratePM du = Spec.amount64 r d.
Proof.
  intros Hr Hd. unfold calculateAmountFromDuration.
  destruct (truthy ratePM) eqn:Tr; cbn [negb orb].
  - destruct (truthy_str du) eqn:Td; cbn [negb].
    + rewrite Hr, Hd. reflexivity.
    + apply truthy_str_empty in Td. subst du.
      rewrite parseInt_empty in Hd. discriminate.
  - destruct ratePM as [q | s]; cbn in Tr, Hr.
    + injection Hr as ->. symmetry. apply amount64_zero_rate.
      unfold truthy_num in Tr. apply negb_false_iff in Tr.
      apply Qeq_bool_eq, Tr.
    + apply truthy_str_empty in Tr. subst s.
      rewrite parseFloat_empty in Hr. discriminate.
Qed.

(** C7, amended.  With a rate [r] (a number, or a string that parses to
    it) and a duration that parses to the integer [d], the amount is
    round(floor(d/30) * r + (d % 30) * (r/30)) computed in doubles: the
    rate is a double, and the quotient r/30, the two products and the
    sum are each rounded to the nearest double before [Math.round] is
    taken.  [%] is the remainder of the source and equals d mod 30 for
    every d >= 0.  The amount is 0 when the rate or the duration is
    empty or does not parse. *)
Theorem calculateAmountFromDuration_spec :
  (forall (ratePM : NumOrStr) (duration : string) (r : Q) (d : Z),
     rateValue ratePM = Some r ->
     parseInt duration = Some d ->
     calculateAmountFromDuration ratePM duration =
       (let fl := Float64.round in
        Math_round
          (fl (fl (inject_Z (d / 30) * fl r)
               + fl (inject_Z (JS.rem d 30) * fl (fl r / 30))))%Q)
     /\ (0 <= d -> JS.rem d 30 = d mod 30)) /\
  (forall (ratePM : NumOrStr) (duration : string),
     ratePM = Str "" \/ duration = "" \/
     rateValue ratePM = None \/ parseInt duration = None ->
     calculateAmountFromDuration ratePM duration = 0).
Proof.
  split.
  - intros ratePM duration r d Hr Hd. split.
    + rewrite (amount_formula _ _ _ _ Hr Hd). reflexivity.
    + intros Hpos. unfold JS.rem. apply Z.rem_mod_nonneg; lia.
  - intros ratePM duration Hc. unfold calculateAmountFromDuration.
    destruct (negb (truthy ratePM) || negb (truthy_str duration)) eqn:G;
      [ reflexivity | ].
    apply orb_false_iff in G. destruct G as [G1 G2].
    apply negb_false_iff in G1, G2.
    destruct Hc as [-> | [-> | [Hn | Hn]]].
    + discriminate G1.
    + discriminate G2.
    + rewrite Hn. reflexivity.
    + destruct (rateValue ratePM); [ rewrite Hn | ]; reflexivity.
Qed.

End AmountProps.

Lemma calculateAmountFromDuration_spec_witness :
  @InvoiceForm.calculateAmountFromDuration Sample.platform
    (Str "30000") "37" =
    (let fl := Float64.round in
     Math_round
       (fl (fl (inject_Z (37 / 30) * fl 30000)
            + fl (inject_Z (JS.rem 37 30) * fl (fl 30000 / 30))))%Q)
  /\ (0 <= 37 -> JS.rem 37 30 = 37 mod 30).
Proof.
  apply (proj1 (@calculateAmountFromDuration_spec Sample.platform
                  Sample.platform_laws)
           (Str "30000") "37" 30000%Q 37);
    reflexivity.
Defined.

(** C7, as stated, fails: the code computes in doubles.  At 65 a month
    the daily rate 65/30 is the double 2.1666666666666665, and 27 times
    it is the double 58.49999999999999, which [Math.round] takes to 58;
    on exact numbers the formula gives 58.5 and rounds to 59. *)
Lemma calculateAmountFromDuration_not_exact :
  ~ (forall (r : Q) (duration : string) (d : Z),
       @parseInt Sample.platform duration = Some d ->
       @InvoiceForm.calculateAmountFromDuration Sample.platform
         (Num r) duration
       = Spec.amount r d).
Proof.
  intros Hall. specialize (Hall 65%Q "27" 27 eq_refl).
  vm_compute in Hall. discriminate.
Qed.

Example calculateAmountFromDuration_doubles :
  map (fun '(r, d) =>
         (@InvoiceForm.calculateAmountFromDuration Sample.platform
            (Num (inject_Z r)) (Z_toString d),
          Spec.amount (inject_Z r) d))
    [ (65, 27); (123, 15); (33333, 25); (30000, 37); (1000, 45) ]
  = [ (58, 59); (61, 62); (27777, 27778); (37000, 37000); (1500, 1500) ].
Proof. vm_compute. reflexivity. Qed.

Example calculateAmountFromDuration_37_days :
  @InvoiceForm.calculateAmountFromDuration Sample.platform
    (Str "30000") "37" = 37000.
Proof. vm_compute. reflexivity. Qed.

(** ** Sequence numbers *)

Section SequenceProps.

Import InvoiceForm.

Lemma sequenced_snoc (l : list InvoiceItem) (x : InvoiceItem) :
  Spec.sequenced l ->
  item_sno x = Z.of_nat (length l) + 1 ->
  Spec.sequenced (l ++ [x]).
Proof.
  unfold Spec.sequenced. intros Hl Hx.
  rewrite map_app, length_app, Nat.add_1_r, seq_S, map_app, Hl.
  simpl. now rewrite Hx.
Qed.

Lemma imap_renumber (l : list InvoiceItem) (k : nat) :
  map item_sno
    (imap (fun index item => set_sno (Z.of_nat (k + index) + 1) item) l)
  = map (fun i => Z.of_nat i + 1) (seq k (length l)).
Proof.
  revert k. induction l as [| x l IH]; intros k; [ reflexivity | ].
  cbn [imap map length seq]. rewrite Nat.add_0_r. f_equal.
  rewrite <- (IH (S k)). f_equal. apply imap_ext.
  intros i y _. unfold compose. now rewrite Nat.add_succ_r.
Qed.

Lemma addItem_sequenced (formData prev : InvoiceFormData) (now : string) :
  length (items formData) = length (items prev) ->
  Spec.sequenced (items prev) ->
  Spec.sequenced (items (addItem formData now prev)).
Proof.
  intros Hlen Hs. unfold addItem. cbn [items set_items].
  apply sequenced_snoc; [ exact Hs | ]. cbn. now rewrite Hlen.
Qed.

Lemma copyItem_sequenced (id now : string) (prev : InvoiceFormData) :
  Spec.sequenced (items prev) ->
  Spec.sequenced (items (copyItem id now prev)).
Proof.
  intros Hs. unfold copyItem.
  destruct (List.find _ _) as [it |]; [ | exact Hs ].
  cbn [items set_items]. apply sequenced_snoc; [ exact Hs | reflexivity ].
Qed.

Lemma removeItem_sequenced (id : string) (prev : InvoiceFormData) :
  Spec.sequenced (items (removeItem id prev)).
Proof.
  unfold removeItem, Spec.sequenced. cbn [items set_items].
  rewrite length_imap. apply (imap_renumber _ 0).
Qed.

(** C9.  An insertion ([addItem], [copyItem]) or a removal
    ([removeItem]) on a form whose items are numbered 1..N in list
    order leaves them numbered 1..N' in list order. *)
Theorem item_step_sequenced (fd fd' : InvoiceFormData) :
  Spec.sequenced (items fd) ->
  item_step fd fd' ->
  Spec.sequenced (items fd').
Proof.
  intros Hs Hstep. inversion Hstep; subst.
  - now apply addItem_sequenced.
  - now apply copyItem_sequenced.
  - apply removeItem_sequenced.
Qed.

End SequenceProps.

Lemma item_step_sequenced_witness :
  Spec.sequenced
    (items (InvoiceForm.copyItem "2" "1700000000000"
              (Sample.form 3 1000 18 false))).
Proof.
  apply (item_step_sequenced (Sample.form 3 1000 18 false)).
  - reflexivity.
  - apply InvoiceForm.step_copyItem.
Defined.

Example removeItem_renumbers :
  map item_sno
    (items (InvoiceForm.removeItem "2" (Sample.form 4 1000 18 false)))
  = [1; 2; 3].
Proof. reflexivity. Qed.

Example addItem_then_copy :
  map item_sno
    (items (InvoiceForm.copyItem "1" "t2"
              (InvoiceForm.addItem (Sample.form 2 1000 18 false) "t1"
                 (Sample.form 2 1000 18 false))))
  = [1; 2; 3; 4].
Proof. reflexivity. Qed.

(** ** The combined table and its split over pages *)

Section TableProps.

Import PdfExport.
Context `{Platform}.

Lemma tableData_length (invoice : Invoice) :
  length (tableData invoice) = (length (inv_items invoice) + 6)%nat.
Proof. unfold tableData. now rewrite length_app, length_map. Qed.

Lemma tableData_items (invoice : Invoice) :
  take (length (inv_items invoice)) (tableData invoice)
  = map itemRow (inv_items invoice).
Proof.
  unfold tableData. rewrite take_app_length'; [ reflexivity | ].
  now rewrite length_map.
Qed.

Lemma tableData_totals (invoice : Invoice) :
  let amount z := formatCompactCurrency (Num (inject_Z z)) in
  let blank := [""; ""; ""; ""; ""; ""; ""; ""; ""] in
  drop (length (inv_items invoice)) (tableData invoice) =
    [ blank ++ ["SUB TOTAL"; amount (inv_subtotal invoice)];
      blank ++ ["Add : CGST @ 9%";
                if 0 <? inv_cgst invoice then amount (inv_cgst invoice)
                else "0"];
      blank ++ ["Add : SGST @ 9%";
                if 0 <? inv_sgst invoice then amount (inv_sgst invoice)
                else "0"];
      blank ++ ["Add : IGST @ 18%";
                if 0 <? inv_igst invoice then amount (inv_igst invoice)
                else "0"];
      blank ++ ["Less : PO"; "0"];
      blank ++ ["GRAND TOTAL"; amount (inv_grandTotal invoice)] ].
Proof.
  intros amount blank. unfold tableData.
  rewrite drop_app_length'; [ reflexivity | now rewrite length_map ].
Qed.

(** C8.  After the item rows the table has exactly six total rows, in
    the order SUB TOTAL, CGST, SGST, IGST, "Less : PO" (the literal 0),
    GRAND TOTAL, whatever the tax amounts are; a tax amount of zero is
    shown as "0". *)
Theorem tableData_total_rows (invoice : Invoice) :
  let n := length (inv_items invoice) in
  let amount z := formatCompactCurrency (Num (inject_Z z)) in
  let blank := [""; ""; ""; ""; ""; ""; ""; ""; ""] in
  take n (tableData invoice) = map itemRow (inv_items invoice) /\
  drop n (tableData invoice) =
    [ blank ++ ["SUB TOTAL"; amount (inv_subtotal invoice)];
      blank ++ ["Add : CGST @ 9%";
                if 0 <? inv_cgst invoice then amount (inv_cgst invoice)
                else "0"];
      blank ++ ["Add : SGST @ 9%";
                if 0 <? inv_sgst invoice then amount (inv_sgst invoice)
                else "0"];
      blank ++ ["Add : IGST @ 18%";
                if 0 <? inv_igst invoice then amount (inv_igst invoice)
                else "0"];
      blank ++ ["Less : PO"; "0"];
      blank ++ ["GRAND TOTAL"; amount (inv_grandTotal invoice)] ] /\
  (inv_cgst invoice = 0 ->
   tableData invoice !! (n + 1)%nat
   = Some (blank ++ ["Add : CGST @ 9%"; "0"])) /\
  (inv_sgst invoice = 0 ->
   tableData invoice !! (n + 2)%nat
   = Some (blank ++ ["Add : SGST @ 9%"; "0"])) /\
  (inv_igst invoice = 0 ->
   tableData invoice !! (n + 3)%nat
   = Some (blank ++ ["Add : IGST @ 18%"; "0"])).
Proof.
  intros n amount blank.
  assert (Hn : length (map itemRow (inv_items invoice)) = n)
    by apply length_map.
  split; [ apply tableData_items | ].
  split; [ apply tableData_totals | ].
  repeat split; intros Hz; unfold tableData;
    (rewrite lookup_app_r; [ | rewrite Hn; lia ]); rewrite Hn, Hz;
    match goal with
    | |- context [ (n + ?k - n)%nat ] =>
        replace (n + k - n)%nat with k by lia
    end; reflexivity.
Qed.

(** C10.  Whatever rate the form is set to, the three tax rows carry
    the fixed labels "Add : CGST @ 9%", "Add : SGST @ 9%" and
    "Add : IGST @ 18%". *)
Theorem tax_labels_ignore_rate (fd : InvoiceFormData) (rate : Q) :
  let invoice := InvoiceForm.generateInvoice (set_gstRate rate fd) in
  let n := length (items fd) in
  map (fun row => row !! 9%nat) (take 3 (drop (n + 1) (tableData invoice)))
  = [ Some "Add : CGST @ 9%"; Some "Add : SGST @ 9%";
      Some "Add : IGST @ 18%" ].
Proof.
  intros invoice n.
  pose proof (tableData_totals invoice) as Hd. cbv zeta in Hd.
  change (length (inv_items invoice)) with n in Hd.
  rewrite <- drop_drop, Hd. reflexivity.
Qed.

(** The first page receives the first [min (n + 6) 13] rows and the
    continuation table the rest. *)
Lemma split_lengths (invoice : Invoice) :
  let n := length (inv_items invoice) in
  length (firstPageData invoice) = Nat.min (n + 6) 13 /\
  length (remainingData invoice) = (n + 6 - 13)%nat.
Proof.
  intros n. unfold firstPageData, remainingData, maxRowsFirstPage.
  rewrite length_take, length_drop, tableData_length. fold n. lia.
Qed.

(** C2.  The first page holds the first min (itemCount + 6, 13) rows of
    the combined table; the "Carried Forward" marker, the new page and
    the "Brought Forward" marker are emitted exactly when
    itemCount + 6 > 13.  With 7 items all 13 rows are on the first page
    and nothing else is drawn; with 8 items the marker pair is emitted
    and the continuation table has exactly one row. *)
Theorem first_page_split (invoice : Invoice) :
  let n := length (inv_items invoice) in
  firstPageData invoice = take (Nat.min (n + 6) 13) (tableData invoice) /\
  firstPageData invoice ++ remainingData invoice = tableData invoice /\
  length (firstPageData invoice) = Nat.min (n + 6) 13 /\
  length (remainingData invoice) = (n + 6 - 13)%nat /\
  (text CARRIED_FORWARD ∈ drawTables invoice <-> (13 < n + 6)%nat) /\
  (text BROUGHT_FORWARD ∈ drawTables invoice <-> (13 < n + 6)%nat) /\
  (addPage ∈ drawTables invoice <-> (13 < n + 6)%nat) /\
  (n = 7%nat ->
   length (tableData invoice) = 13%nat /\
   firstPageData invoice = tableData invoice /\
   drawTables invoice = [autoTable pb_avoid (tableData invoice)]) /\
  (n = 8%nat ->
   length (tableData invoice) = 14%nat /\
   length (remainingData invoice) = 1%nat /\
   drawTables invoice =
     [ autoTable pb_avoid (take 13 (tableData invoice));
       text CARRIED_FORWARD; addPage; addHeaderFooter 2; rect;
       text BROUGHT_FORWARD;
       autoTable pb_auto (drop 13 (tableData invoice)) ]).
Proof.
  intros n.
  pose proof (tableData_length invoice) as Hlen. fold n in Hlen.
  pose proof (split_lengths invoice) as [Hf Hr]. fold n in Hf, Hr.
  assert (Hmarks : forall op,
            op = text CARRIED_FORWARD \/ op = text BROUGHT_FORWARD \/
            op = addPage ->
            op ∈ drawTables invoice <-> (13 < n + 6)%nat).
  { intros op Hop. unfold drawTables. rewrite Hr.
    destruct (0 <? n + 6 - 13)%nat eqn:E.
    - apply Nat.ltb_lt in E. split; [ lia | intros _ ].
      destruct Hop as [-> | [-> | ->]]; set_solver.
    - apply Nat.ltb_ge in E. split; [ | lia ].
      rewrite app_nil_r, list_elem_of_singleton.
      destruct Hop as [-> | [-> | ->]]; discriminate. }
  split.
  { unfold firstPageData, maxRowsFirstPage.
    destruct (Nat.min_spec (n + 6) 13) as [[Hlt ->] | [Hge ->]];
      [ | reflexivity ].
    rewrite !take_ge; [ reflexivity | lia | lia ]. }
  split; [ apply take_drop | ].
  split; [ exact Hf | ]. split; [ exact Hr | ].
  split; [ apply Hmarks; auto | ].
  split; [ apply Hmarks; auto | ].
  split; [ apply Hmarks; auto | ].
  split; intros Hn.
  - assert (Hall : firstPageData invoice = tableData invoice).
    { unfold firstPageData, maxRowsFirstPage. apply take_ge. lia. }
    split; [ lia | ]. split; [ exact Hall | ].
    unfold drawTables. rewrite Hr, Hall, Hn. reflexivity.
  - split; [ lia | ]. split; [ lia | ].
    unfold drawTables. rewrite Hr, Hn. reflexivity.
Qed.

(** Nothing is stamped afterwards when the renderer reports at most two
    pages. *)
Lemma stampPages_two (totalPages : nat) :
  (totalPages <= 2)%nat -> stampPages totalPages = [setPage totalPages].
Proof.
  intros Hle. unfold stampPages.
  destruct (2 <? totalPages)%nat eqn:E; [ | reflexivity ].
  apply Nat.ltb_lt in E. lia.
Qed.

End TableProps.

Lemma tableData_total_rows_witness :
  let inter :=
    InvoiceForm.generateInvoice (Sample.form 2 1000 18 true) in
  let intra :=
    InvoiceForm.generateInvoice (Sample.form 2 1000 18 false) in
  let blank := [""; ""; ""; ""; ""; ""; ""; ""; ""] in
  @PdfExport.tableData Sample.platform inter !! 3%nat
    = Some (blank ++ ["Add : CGST @ 9%"; "0"]) /\
  @PdfExport.tableData Sample.platform inter !! 4%nat
    = Some (blank ++ ["Add : SGST @ 9%"; "0"]) /\
  @PdfExport.tableData Sample.platform intra !! 5%nat
    = Some (blank ++ ["Add : IGST @ 18%"; "0"]).
Proof.
  intros inter intra blank.
  pose proof (@tableData_total_rows Sample.platform inter)
    as (_ & _ & Hc & Hs & _).
  pose proof (@tableData_total_rows Sample.platform intra)
    as (_ & _ & _ & _ & Hi).
  split; [ apply Hc; reflexivity | ].
  split; [ apply Hs; reflexivity | apply Hi; reflexivity ].
Defined.

Example tableData_interstate_rows :
  drop 2 (@PdfExport.tableData Sample.platform
            (InvoiceForm.generateInvoice (Sample.form 2 1000 18 true)))
  = [ [""; ""; ""; ""; ""; ""; ""; ""; ""; "SUB TOTAL"; "2,000"];
      [""; ""; ""; ""; ""; ""; ""; ""; ""; "Add : CGST @ 9%"; "0"];
      [""; ""; ""; ""; ""; ""; ""; ""; ""; "Add : SGST @ 9%"; "0"];
      [""; ""; ""; ""; ""; ""; ""; ""; ""; "Add : IGST @ 18%"; "360"];
      [""; ""; ""; ""; ""; ""; ""; ""; ""; "Less : PO"; "0"];
      [""; ""; ""; ""; ""; ""; ""; ""; ""; "GRAND TOTAL"; "2,360"] ].
Proof. reflexivity. Qed.

(** At a rate of 12% the tax rows still read 9%, 9% and 18%. *)
Example tax_labels_at_12_percent :
  map (fun row => (row !! 9%nat, row !! 10%nat))
    (take 3 (drop 2 (@PdfExport.tableData Sample.platform
       (InvoiceForm.generateInvoice (Sample.form 1 1000 12 false)))))
  = [ (Some "Add : CGST @ 9%", Some "60");
      (Some "Add : SGST @ 9%", Some "60");
      (Some "Add : IGST @ 18%", Some "0") ].
Proof. reflexivity. Qed.

Lemma first_page_split_witness :
  let inv7 := InvoiceForm.generateInvoice (Sample.form 7 37000 18 false) in
  let inv8 := InvoiceForm.generateInvoice (Sample.form 8 37000 18 false) in
  (length (@PdfExport.tableData Sample.platform inv7) = 13%nat /\
   @PdfExport.firstPageData Sample.platform inv7
     = @PdfExport.tableData Sample.platform inv7 /\
   @PdfExport.drawTables Sample.platform inv7
     = [PdfExport.autoTable PdfExport.pb_avoid
          (@PdfExport.tableData Sample.platform inv7)]) /\
  (length (@PdfExport.tableData Sample.platform inv8) = 14%nat /\
   length (@PdfExport.remainingData Sample.platform inv8) = 1%nat /\
   @PdfExport.drawTables Sample.platform inv8 =
     [ PdfExport.autoTable PdfExport.pb_avoid
         (take 13 (@PdfExport.tableData Sample.platform inv8));
       PdfExport.text PdfExport.CARRIED_FORWARD; PdfExport.addPage;
       PdfExport.addHeaderFooter 2; PdfExport.rect;
       PdfExport.text PdfExport.BROUGHT_FORWARD;
       PdfExport.autoTable PdfExport.pb_auto
         (drop 13 (@PdfExport.tableData Sample.platform inv8)) ]).
Proof.
  intros inv7 inv8.
  pose proof (@first_page_split Sample.platform inv7)
    as (_ & _ & _ & _ & _ & _ & _ & H7 & _).
  pose proof (@first_page_split Sample.platform inv8)
    as (_ & _ & _ & _ & _ & _ & _ & _ & H8).
  split; [ apply H7; reflexivity | apply H8; reflexivity ].
Defined.

(** With 8 items the continuation table is the GRAND TOTAL row alone. *)
Example remainingData_8_items :
  @PdfExport.remainingData Sample.platform
    (InvoiceForm.generateInvoice (Sample.form 8 37000 18 false))
  = [ [""; ""; ""; ""; ""; ""; ""; ""; ""; "GRAND TOTAL"; "3,49,280"] ].
Proof. reflexivity. Qed.

(** ** The GSTIN resolver *)

Section ResolverProps.

Lemma truthy_str_length (s : string) :
  truthy_str s = false -> (String.length s < 2)%nat.
Proof.
  unfold truthy_str. rewrite negb_false_iff, String.eqb_eq.
  intros ->. simpl. lia.
Qed.

Lemma getStateFromGSTIN_lookup (gstin : string) :
  (2 <= String.length gstin)%nat ->
  getStateFromGSTIN gstin = GST_STATE_CODES !! substring 0 2 gstin.
Proof.
  intros Hlen. unfold getStateFromGSTIN.
  destruct (truthy_str gstin) eqn:T.
  - cbn [negb orb].
    destruct (String.length gstin <? 2)%nat eqn:E; [ | reflexivity ].
    apply Nat.ltb_lt in E. lia.
  - apply truthy_str_length in T. lia.
Qed.

(** Every entry of the table is stored under its own code. *)
Lemma GST_STATE_CODES_keys :
  map_Forall (fun k v => si_code v = k) GST_STATE_CODES.
Proof.
  apply (bool_decide_unpack _). vm_compute. reflexivity.
Qed.

(** C6.  The resolver answers absent exactly when the GSTIN is empty,
    shorter than two characters, or its first two characters are not a
    key of the state-code table (such as "25"); otherwise it answers
    the entry of that prefix. *)
Theorem getStateFromGSTIN_spec :
  (forall gstin : string,
     getStateFromGSTIN gstin = None <->
     gstin = "" \/ (String.length gstin < 2)%nat \/
     GST_STATE_CODES !! substring 0 2 gstin = None) /\
  (forall gstin : string,
     (2 <= String.length gstin)%nat ->
     getStateFromGSTIN gstin = GST_STATE_CODES !! substring 0 2 gstin) /\
  GST_STATE_CODES !! "25" = None /\
  getStateFromGSTIN "25AKJPD0941N4Z8" = None /\
  getStateFromGSTIN "22AKJPD0941N4Z8"
    = Some (mkStateInfo "Chhattisgarh" "22") /\
  getStateFromGSTIN "" = None /\
  getStateFromGSTIN "2" = None.
Proof.
  split; [ | split; [ exact getStateFromGSTIN_lookup | ] ].
  - intros gstin. split.
    + intros Hn.
      destruct (Nat.lt_ge_cases (String.length gstin) 2) as [Hlt | Hge].
      * right; left; exact Hlt.
      * right; right. now rewrite <- getStateFromGSTIN_lookup.
    + intros [-> | [Hlt | Hnone]]; [ reflexivity | | ].
      * unfold getStateFromGSTIN.
        apply Nat.ltb_lt in Hlt. rewrite Hlt.
        now rewrite orb_true_r.
      * unfold getStateFromGSTIN.
        destruct (negb (truthy_str gstin) || _); [ reflexivity | ].
        exact Hnone.
  - repeat split; vm_compute; reflexivity.
Qed.

End ResolverProps.

Lemma getStateFromGSTIN_spec_witness :
  getStateFromGSTIN "27AAAAA0000A1Z5" = GST_STATE_CODES !! "27".
Proof.
  apply (proj1 (proj2 getStateFromGSTIN_spec) "27AAAAA0000A1Z5").
  simpl. lia.
Defined.

(** ** Amount in words *)

Section StringFacts.

Lemma append_cons (c : ascii) (s t : string) :
  String c s +:+ t = String c (s +:+ t).
Proof. reflexivity. Qed.

Lemma append_nil_r (s : string) : s +:+ "" = s.
Proof.
  induction s as [| c s IH]; [ reflexivity | ].
  rewrite append_cons. now f_equal.
Qed.

Lemma append_assoc (a b c : string) : (a +:+ b) +:+ c = a +:+ b +:+ c.
Proof.
  induction a as [| x a IH]; [ reflexivity | ].
  rewrite !append_cons. now f_equal.
Qed.

Lemma spaced_app (u v : list string) :
  Spec.spaced (u ++ v) = Spec.spaced u +:+ Spec.spaced v.
Proof.
  induction u as [| w u IH]; [ reflexivity | ].
  cbn [app Spec.spaced]. now rewrite IH, !append_assoc.
Qed.

Lemma solid_not_whitespace (c : ascii) :
  Spec.solid c = true ->
  is_whitespace1 c = false /\
  (forall c2, is_whitespace2 c c2 = false) /\
  (forall c2 c3, is_whitespace3 c c2 c3 = false).
Proof.
  unfold Spec.solid. intros Hc. apply andb_prop in Hc as [Hb Hw].
  apply N.ltb_lt in Hb. apply negb_true_iff in Hw.
  assert (F : forall k, (128 <= k)%N -> (N_of_ascii c =? k)%N = false)
    by (intros k Hk; apply N.eqb_neq; lia).
  split; [ exact Hw | ].
  split; intros; unfold is_whitespace2, is_whitespace3; cbv zeta;
    rewrite !F by lia; reflexivity.
Qed.

Lemma trimStart_solid (c : ascii) (s : string) :
  Spec.solid c = true -> trimStart (String c s) = String c s.
Proof.
  intros Hc. destruct (solid_not_whitespace c Hc) as (H1 & H2 & H3).
  cbn [trimStart]. rewrite H1.
  destruct s as [| c2 [| c3 s3]]; rewrite ?H2, ?H3; reflexivity.
Qed.

Lemma blank_solid (c : ascii) (s : string) :
  Spec.solid c = true -> blank (String c s) = false.
Proof. intros Hc. unfold blank. now rewrite (trimStart_solid c s Hc). Qed.

Lemma trimEnd_solid (w s : string) :
  forallb Spec.solid (list_ascii_of_string w) = true ->
  trimEnd (w +:+ s) = w +:+ trimEnd s.
Proof.
  induction w as [| c w IH]; intros Hw; [ reflexivity | ].
  cbn in Hw. apply andb_prop in Hw as [Hc Hw].
  rewrite !append_cons. cbn [trimEnd].
  now rewrite (blank_solid _ _ Hc), (IH Hw).
Qed.

Lemma trimStart_wordlike (w s : string) :
  Spec.wordlike w = true -> trimStart (w +:+ s) = w +:+ s.
Proof.
  unfold Spec.wordlike. intros Hw. apply andb_prop in Hw as [Hne Hw].
  destruct w as [| c w]; [ discriminate Hne | ].
  cbn in Hw. apply andb_prop in Hw as [Hc _].
  rewrite append_cons. now apply trimStart_solid.
Qed.

Lemma blank_spaced (w : string) (ws : list string) :
  Spec.wordlike w = true -> blank (Spec.spaced (w :: ws)) = false.
Proof.
  unfold Spec.wordlike. intros Hw. apply andb_prop in Hw as [Hne Hw].
  destruct w as [| c w]; [ discriminate Hne | ].
  cbn in Hw. apply andb_prop in Hw as [Hc _].
  cbn [Spec.spaced]. rewrite append_cons. now apply blank_solid.
Qed.

Lemma trimEnd_spaced (ws : list string) :
  Forall (fun w => Spec.wordlike w = true) ws ->
  trimEnd (Spec.spaced ws) = Spec.unwords ws.
Proof.
  induction 1 as [| w ws Hw Hws IH]; [ reflexivity | ].
  cbn [Spec.spaced].
  pose proof Hw as Hsolid. unfold Spec.wordlike in Hsolid.
  apply andb_prop in Hsolid as [_ Hsolid].
  rewrite (trimEnd_solid _ _ Hsolid).
  change (" " +:+ Spec.spaced ws) with (String " " (Spec.spaced ws)).
  cbn [trimEnd].
  change (blank (String " " (Spec.spaced ws))) with (blank (Spec.spaced ws)).
  rewrite IH.
  destruct Hws as [| w' ws' Hw' _].
  - cbn. now rewrite append_nil_r.
  - rewrite (blank_spaced _ _ Hw'). reflexivity.
Qed.

Lemma trim_spaced (ws : list string) :
  Forall (fun w => Spec.wordlike w = true) ws ->
  trim (Spec.spaced ws) = Spec.unwords ws.
Proof.
  intros Hws. unfold trim.
  destruct Hws as [| w ws Hw Hws]; [ reflexivity | ].
  cbn [Spec.spaced]. rewrite (trimStart_wordlike _ _ Hw).
  apply (trimEnd_spaced (w :: ws)). now constructor.
Qed.

End StringFacts.

Section WordsProps.

(** A boolean check over an integer interval covers every member. *)
Lemma forallb_range (f : Z -> bool) (lo : Z) (n : nat) :
  forallb f (map (fun j => lo + Z.of_nat j) (seq 0 n)) = true ->
  forall k, lo <= k < lo + Z.of_nat n -> f k = true.
Proof.
  intros Hall k Hk.
  apply (proj1 (forallb_forall f _) Hall).
  apply in_map_iff. exists (Z.to_nat (k - lo)). split; [ lia | ].
  apply in_seq. lia.
Qed.

Lemma arr_get_beyond (arr : list string) (k : Z) :
  Z.of_nat (length arr) <= k -> arr_get arr k = "undefined".
Proof.
  intros Hk. unfold arr_get.
  destruct (k <? 0) eqn:E; [ reflexivity | ].
  rewrite lookup_ge_None_2; [ reflexivity | lia ].
Qed.

Lemma ones_wordlike (k : Z) :
  0 < k -> Spec.wordlike (arr_get ones k) = true.
Proof.
  intros Hk. destruct (Z_lt_le_dec k 10) as [Hlt | Hge].
  - apply (forallb_range (fun i => Spec.wordlike (arr_get ones i)) 1 9);
      [ reflexivity | lia ].
  - rewrite arr_get_beyond; [ reflexivity | exact Hge ].
Qed.

Lemma teens_wordlike (k : Z) :
  0 <= k < 10 -> Spec.wordlike (arr_get teens k) = true.
Proof.
  apply (forallb_range (fun i => Spec.wordlike (arr_get teens i)) 0 10).
  reflexivity.
Qed.

Lemma tens_wordlike (k : Z) :
  2 <= k < 10 -> Spec.wordlike (arr_get tens k) = true.
Proof.
  apply (forallb_range (fun i => Spec.wordlike (arr_get tens i)) 2 8).
  reflexivity.
Qed.

Lemma groupWords_wordlike (g : Z) :
  0 < g -> Forall (fun w => Spec.wordlike w = true) (Spec.groupWords g).
Proof.
  intros Hg. unfold Spec.groupWords.
  apply Forall_app. split.
  - destruct (0 <? g / 100) eqn:E; [ | constructor ].
    apply Z.ltb_lt in E.
    repeat constructor. now apply ones_wordlike.
  - destruct (g mod 100 / 10 =? 1) eqn:E1.
    + repeat constructor. apply teens_wordlike.
      apply Z.mod_pos_bound. lia.
    + apply Forall_app. split.
      * destruct (2 <=? g mod 100 / 10) eqn:E2; [ | constructor ].
        apply Z.leb_le in E2. repeat constructor. apply tens_wordlike.
        split; [ exact E2 | ]. Z.div_mod_to_equations. lia.
      * destruct (0 <? g mod 10) eqn:E3; [ | constructor ].
        apply Z.ltb_lt in E3. repeat constructor. now apply ones_wordlike.
Qed.

Lemma scaled_wordlike (g : Z) (scale : string) :
  Spec.wordlike scale = true ->
  Forall (fun w => Spec.wordlike w = true) (Spec.scaled g scale).
Proof.
  intros Hs. unfold Spec.scaled.
  destruct (0 <? g) eqn:E; [ | constructor ].
  apply Z.ltb_lt in E. apply Forall_app. split.
  - now apply groupWords_wordlike.
  - now repeat constructor.
Qed.

Lemma numberWords_wordlike (n : Z) :
  Forall (fun w => Spec.wordlike w = true) (Spec.numberWords n).
Proof.
  unfold Spec.numberWords.
  repeat (apply Forall_app; split; [ now apply scaled_wordlike | ]).
  destruct (0 <? n mod 1000) eqn:E; [ | constructor ].
  apply Z.ltb_lt in E. now apply groupWords_wordlike.
Qed.

(** The converter builds the words of its group, each followed by a
    space. *)
Lemma convertHundreds_spaced (g : Z) :
  0 < g -> convertHundreds g = Spec.spaced (Spec.groupWords g).
Proof.
  intros Hg. unfold convertHundreds, Spec.groupWords, floor_div, JS.rem.
  set (r := g mod 100).
  assert (Hr : 0 <= r < 100) by (apply Z.mod_pos_bound; lia).
  assert (Ho : g mod 10 = r mod 10).
  { unfold r. Z.div_mod_to_equations. lia. }
  rewrite Ho.
  assert (Tail : forall (result : string) (m : Z), m = r ->
    (if 20 <=? m
     then if 0 <? Z.rem m 10
          then (result +:+ arr_get tens (m / 10) +:+ " ")
               +:+ arr_get ones (Z.rem m 10) +:+ " "
          else result +:+ arr_get tens (m / 10) +:+ " "
     else if 10 <=? m then result +:+ arr_get teens (m - 10) +:+ " "
          else if 0 <? m then result +:+ arr_get ones m +:+ " "
               else result)
    = result +:+
      Spec.spaced
        (if r / 10 =? 1 then [arr_get teens (r mod 10)]
         else (if 2 <=? r / 10 then [arr_get tens (r / 10)] else []) ++
              (if 0 <? r mod 10 then [arr_get ones (r mod 10)] else []))).
  { intros result m ->.
    rewrite (Z.rem_mod_nonneg r 10) by lia.
    destruct (20 <=? r) eqn:E20; [ | destruct (10 <=? r) eqn:E10 ].
    - apply Z.leb_le in E20.
      replace (r / 10 =? 1) with false
        by (symmetry; apply Z.eqb_neq; Z.div_mod_to_equations; lia).
      replace (2 <=? r / 10) with true
        by (symmetry; apply Z.leb_le; Z.div_mod_to_equations; lia).
      destruct (0 <? r mod 10); cbn [app Spec.spaced];
        rewrite ?append_assoc, ?append_nil_r; reflexivity.
    - apply Z.leb_le in E10. apply Z.leb_gt in E20.
      replace (r / 10 =? 1) with true
        by (symmetry; apply Z.eqb_eq; Z.div_mod_to_equations; lia).
      replace (r mod 10) with (r - 10) by (Z.div_mod_to_equations; lia).
      cbn [Spec.spaced]. reflexivity.
    - apply Z.leb_gt in E10.
      replace (r / 10) with 0 by (Z.div_mod_to_equations; lia).
      replace (r mod 10) with r by (Z.div_mod_to_equations; lia).
      cbn [Z.eqb Z.leb Z.compare app].
      destruct (0 <? r); cbn [Spec.spaced];
        rewrite ?append_nil_r; reflexivity. }
  rewrite spaced_app.
  destruct (100 <=? g) eqn:E100.
  - apply Z.leb_le in E100.
    replace (0 <? g / 100) with true
      by (symmetry; apply Z.ltb_lt; Z.div_mod_to_equations; lia).
    rewrite (Z.rem_mod_nonneg g 100) by lia. fold r.
    rewrite (Tail _ r eq_refl). reflexivity.
  - apply Z.leb_gt in E100.
    replace (0 <? g / 100) with false
      by (symmetry; apply Z.ltb_ge; Z.div_mod_to_equations; lia).
    rewrite (Tail _ g); [ reflexivity | ].
    unfold r. symmetry. apply Z.mod_small. lia.
Qed.

End WordsProps.

Section NumberToWordsProps.

Lemma numberToWords_spaced (n : Z) :
  0 < n ->
  numberToWords n = trim (Spec.spaced (Spec.numberWords n)) +:+ " Only".
Proof.
  intros Hn. unfold numberToWords, Spec.numberWords, Spec.scaled.
  unfold floor_div, JS.rem.
  replace (n =? 0) with false by (symmetry; apply Z.eqb_neq; lia).
  rewrite !(Z.rem_mod_nonneg n) by lia.
  rewrite !spaced_app.
  f_equal. f_equal.
  set (c := n / 10000000).
  set (l := n mod 10000000 / 100000).
  set (t := n mod 100000 / 1000).
  set (h := n mod 1000).
  destruct (0 <? c) eqn:Ec; destruct (0 <? l) eqn:El;
    destruct (0 <? t) eqn:Et; destruct (0 <? h) eqn:Eh;
    rewrite ?Z.ltb_lt in *;
    rewrite ?spaced_app, ?convertHundreds_spaced by assumption;
    cbn [Spec.spaced];
    rewrite ?append_assoc, ?append_nil_r; reflexivity.
Qed.

Lemma groupWords_dictionary (g : Z) :
  1 <= g <= 999 ->
  Spec.groupWords g <> [] /\
  Forall (fun w => w ∈ Spec.dictionary) (Spec.groupWords g).
Proof.
  intros Hg.
  set (check := fun i : Z =>
         negb (bool_decide (Spec.groupWords i = [])) &&
         forallb (fun w : string => bool_decide (w ∈ Spec.dictionary))
           (Spec.groupWords i)).
  assert (Hchk : forallb check (map (fun j => 1 + Z.of_nat j) (seq 0 999))
                 = true) by (vm_compute; reflexivity).
  assert (Hb : check g = true) by (apply (forallb_range check 1 999 Hchk); lia).
  unfold check in Hb.
  apply andb_prop in Hb as [Hne Hall]. split.
  - apply negb_true_iff, bool_decide_eq_false in Hne. exact Hne.
  - apply Forall_forall. intros w Hw. apply list_elem_of_In in Hw.
    apply (proj1 (forallb_forall _ _) Hall) in Hw.
    apply bool_decide_eq_true in Hw. exact Hw.
Qed.

(** C5.  [numberToWords 0] is "Zero".  For a positive [n] the result is
    the words of the crore, lakh, thousand and under-1000 groups of [n],
    in this order, each non-zero group but the last followed by its scale
    word and zero groups left out, separated by single spaces, with
    " Only" appended; the words of a group are its hundreds word with
    "Hundred", then the teen word alone for 10..19, or else the tens word
    and the ones word; a group of 1..999 yields at least one word, all
    from the three tables. *)
Theorem numberToWords_spec :
  numberToWords 0 = "Zero" /\
  (forall n : Z, 0 <= n -> numberToWords n = Spec.numberToWords n) /\
  (forall g : Z, 1 <= g <= 999 ->
     convertHundreds g = Spec.spaced (Spec.groupWords g) /\
     Spec.groupWords g <> [] /\
     Forall (fun w => w ∈ Spec.dictionary) (Spec.groupWords g)) /\
  (forall g : Z, 1 <= g <= 999 -> 10 <= g mod 100 <= 19 ->
     Spec.groupWords g =
       (if 0 <? g / 100 then [arr_get ones (g / 100); "Hundred"] else [])
       ++ [arr_get teens (g mod 100 - 10)]) /\
  numberToWords 100 = "One Hundred Only" /\
  numberToWords 150000 = "One Lakh Fifty Thousand Only" /\
  numberToWords 12345678 =
    "One Crore Twenty Three Lakh Forty Five Thousand Six Hundred Seventy Eight Only".
Proof.
  split; [ reflexivity | ].
  split.
  { intros n Hn. destruct (Z.eq_dec n 0) as [-> | Hne]; [ reflexivity | ].
    rewrite numberToWords_spaced by lia.
    unfold Spec.numberToWords.
    replace (n =? 0) with false by (symmetry; apply Z.eqb_neq; lia).
    f_equal. apply trim_spaced, numberWords_wordlike. }
  split.
  { intros g Hg. split; [ apply convertHundreds_spaced; lia | ].
    now apply groupWords_dictionary. }
  split.
  { intros g Hg Hteen. unfold Spec.groupWords.
    replace (g mod 100 / 10 =? 1) with true
      by (symmetry; apply Z.eqb_eq; Z.div_mod_to_equations; lia).
    replace (g mod 10) with (g mod 100 - 10)
      by (Z.div_mod_to_equations; lia).
    reflexivity. }
  repeat split; vm_compute; reflexivity.
Qed.

End NumberToWordsProps.

Lemma numberToWords_spec_witness :
  numberToWords 12345678 = Spec.numberToWords 12345678 /\
  (convertHundreds 678 = Spec.spaced (Spec.groupWords 678) /\
   Spec.groupWords 678 <> [] /\
   Forall (fun w => w ∈ Spec.dictionary) (Spec.groupWords 678)) /\
  Spec.groupWords 115 =
    (if 0 <? 115 / 100 then [arr_get ones (115 / 100); "Hundred"] else [])
    ++ [arr_get teens (115 mod 100 - 10)].
Proof.
  pose proof numberToWords_spec as (_ & Hn & Hg & Ht & _).
  split; [ apply Hn; lia | ].
  split; [ apply Hg; lia | ].
  apply Ht; [ lia | ]. change (115 mod 100) with 15. lia.
Defined.

Example numberToWords_teen : numberToWords 115 = "One Hundred Fifteen Only".
Proof. reflexivity. Qed.

Example numberToWords_zero_groups :
  numberToWords 10000005 = "One Crore Five Only".
Proof. reflexivity. Qed.

(** ** Currency formatting *)

Section ChunkFacts.

Import Intl.

Lemma string_pair_ind (P : string -> Prop) :
  P "" ->
  (forall a, P (String a "")) ->
  (forall a b s, P s -> P (String a (String b s))) ->
  forall s, P s.
Proof.
  intros H0 H1 H2 s.
  enough (P s /\ forall a, P (String a s)) by tauto.
  induction s as [| c s [IH1 IH2]]; split; auto.
Qed.

Lemma string_forallb_app (f : ascii -> bool) (a b : string) :
  string_forallb f (a +:+ b) = string_forallb f a && string_forallb f b.
Proof.
  induction a as [| c a IH]; [ reflexivity | ].
  rewrite append_cons. cbn [string_forallb]. now rewrite IH, andb_assoc.
Qed.

Lemma length_append (a b : string) :
  String.length (a +:+ b) = (String.length a + String.length b)%nat.
Proof.
  induction a as [| c a IH]; [ reflexivity | ].
  rewrite append_cons. cbn [String.length]. now rewrite IH.
Qed.

Lemma str_take_drop (k : nat) (s : string) :
  str_take k s +:+ str_drop k s = s.
Proof.
  revert s. induction k as [| k IH]; intros [| c s]; try reflexivity.
  cbn [str_take str_drop]. rewrite append_cons. now rewrite IH.
Qed.

Lemma length_str_take (k : nat) (s : string) :
  (k <= String.length s)%nat -> String.length (str_take k s) = k.
Proof.
  revert s. induction k as [| k IH]; intros [| c s] Hk;
    cbn in *; try reflexivity; try lia.
  rewrite IH; lia.
Qed.

Lemma length_str_drop (k : nat) (s : string) :
  String.length (str_drop k s) = (String.length s - k)%nat.
Proof.
  revert s. induction k as [| k IH]; intros [| c s];
    cbn [str_drop String.length]; try reflexivity.
  apply IH.
Qed.

Lemma all_digits_take_drop (k : nat) (s : string) :
  Spec.all_digits s = true ->
  Spec.all_digits (str_take k s) = true /\
  Spec.all_digits (str_drop k s) = true.
Proof.
  intros Hs. rewrite <- (str_take_drop k s) in Hs.
  unfold Spec.all_digits in *. rewrite string_forallb_app in Hs.
  now apply andb_prop in Hs.
Qed.

Lemma by2_digits (s : string) :
  Spec.all_digits s = true -> forallb Spec.all_digits (by2 s) = true.
Proof.
  induction s as [| a | a b s IH] using string_pair_ind; intros Hs.
  - reflexivity.
  - cbn in *. now rewrite Hs.
  - cbn in Hs. apply andb_prop in Hs as [Ha Hs].
    apply andb_prop in Hs as [Hb Hs].
    cbn [by2 forallb]. rewrite (IH Hs). cbn. now rewrite Ha, Hb.
Qed.

Lemma by2_flat (s : string) : fold_right String.append "" (by2 s) = s.
Proof.
  induction s as [| a | a b s IH] using string_pair_ind;
    [ reflexivity | reflexivity | ].
  cbn [by2 fold_right]. rewrite IH. reflexivity.
Qed.

Lemma shape_tail_cons (mid : string) (tl : list string) :
  tl <> [] ->
  Spec.shape_tail (mid :: tl)
  = (String.length mid =? 2)%nat && Spec.shape_tail tl.
Proof. destruct tl; [ congruence | reflexivity ]. Qed.

Lemma shape_tail_by2 (s last : string) :
  Nat.even (String.length s) = true ->
  String.length last = 3%nat ->
  Spec.shape_tail (by2 s ++ [last]) = true.
Proof.
  intros Hs Hl. revert Hs.
  induction s as [| a | a b s IH] using string_pair_ind; intros Hs.
  - cbn. now rewrite Hl.
  - discriminate Hs.
  - cbn [by2 app]. rewrite shape_tail_cons.
    + rewrite IH; [ reflexivity | exact Hs ].
    + destruct (by2 s); discriminate.
Qed.

Lemma indian_shape_cons (first : string) (tl : list string) :
  tl <> [] ->
  Spec.indian_shape (first :: tl)
  = (1 <=? String.length first)%nat && (String.length first <=? 2)%nat
    && Spec.shape_tail tl.
Proof. destruct tl; [ congruence | reflexivity ]. Qed.

Lemma flat_app (u v : list string) :
  fold_right String.append "" (u ++ v)
  = fold_right String.append "" u +:+ fold_right String.append "" v.
Proof.
  induction u as [| x u IH]; [ reflexivity | ].
  cbn [app fold_right]. now rewrite IH, append_assoc.
Qed.

Lemma snoc_nonempty {A : Type} (l : list A) (x : A) : l ++ [x] <> [].
Proof. destruct l; discriminate. Qed.

(** The chunks of a non-empty digit string are digit strings in Indian
    grouping, and put together they give the string back. *)
Lemma indianChunks_spec (ds : string) :
  Spec.all_digits ds = true ->
  (1 <= String.length ds)%nat ->
  forallb Spec.all_digits (indianChunks ds) = true /\
  Spec.indian_shape (indianChunks ds) = true /\
  fold_right String.append "" (indianChunks ds) = ds.
Proof.
  intros Hd Hlen. unfold indianChunks.
  set (n := String.length ds) in *.
  destruct (n <=? 3)%nat eqn:E3.
  - apply Nat.leb_le in E3. cbn [forallb Spec.indian_shape fold_right].
    fold n. rewrite Hd, append_nil_r.
    repeat split. apply andb_true_intro. split; apply Nat.leb_le; lia.
  - apply Nat.leb_gt in E3.
    pose proof (str_take_drop (n - 3) ds) as Hcat.
    pose proof (all_digits_take_drop (n - 3) ds Hd) as [Hdh Hdl].
    pose proof (length_str_take (n - 3) ds ltac:(lia)) as Hlh.
    pose proof (length_str_drop (n - 3) ds) as Hll. fold n in Hll.
    set (head := str_take (n - 3) ds) in *.
    set (last3 := str_drop (n - 3) ds) in *.
    assert (Hl3 : String.length last3 = 3%nat) by lia.
    destruct (Nat.odd (n - 3)) eqn:Eodd.
    + pose proof (str_take_drop 1 head) as Hcat1.
      pose proof (all_digits_take_drop 1 head Hdh) as [Hd1 Hd2].
      pose proof (length_str_take 1 head ltac:(lia)) as Hl1.
      pose proof (length_str_drop 1 head) as Hl2.
      assert (Hev : Nat.even (String.length (str_drop 1 head)) = true).
      { rewrite Hl2, Hlh. replace (n - 3)%nat with (S (n - 3 - 1)) in Eodd
          by lia. now rewrite Nat.odd_succ in Eodd. }
      cbn [app]. split; [ | split ].
      * cbn [forallb]. rewrite Hd1, forallb_app, (by2_digits _ Hd2).
        cbn. now rewrite Hdl.
      * rewrite indian_shape_cons by apply snoc_nonempty.
        rewrite Hl1, (shape_tail_by2 _ _ Hev Hl3). reflexivity.
      * cbn [fold_right]. rewrite flat_app, by2_flat. cbn [fold_right].
        rewrite append_nil_r, <- append_assoc, Hcat1. exact Hcat.
    + assert (Hev : Nat.even (n - 3) = true).
      { rewrite <- Nat.negb_odd, Eodd. reflexivity. }
      destruct head as [| a [| b rest]] eqn:Eh.
      * cbn in Hlh. lia.
      * cbn in Hlh. rewrite <- Hlh in Hev. discriminate Hev.
      * cbn [String.length] in Hlh.
        assert (Hev' : Nat.even (String.length rest) = true).
        { rewrite <- Hlh in Hev. exact Hev. }
        cbn in Hdh. apply andb_prop in Hdh as [Ha Hdh].
        apply andb_prop in Hdh as [Hb Hdr].
        cbn [by2 app]. split; [ | split ].
        -- cbn [forallb]. rewrite forallb_app, (by2_digits _ Hdr).
           cbn. now rewrite Ha, Hb, Hdl.
        -- rewrite indian_shape_cons by apply snoc_nonempty.
           rewrite (shape_tail_by2 _ _ Hev' Hl3). reflexivity.
        -- cbn [fold_right]. rewrite flat_app, by2_flat. cbn [fold_right].
           rewrite append_nil_r. exact Hcat.
Qed.

End ChunkFacts.

Section FormatProps.

Import Intl.

Lemma is_digit_not_comma (c : ascii) :
  Spec.is_digit c = true -> Ascii.eqb c "," = false.
Proof.
  intros Hc. destruct (Ascii.eqb_spec c ",") as [-> | Hne];
    [ discriminate Hc | reflexivity ].
Qed.

Lemma split_solid (x : string) :
  Spec.all_digits x = true -> split "," x = [x].
Proof.
  induction x as [| c x IH]; intros Hx; [ reflexivity | ].
  cbn in Hx. apply andb_prop in Hx as [Hc Hx].
  cbn [split]. now rewrite (is_digit_not_comma _ Hc), (IH Hx).
Qed.

Lemma split_app_sep (x s : string) :
  Spec.all_digits x = true ->
  split "," (x +:+ String "," s) = x :: split "," s.
Proof.
  induction x as [| c x IH]; intros Hx; [ reflexivity | ].
  cbn in Hx. apply andb_prop in Hx as [Hc Hx].
  rewrite append_cons. cbn [split].
  now rewrite (is_digit_not_comma _ Hc), (IH Hx).
Qed.

Lemma split_join (chunks : list string) :
  chunks <> [] ->
  forallb Spec.all_digits chunks = true ->
  split "," (join "," chunks) = chunks.
Proof.
  induction chunks as [| x [| y tl] IH]; intros Hne Hall.
  - congruence.
  - cbn in Hall. apply andb_prop in Hall as [Hx _].
    now apply split_solid.
  - cbn [forallb] in Hall. apply andb_prop in Hall as [Hx Hall].
    change (join "," (x :: y :: tl))
      with (x +:+ String "," (join "," (y :: tl))).
    rewrite (split_app_sep _ _ Hx), IH; [ reflexivity | discriminate | ].
    exact Hall.
Qed.

Lemma digits_and_commas_join (chunks : list string) :
  forallb Spec.all_digits chunks = true ->
  Spec.digits_and_commas (join "," chunks) = true.
Proof.
  assert (Hweak : forall x, Spec.all_digits x = true ->
                            Spec.digits_and_commas x = true).
  { unfold Spec.digits_and_commas.
    induction x as [| c x IH]; intros Hx; [ reflexivity | ].
    cbn in Hx. apply andb_prop in Hx as [Hc Hx].
    cbn [string_forallb]. now rewrite Hc, (IH Hx). }
  induction chunks as [| x [| y tl] IH]; intros Hall.
  - reflexivity.
  - cbn in Hall. apply andb_prop in Hall as [Hx _]. now apply Hweak.
  - cbn [forallb] in Hall. apply andb_prop in Hall as [Hx Hall].
    change (join "," (x :: y :: tl))
      with (x +:+ String "," (join "," (y :: tl))).
    unfold Spec.digits_and_commas. rewrite string_forallb_app.
    apply andb_true_intro. split; [ now apply Hweak | ].
    cbn [string_forallb]. apply (IH Hall).
Qed.

Lemma strip_commas_join (chunks : list string) :
  forallb Spec.all_digits chunks = true ->
  Spec.strip_commas (join "," chunks) = fold_right String.append "" chunks.
Proof.
  assert (Happ : forall x s, Spec.all_digits x = true ->
            Spec.strip_commas (x +:+ s) = x +:+ Spec.strip_commas s).
  { induction x as [| c x IH]; intros s Hx; [ reflexivity | ].
    cbn in Hx. apply andb_prop in Hx as [Hc Hx].
    rewrite !append_cons. cbn [Spec.strip_commas].
    now rewrite (is_digit_not_comma _ Hc), (IH _ Hx). }
  induction chunks as [| x [| y tl] IH]; intros Hall.
  - reflexivity.
  - cbn in Hall. apply andb_prop in Hall as [Hx _].
    cbn [join fold_right]. rewrite <- (append_nil_r x) at 1.
    now rewrite (Happ _ _ Hx).
  - cbn [forallb] in Hall. apply andb_prop in Hall as [Hx Hall].
    change (join "," (x :: y :: tl))
      with (x +:+ String "," (join "," (y :: tl))).
    rewrite (Happ _ _ Hx). cbn [Spec.strip_commas Ascii.eqb].
    change (Ascii.eqb "," ",") with true. cbn iota.
    rewrite (IH Hall). reflexivity.
Qed.

Lemma uint_digits_all (u : Decimal.uint) :
  Spec.all_digits (uint_digits u) = true.
Proof. induction u; cbn; auto. Qed.

Lemma digits_spec (n : N) :
  Spec.all_digits (digits n) = true /\ (1 <= String.length (digits n))%nat.
Proof.
  split; [ apply uint_digits_all | ].
  unfold digits. destruct n as [| p]; [ cbn; lia | ].
  pose proof (Unsigned.to_uint_nonnil p) as Hnn.
  cbn [N.to_uint]. destruct (Pos.to_uint p); [ congruence | .. ];
    cbn [uint_digits String.length]; lia.
Qed.

(** The formatter on a positive integer: digits and commas only, in
    Indian grouping, and the digits are those of the number. *)
Lemma format_en_IN_positive (z : Z) :
  0 < z ->
  Spec.digits_and_commas (format_en_IN z) = true /\
  Spec.indian_grouped (format_en_IN z) = true /\
  Spec.strip_commas (format_en_IN z) = digits (Z.abs_N z).
Proof.
  intros Hz. unfold format_en_IN.
  replace (z <? 0) with false by (symmetry; apply Z.ltb_ge; lia).
  change ("" +:+ ?s) with s.
  destruct (digits_spec (Z.abs_N z)) as [Hd Hl].
  destruct (indianChunks_spec _ Hd Hl) as (Hall & Hshape & Hflat).
  split; [ now apply digits_and_commas_join | ].
  split.
  - unfold Spec.indian_grouped. rewrite split_join.
    + now rewrite Hall, Hshape.
    + intros E. rewrite E in Hshape. discriminate Hshape.
    + exact Hall.
  - now rewrite strip_commas_join.
Qed.

End FormatProps.

Section CurrencyProps.

Context `{Platform}.

(** The PDF formatter is the same function as [formatCurrency]. *)
Lemma formatCompactCurrency_formatCurrency (amount : NumOrStr) :
  PdfExport.formatCompactCurrency amount = formatCurrency amount.
Proof. reflexivity. Qed.

(** A string amount that parses is formatted as its number; one that
    does not parse is returned as it is. *)
Lemma formatCurrency_string (s : string) :
  s <> "" -> s <> "0" ->
  formatCurrency (Str s) =
    match parseFloat s with
    | Some q => formatCurrency (Num q)
    | None => s
    end.
Proof.
  intros H1 H2. unfold formatCurrency.
  apply String.eqb_neq in H1, H2. rewrite H1, H2. reflexivity.
Qed.

Lemma Math_round_pos_nonzero (a : Q) :
  1 <= Math_round a -> Qeq_bool a 0 = false.
Proof.
  intros Ha. destruct (Qeq_bool a 0) eqn:E; [ | reflexivity ].
  apply Qeq_bool_eq in E. rewrite (Math_round_Qeq _ _ E) in Ha.
  change (Math_round 0) with 0 in Ha. lia.
Qed.

(** C4, amended.  [formatCurrency] returns the empty string for the
    number zero and for the strings "" and "0"; for an amount that
    rounds to 1 or more it returns digits and commas only, in Indian
    2-then-3 grouping, and without the commas the text is the decimal
    writing of the rounded amount. *)
Theorem formatCurrency_grouping :
  formatCurrency (Str "") = "" /\
  formatCurrency (Str "0") = "" /\
  (forall a : Q, (a == 0)%Q -> formatCurrency (Num a) = "") /\
  (forall a : Q, 1 <= Math_round a ->
     Spec.digits_and_commas (formatCurrency (Num a)) = true /\
     Spec.indian_grouped (formatCurrency (Num a)) = true /\
     Spec.strip_commas (formatCurrency (Num a))
       = digits (Z.abs_N (Math_round a))).
Proof.
  split; [ reflexivity | ]. split; [ reflexivity | ]. split.
  - intros a Ha. unfold formatCurrency.
    apply Qeq_bool_iff in Ha. now rewrite Ha.
  - intros a Ha. unfold formatCurrency.
    rewrite (Math_round_pos_nonzero _ Ha).
    apply format_en_IN_positive. lia.
Qed.

End CurrencyProps.

Lemma formatCurrency_grouping_witness :
  @formatCurrency Sample.platform (Num 0) = "" /\
  (Spec.digits_and_commas
     (@formatCurrency Sample.platform (Num (24691357 # 2))) = true /\
   Spec.indian_grouped
     (@formatCurrency Sample.platform (Num (24691357 # 2))) = true /\
   Spec.strip_commas
     (@formatCurrency Sample.platform (Num (24691357 # 2)))
     = digits (Z.abs_N (Math_round (24691357 # 2)))).
Proof.
  pose proof (@formatCurrency_grouping Sample.platform) as (_ & _ & H0 & H1).
  split; [ apply H0; reflexivity | apply H1; vm_compute; discriminate ].
Defined.

Example formatCurrency_half_rounds_up :
  @formatCurrency Sample.platform (Num (24691357 # 2)) = "1,23,45,679".
Proof. reflexivity. Qed.

Example formatCurrency_parsed_string :
  @formatCurrency Sample.platform (Str "1234567") = "12,34,567".
Proof. reflexivity. Qed.

(** C4, as stated, fails: 3/10 rounds to 0 and is printed "0", not the
    empty string. *)
Lemma formatCurrency_rounds_to_zero_printed :
  ~ (forall a : Q,
       (Math_round a = 0 ->
        @formatCurrency Sample.platform (Num a) = "") /\
       (Math_round a <> 0 ->
        Spec.digits_and_commas
          (@formatCurrency Sample.platform (Num a)) = true /\
        Spec.indian_grouped
          (@formatCurrency Sample.platform (Num a)) = true)).
Proof.
  intros Hall. destruct (Hall (3 # 10)) as [Hzero _].
  specialize (Hzero eq_refl). vm_compute in Hzero. discriminate Hzero.
Qed.

Example formatCurrency_three_tenths :
  Math_round (3 # 10) = 0 /\
  @formatCurrency Sample.platform (Num (3 # 10)) = "0".
Proof. split; reflexivity. Qed.

(** A negative amount is printed with a minus sign. *)
Example formatCurrency_negative :
  @formatCurrency Sample.platform (Num (-1234)) = "-1,234" /\
  Spec.digits_and_commas "-1,234" = false.
Proof. split; reflexivity. Qed.

(** * Further properties of the embedded code *)

(** ** Tax amounts *)

Section TaxProps.

Import InvoiceForm.

Lemma Math_round_nonneg (x : Q) : (0 <= x)%Q -> 0 <= Math_round x.
Proof.
  intros Hx. change 0 with (Math_round 0). now apply Math_round_mono.
Qed.

(** For a non-negative amount and rate the tax is non-negative, the two
    halves are equal and together exceed the tax by at most one, and the
    total is the rounded amount plus the tax. *)
Theorem calculateGST_nonneg_bounds (amount rate : Q) :
  (0 <= amount)%Q -> (0 <= rate)%Q ->
  let g := calculateGST amount rate in
  0 <= gst_igst g /\
  gst_cgst g = gst_sgst g /\ 0 <= gst_cgst g /\
  gst_igst g <= gst_cgst g + gst_sgst g <= gst_igst g + 1 /\
  gst_total g = Math_round amount + gst_igst g /\
  Math_round amount <= gst_total g.
Proof.
  intros Ha Hr g. subst g. rewrite calculateGST_fields.
  cbn [gst_cgst gst_sgst gst_igst gst_total].
  set (t := Math_round (Float64.div _ _)).
  assert (Ht : 0 <= t)
    by (apply gstAmount_nonneg; [ apply Math_round_nonneg, Ha | exact Hr ]).
  repeat split; try lia; Z.div_mod_to_equations; lia.
Qed.

Lemma calculateGST_nonneg_bounds_witness :
  let g := calculateGST 1005 18 in
  0 <= gst_igst g /\
  gst_cgst g = gst_sgst g /\ 0 <= gst_cgst g /\
  gst_igst g <= gst_cgst g + gst_sgst g <= gst_igst g + 1 /\
  gst_total g = Math_round 1005 + gst_igst g /\
  Math_round 1005 <= gst_total g.
Proof. apply (calculateGST_nonneg_bounds 1005 18); discriminate. Defined.

(** At a non-negative rate a larger amount never yields less tax or a
    smaller total. *)
Theorem calculateGST_monotone (amount1 amount2 rate : Q) :
  (amount1 <= amount2)%Q -> (0 <= rate)%Q ->
  gst_igst (calculateGST amount1 rate) <= gst_igst (calculateGST amount2 rate)
  /\ gst_cgst (calculateGST amount1 rate)
     <= gst_cgst (calculateGST amount2 rate)
  /\ gst_total (calculateGST amount1 rate)
     <= gst_total (calculateGST amount2 rate).
Proof.
  intros Ha Hr. rewrite !calculateGST_fields.
  cbn [gst_cgst gst_igst gst_total].
  pose proof (Math_round_mono _ _ Ha) as Hm.
  pose proof (gstAmount_mono _ _ rate Hm Hr) as Ht.
  repeat split; try lia.
  apply Z.div_le_mono; lia.
Qed.

Lemma calculateGST_monotone_witness :
  gst_igst (calculateGST 1000 18) <= gst_igst (calculateGST 1005 18)
  /\ gst_cgst (calculateGST 1000 18) <= gst_cgst (calculateGST 1005 18)
  /\ gst_total (calculateGST 1000 18) <= gst_total (calculateGST 1005 18).
Proof. apply (calculateGST_monotone 1000 1005 18); discriminate. Defined.

Lemma fold_amounts (l : list InvoiceItem) (a : Z) :
  fold_left (fun sum item => sum + item_amount item) l a
  = a + fold_right Z.add 0 (map item_amount l).
Proof.
  revert a. induction l as [| x l IH]; intros a; cbn; [ lia | ].
  rewrite IH. lia.
Qed.

Lemma subtotal_of_amounts (fd : InvoiceFormData) :
  subtotal (calculateTotals fd)
  = fold_right Z.add 0 (map item_amount (items fd)).
Proof. rewrite subtotal_is_sum, fold_amounts. lia. Qed.

Lemma calculateTotals_ext (fd fd' : InvoiceFormData) :
  subtotal (calculateTotals fd) = subtotal (calculateTotals fd') ->
  gstRate fd = gstRate fd' -> isInterstate fd = isInterstate fd' ->
  calculateTotals fd = calculateTotals fd'.
Proof.
  intros Hs Hr Hi. rewrite !subtotal_is_sum in Hs.
  unfold calculateTotals. rewrite !Math_round_Z, Hs, Hr, Hi. reflexivity.
Qed.

Lemma amounts_imap_sno (l : list InvoiceItem) (k : nat) :
  map item_amount
    (imap (fun index item => set_sno (Z.of_nat (k + index) + 1) item) l)
  = map item_amount l.
Proof.
  revert k. induction l as [| x l IH]; intros k; [ reflexivity | ].
  cbn [imap map]. f_equal. rewrite <- (IH (S k)). f_equal.
  apply imap_ext. intros i y _. unfold compose. now rewrite Nat.add_succ_r.
Qed.

Lemma sum_filter_split (p : InvoiceItem -> bool) (l : list InvoiceItem) :
  fold_right Z.add 0 (map item_amount l)
  = fold_right Z.add 0 (map item_amount (List.filter p l))
    + fold_right Z.add 0
        (map item_amount (List.filter (fun i => negb (p i)) l)).
Proof.
  induction l as [| x l IH]; [ reflexivity | ].
  cbn [List.filter map fold_right]. destruct (p x); cbn; lia.
Qed.

(** How the edits of the item list move the subtotal: a new blank item
    leaves all totals as they are, a copy adds the amount of the copied
    item, and a removal takes away the amounts of the removed items. *)
Theorem subtotal_after_edit (formData prev : InvoiceFormData)
    (id now : string) :
  calculateTotals (addItem formData now prev) = calculateTotals prev /\
  subtotal (calculateTotals (copyItem id now prev))
  = subtotal (calculateTotals prev)
    + match List.find (fun item => String.eqb (item_id item) id)
              (items prev) with
      | Some item => item_amount item
      | None => 0
      end /\
  subtotal (calculateTotals (removeItem id prev))
  = subtotal (calculateTotals prev)
    - fold_right Z.add 0
        (map item_amount
           (List.filter (fun item => String.eqb (item_id item) id)
              (items prev))).
Proof.
  split; [ | split ].
  - apply calculateTotals_ext; try reflexivity.
    rewrite !subtotal_of_amounts. unfold addItem. cbn [items set_items].
    rewrite map_app, fold_right_app. cbn. reflexivity.
  - rewrite !subtotal_of_amounts. unfold copyItem.
    destruct (List.find _ _) as [it |]; [ | lia ].
    cbn [items set_items]. rewrite map_app, fold_right_app. cbn.
    generalize (map item_amount (items prev)) as l.
    induction l as [| x l IH]; cbn; lia.
  - rewrite !subtotal_of_amounts. unfold removeItem. cbn [items set_items].
    rewrite (amounts_imap_sno _ 0).
    rewrite (sum_filter_split
               (fun item => negb (String.eqb (item_id item) id))
               (items prev)).
    assert (E : List.filter
                  (fun i => negb (negb (String.eqb (item_id i) id)))
                  (items prev)
                = List.filter (fun i => String.eqb (item_id i) id)
                    (items prev)).
    { apply filter_ext. intros i. apply negb_involutive. }
    rewrite E. lia.
Qed.

End TaxProps.

(** ** Amount in words outside the usual range *)

Section WordsRangeProps.

(** A negative number has no words at all: the result is " Only". *)
Theorem numberToWords_negative (n : Z) :
  n < 0 -> numberToWords n = " Only".
Proof.
  intros Hn. unfold numberToWords, floor_div, JS.rem.
  replace (n =? 0) with false by (symmetry; apply Z.eqb_neq; lia).
  replace (0 <? n / 10000000) with false
    by (symmetry; apply Z.ltb_ge; Z.div_mod_to_equations; lia).
  replace (0 <? Z.rem n 10000000 / 100000) with false
    by (symmetry; apply Z.ltb_ge; Z.to_euclidean_division_equations; lia).
  replace (0 <? Z.rem n 100000 / 1000) with false
    by (symmetry; apply Z.ltb_ge; Z.to_euclidean_division_equations; lia).
  replace (0 <? Z.rem n 1000) with false
    by (symmetry; apply Z.ltb_ge; Z.to_euclidean_division_equations; lia).
  reflexivity.
Qed.

Lemma numberToWords_negative_witness : numberToWords (-1180) = " Only".
Proof. apply (numberToWords_negative (-1180)). lia. Defined.

Lemma groupWords_in_range (g : Z) :
  0 < g <= 999 ->
  Forall (fun w => w ∈ Spec.dictionary ++ ["Crore"; "Lakh"; "Thousand"])
    (Spec.groupWords g).
Proof.
  intros Hg. destruct (groupWords_dictionary g ltac:(lia)) as [_ Hd].
  eapply Forall_impl; [ exact Hd | ].
  intros w Hw. apply elem_of_app. now left.
Qed.

(** From 1 up to 9,99,99,99,999 the text consists of words of the tables
    and scale words only; from 10^10 on the crore group has no hundreds
    word and the text starts with "undefined Hundred". *)
Theorem numberToWords_range (n : Z) :
  0 < n ->
  numberToWords n = Spec.unwords (Spec.numberWords n) +:+ " Only" /\
  (n < 10000000000 ->
   Spec.numberWords n <> [] /\
   Forall (fun w => w ∈ Spec.dictionary ++ ["Crore"; "Lakh"; "Thousand"])
     (Spec.numberWords n)) /\
  (10000000000 <= n ->
   exists rest, Spec.numberWords n = "undefined" :: "Hundred" :: rest).
Proof.
  intros Hn. split; [ | split ].
  - rewrite numberToWords_spaced by exact Hn.
    f_equal. apply trim_spaced, numberWords_wordlike.
  - intros Hlt. unfold Spec.numberWords, Spec.scaled. split.
    + intros Hnil.
      apply app_eq_nil in Hnil as [H1 Hnil].
      apply app_eq_nil in Hnil as [H2 Hnil].
      apply app_eq_nil in Hnil as [H3 H4].
      assert (Hz : forall g (tl : list string),
                (if 0 <? g then Spec.groupWords g ++ tl else []) = [] ->
                0 < g <= 999 -> False).
      { intros g tl Hg Hr.
        replace (0 <? g) with true in Hg by (symmetry; apply Z.ltb_lt; lia).
        apply app_eq_nil in Hg as [Hg _].
        now destruct (groupWords_dictionary g ltac:(lia)) as [Hne _]. }
      assert (Hc : ~ 0 < n / 10000000).
      { intros Hpos. apply (Hz _ _ H1).
        split; [ exact Hpos | Z.div_mod_to_equations; lia ]. }
      assert (Hl : ~ 0 < n mod 10000000 / 100000).
      { intros Hpos. apply (Hz _ _ H2).
        split; [ exact Hpos | Z.div_mod_to_equations; lia ]. }
      assert (Ht : ~ 0 < n mod 100000 / 1000).
      { intros Hpos. apply (Hz _ _ H3).
        split; [ exact Hpos | Z.div_mod_to_equations; lia ]. }
      assert (Hh : ~ 0 < n mod 1000).
      { intros Hpos. apply (Hz (n mod 1000) []).
        - rewrite app_nil_r. exact H4.
        - split; [ exact Hpos | Z.div_mod_to_equations; lia ]. }
      Z.div_mod_to_equations. lia.
    + assert (Hs : forall g scale,
                g <= 999 ->
                scale ∈ ["Crore"; "Lakh"; "Thousand"] ->
                Forall (fun w => w ∈ Spec.dictionary
                                     ++ ["Crore"; "Lakh"; "Thousand"])
                  (if 0 <? g then Spec.groupWords g ++ [scale] else [])).
      { intros g scale Hg Hsc. destruct (0 <? g) eqn:E; [ | constructor ].
        apply Z.ltb_lt in E. apply Forall_app. split.
        - apply groupWords_in_range. lia.
        - constructor; [ apply elem_of_app; now right | constructor ]. }
      repeat (apply Forall_app; split).
      * apply Hs; [ Z.div_mod_to_equations; lia | set_solver ].
      * apply Hs; [ Z.div_mod_to_equations; lia | set_solver ].
      * apply Hs; [ Z.div_mod_to_equations; lia | set_solver ].
      * destruct (0 <? n mod 1000) eqn:E; [ | constructor ].
        apply Z.ltb_lt in E. apply groupWords_in_range.
        split; [ exact E | Z.div_mod_to_equations; lia ].
  - intros Hge. unfold Spec.numberWords, Spec.scaled, Spec.groupWords.
    set (c := n / 10000000).
    assert (Hc : 1000 <= c) by (unfold c; Z.div_mod_to_equations; lia).
    replace (0 <? c) with true by (symmetry; apply Z.ltb_lt; lia).
    replace (0 <? c / 100) with true
      by (symmetry; apply Z.ltb_lt; Z.div_mod_to_equations; lia).
    rewrite (arr_get_beyond ones (c / 100))
      by (cbn; Z.div_mod_to_equations; lia).
    cbn [app]. eexists. reflexivity.
Qed.

Lemma numberToWords_range_witness :
  numberToWords 12345678
  = Spec.unwords (Spec.numberWords 12345678) +:+ " Only" /\
  (Spec.numberWords 12345678 <> [] /\
   Forall (fun w => w ∈ Spec.dictionary ++ ["Crore"; "Lakh"; "Thousand"])
     (Spec.numberWords 12345678)) /\
  (exists rest,
     Spec.numberWords 10000000000 = "undefined" :: "Hundred" :: rest).
Proof.
  pose proof (numberToWords_range 12345678 ltac:(lia)) as (H1 & H2 & _).
  pose proof (numberToWords_range 10000000000 ltac:(lia)) as (_ & _ & H3).
  split; [ exact H1 | ]. split; [ apply H2; lia | apply H3; lia ].
Defined.

End WordsRangeProps.

(** ** The billing party and the tax route *)

Section PartyProps.

Import InvoiceForm.

Lemma GST_STATE_CODES_truthy :
  map_Forall (fun _ v => truthy_str (si_code v) = true
                         /\ si_code v <> "00") GST_STATE_CODES.
Proof. apply (bool_decide_unpack _). vm_compute. reflexivity. Qed.

Lemma resolved_entry (gstin : string) (info : StateInfo) :
  getStateFromGSTIN gstin = Some info ->
  (2 <= String.length gstin)%nat /\
  si_code info = substring 0 2 gstin /\
  GST_STATE_CODES !! si_code info = Some info.
Proof.
  intros Hs.
  assert (Hlen : (2 <= String.length gstin)%nat).
  { destruct (Nat.lt_ge_cases (String.length gstin) 2) as [Hlt | Hge];
      [ | exact Hge ].
    unfold getStateFromGSTIN in Hs. apply Nat.ltb_lt in Hlt.
    rewrite Hlt, orb_true_r in Hs. discriminate Hs. }
  rewrite (getStateFromGSTIN_lookup _ Hlen) in Hs.
  pose proof (GST_STATE_CODES_keys _ _ Hs) as Hk. cbn in Hk.
  split; [ exact Hlen | ]. split; [ exact Hk | ]. now rewrite Hk.
Qed.

Lemma stateCode_unfold (gstin : string) :
  PdfExport.stateCode gstin =
    match getStateFromGSTIN gstin with
    | Some stateInfo =>
        if truthy_str (si_code stateInfo) then si_code stateInfo else "00"
    | None => "00"
    end.
Proof.
  unfold PdfExport.stateCode. destruct (truthy_str gstin) eqn:T;
    [ reflexivity | ].
  apply truthy_str_empty in T. subst gstin. reflexivity.
Qed.

Lemma stateCode_resolved (gstin : string) (info : StateInfo) :
  getStateFromGSTIN gstin = Some info ->
  PdfExport.stateCode gstin = substring 0 2 gstin /\
  PdfExport.stateCode gstin = si_code info /\
  PdfExport.stateCode gstin <> "00".
Proof.
  intros Hs. rewrite stateCode_unfold, Hs.
  destruct (resolved_entry _ _ Hs) as (_ & Hk & Hl).
  destruct (GST_STATE_CODES_truthy _ _ Hl) as [Ht Hne].
  rewrite Ht. repeat split; [ exact Hk | exact Hne ].
Qed.

(** The state code printed next to the customer is "00" when the GSTIN
    does not resolve, and otherwise the first two characters of the
    GSTIN, which is never "00". *)
Theorem stateCode_spec (gstin : string) :
  (getStateFromGSTIN gstin = None -> PdfExport.stateCode gstin = "00") /\
  (forall info : StateInfo,
     getStateFromGSTIN gstin = Some info ->
     PdfExport.stateCode gstin = substring 0 2 gstin /\
     PdfExport.stateCode gstin = si_code info /\
     PdfExport.stateCode gstin <> "00").
Proof.
  split.
  - rewrite stateCode_unfold. intros ->. reflexivity.
  - apply stateCode_resolved.
Qed.

Lemma stateCode_spec_witness :
  PdfExport.stateCode "2" = "00" /\
  (PdfExport.stateCode "22AKJPD0941N4Z8" = substring 0 2 "22AKJPD0941N4Z8"
   /\ PdfExport.stateCode "22AKJPD0941N4Z8"
      = si_code (mkStateInfo "Chhattisgarh" "22")
   /\ PdfExport.stateCode "22AKJPD0941N4Z8" <> "00").
Proof.
  split.
  - apply (proj1 (stateCode_spec "2")). reflexivity.
  - apply (proj2 (stateCode_spec "22AKJPD0941N4Z8")). reflexivity.
Defined.

(** Entering a GSTIN stores it; when it resolves, the state of the party
    becomes the state of the table entry, in step with the printed state
    code, and otherwise the state stays as it was. *)
Theorem updateBillingParty_gstin (value : string) (prev : InvoiceFormData) :
  let fd := updateBillingParty pf_gstin value prev in
  bp_gstin (billingParty fd) = value /\
  (forall info : StateInfo,
     getStateFromGSTIN value = Some info ->
     bp_state (billingParty fd) = si_state info /\
     PdfExport.stateCode (bp_gstin (billingParty fd)) = si_code info) /\
  (getStateFromGSTIN value = None ->
   bp_state (billingParty fd) = bp_state (billingParty prev)).
Proof.
  intros fd. subst fd. unfold updateBillingParty.
  cbn [billingParty set_billingParty].
  destruct (truthy_str value) eqn:T.
  - destruct (getStateFromGSTIN value) as [info |] eqn:Hs.
    + split; [ reflexivity | ]. split; [ | discriminate ].
      intros info' [= <-]. split; [ reflexivity | ].
      cbn [set_state setPartyField bp_gstin].
      now apply stateCode_resolved.
    + split; [ reflexivity | ]. split; [ discriminate | reflexivity ].
  - apply truthy_str_empty in T. subst value.
    split; [ reflexivity | ]. split; [ discriminate | reflexivity ].
Qed.

Lemma updateBillingParty_gstin_witness :
  let fd :=
    updateBillingParty pf_gstin "27AAAAA0000A1Z5"
      (Sample.form 1 1000 18 false) in
  (bp_state (billingParty fd) = "Maharashtra" /\
   PdfExport.stateCode (bp_gstin (billingParty fd)) = "27") /\
  bp_state (billingParty
              (updateBillingParty pf_gstin "99XYZ"
                 (Sample.form 1 1000 18 false)))
  = bp_state (billingParty (Sample.form 1 1000 18 false)).
Proof.
  split.
  - apply (proj1 (proj2 (updateBillingParty_gstin "27AAAAA0000A1Z5"
                           (Sample.form 1 1000 18 false)))
             (mkStateInfo "Maharashtra" "27")).
    reflexivity.
  - apply (proj2 (proj2 (updateBillingParty_gstin "99XYZ"
                           (Sample.form 1 1000 18 false)))).
    reflexivity.
Defined.

Lemma updateBillingParty_resolved (value : string) (info : StateInfo)
    (prev : InvoiceFormData) :
  getStateFromGSTIN value = Some info ->
  bp_state (billingParty (updateBillingParty pf_gstin value prev))
  = si_state info.
Proof.
  intros Hs. unfold updateBillingParty.
  cbn [billingParty set_billingParty]. rewrite Hs.
  destruct (truthy_str value) eqn:T; [ reflexivity | ].
  apply truthy_str_empty in T. subst value. discriminate Hs.
Qed.

(** No edit of a billing-party field, the GSTIN included, touches the
    items, the rate or the interstate flag, so the totals stay as they
    are: on a form that is not marked interstate, a GSTIN that resolves
    to any state sets that state and the invoice still carries no
    IGST. *)
Theorem updateBillingParty_keeps_totals (field : PartyField)
    (value : string) (prev : InvoiceFormData) :
  let fd := updateBillingParty field value prev in
  items fd = items prev /\ gstRate fd = gstRate prev /\
  isInterstate fd = isInterstate prev /\
  calculateTotals fd = calculateTotals prev /\
  (forall info : StateInfo,
     field = pf_gstin -> getStateFromGSTIN value = Some info ->
     isInterstate prev = false ->
     bp_state (billingParty fd) = si_state info /\
     igst (calculateTotals fd) = 0).
Proof.
  intros fd. subst fd. repeat split.
  - subst field. now apply updateBillingParty_resolved.
  - change (igst (calculateTotals prev) = 0).
    now apply (calculateTotals_intrastate prev).
Qed.

Lemma updateBillingParty_keeps_totals_witness :
  let fd :=
    updateBillingParty pf_gstin "27AAAAA0000A1Z5"
      (Sample.form 1 1000 18 false) in
  bp_state (billingParty fd) = "Maharashtra" /\
  igst (calculateTotals fd) = 0.
Proof.
  pose proof (updateBillingParty_keeps_totals pf_gstin "27AAAAA0000A1Z5"
                (Sample.form 1 1000 18 false)) as (_ & _ & _ & _ & Hr).
  apply (Hr (mkStateInfo "Maharashtra" "27")); reflexivity.
Defined.

(** Choosing a state in the selector sets the route: Chhattisgarh gives
    the intrastate split (no IGST, equal halves), any other state the
    interstate one (no CGST and SGST, grand total = subtotal + IGST).
    The check box set afterwards wins over the state, and leaves the
    state as chosen. *)
Theorem onStateChange_route (value : string) (prev : InvoiceFormData) :
  let fd := onStateChange value prev in
  let t := calculateTotals fd in
  bp_state (billingParty fd) = value /\
  (value = "Chhattisgarh" ->
   isInterstate fd = false /\ igst t = 0 /\ cgst t = sgst t) /\
  (value <> "Chhattisgarh" ->
   isInterstate fd = true /\ cgst t = 0 /\ sgst t = 0 /\
   grandTotal t = subtotal t + igst t) /\
  (forall checked : bool,
     isInterstate (onInterstateToggle checked fd) = checked /\
     bp_state (billingParty (onInterstateToggle checked fd)) = value).
Proof.
  intros fd t. split; [ reflexivity | ].
  split; [ | split; [ | intros checked; split; reflexivity ] ].
  - intros ->.
    assert (Hi : isInterstate fd = false) by reflexivity.
    destruct (calculateTotals_intrastate fd Hi) as (H1 & H2 & _).
    split; [ exact Hi | ]. split; [ exact H1 | exact H2 ].
  - intros Hne.
    assert (Hi : isInterstate fd = true).
    { subst fd. unfold onStateChange. cbn [isInterstate set_isInterstate].
      apply negb_true_iff, String.eqb_neq, Hne. }
    destruct (calculateTotals_interstate fd Hi) as (H1 & H2 & H3).
    fold t in H1, H2, H3.
    split; [ exact Hi | ]. split; [ exact H1 | ]. split; [ exact H2 | lia ].
Qed.

Lemma onStateChange_route_witness :
  let home := onStateChange "Chhattisgarh" (Sample.form 1 1005 18 true) in
  let away := onStateChange "Maharashtra" (Sample.form 1 1005 18 false) in
  (isInterstate home = false /\ igst (calculateTotals home) = 0 /\
   cgst (calculateTotals home) = sgst (calculateTotals home)) /\
  (isInterstate away = true /\ cgst (calculateTotals away) = 0 /\
   sgst (calculateTotals away) = 0 /\
   grandTotal (calculateTotals away)
   = subtotal (calculateTotals away) + igst (calculateTotals away)).
Proof.
  split.
  - apply (proj1 (proj2 (onStateChange_route "Chhattisgarh"
                           (Sample.form 1 1005 18 true)))).
    reflexivity.
  - apply (proj1 (proj2 (proj2 (onStateChange_route "Maharashtra"
                                  (Sample.form 1 1005 18 false))))).
    discriminate.
Defined.

End PartyProps.

(** ** The invoice snapshot *)

Section SnapshotProps.

Import InvoiceForm.

(** The totals of every snapshot: the subtotal is the sum of the item
    amounts and the amount in words is that of the grand total; on the
    interstate route CGST and SGST are zero and the lines add up to the
    grand total; on the intrastate route IGST is zero, the halves are
    equal, and the lines exceed the grand total by one exactly when the
    tax (grand total minus subtotal) is odd. *)
Theorem generateInvoice_totals (fd : InvoiceFormData) :
  let inv := generateInvoice fd in
  let tax := inv_grandTotal inv - inv_subtotal inv in
  inv_subtotal inv = fold_right Z.add 0 (map item_amount (items fd)) /\
  inv_totalInWords inv = numberToWords (inv_grandTotal inv) /\
  (if isInterstate fd
   then inv_cgst inv = 0 /\ inv_sgst inv = 0 /\ inv_igst inv = tax /\
        inv_subtotal inv + inv_cgst inv + inv_sgst inv + inv_igst inv
        = inv_grandTotal inv
   else inv_igst inv = 0 /\ inv_cgst inv = inv_sgst inv /\
        inv_cgst inv = (tax + 1) / 2 /\
        inv_subtotal inv + inv_cgst inv + inv_sgst inv + inv_igst inv
        = inv_grandTotal inv + tax mod 2).
Proof.
  intros inv tax. subst inv tax. unfold generateInvoice.
  cbn [inv_subtotal inv_cgst inv_sgst inv_igst inv_grandTotal
       inv_totalInWords].
  split; [ apply subtotal_of_amounts | ].
  split; [ now rewrite Math_round_Z | ].
  unfold calculateTotals. cbn [subtotal cgst sgst igst grandTotal].
  rewrite calculateGST_fields.
  cbn [gst_cgst gst_sgst gst_igst gst_total].
  rewrite !Math_round_Z.
  set (s := fold_left _ _ _). set (t := Math_round (Float64.div _ _)).
  destruct (isInterstate fd).
  - repeat split; lia.
  - replace (s + t - s) with t by lia.
    repeat split. Z.div_mod_to_equations. lia.
Qed.

Example generateInvoice_totals_example :
  let inv := generateInvoice (Sample.form 3 335 18 false) in
  (inv_subtotal inv, inv_cgst inv, inv_sgst inv, inv_igst inv,
   inv_grandTotal inv, inv_totalInWords inv)
  = (1005, 91, 91, 0, 1186, "One Thousand One Hundred Eighty Six Only").
Proof. reflexivity. Qed.

End SnapshotProps.

(** ** Edits of items *)

Section ItemEditProps.

Import InvoiceForm.
Context `{PlatformLaws} `{DateLib}.

Lemma applyUpdate_keys (upd : ItemUpdate) (item : InvoiceItem) :
  (forall v, upd <> upd_id v) -> (forall v, upd <> upd_sno v) ->
  item_id (applyUpdate upd item) = item_id item /\
  item_sno (applyUpdate upd item) = item_sno item.
Proof.
  intros Hid Hsno. destruct upd; try (split; reflexivity).
  - now destruct (Hid v).
  - now destruct (Hsno v).
Qed.

(** Editing a field other than the id and the number of an item, and
    changing the global start date or duration, keep the ids and the
    sequence numbers of all items; [updateItem] leaves every item with
    another id exactly as it was. *)
Theorem item_edits_keep_numbering :
  (forall (id : string) (upd : ItemUpdate) (prev : InvoiceFormData),
     (forall v, upd <> upd_id v) -> (forall v, upd <> upd_sno v) ->
     map item_id (items (updateItem id upd prev)) = map item_id (items prev)
     /\ map item_sno (items (updateItem id upd prev))
        = map item_sno (items prev)
     /\ (Spec.sequenced (items prev) ->
         Spec.sequenced (items (updateItem id upd prev)))
     /\ forall (i : nat) (item : InvoiceItem),
          items prev !! i = Some item -> item_id item <> id ->
          items (updateItem id upd prev) !! i = Some item) /\
  (forall (field : GlobalField) (value : string) (prev : InvoiceFormData),
     map item_id (items (updateGlobalDateDuration field value prev))
     = map item_id (items prev)
     /\ map item_sno (items (updateGlobalDateDuration field value prev))
        = map item_sno (items prev)
     /\ (Spec.sequenced (items prev) ->
         Spec.sequenced
           (items (updateGlobalDateDuration field value prev)))).
Proof.
  split.
  - intros id upd prev Hid Hsno.
    assert (Hk : forall item,
              let item' :=
                nth 0 (items (updateItem id upd (set_items [item] prev)))
                  item in
              item_id item' = item_id item /\ item_sno item' = item_sno item).
    { intros item. cbn. destruct (applyUpdate_keys upd item Hid Hsno)
        as [E1 E2].
      destruct (String.eqb (item_id item) id); [ | now split ].
      destruct upd; cbn in *;
        repeat match goal with
          | |- context [ if ?b then _ else _ ] => destruct b
          end; cbn; now split. }
    assert (Hids : map item_id (items (updateItem id upd prev))
                   = map item_id (items prev)).
    { unfold updateItem. cbn [items set_items]. rewrite map_map.
      apply map_ext. intros item. apply (proj1 (Hk item)). }
    assert (Hsnos : map item_sno (items (updateItem id upd prev))
                    = map item_sno (items prev)).
    { unfold updateItem. cbn [items set_items]. rewrite map_map.
      apply map_ext. intros item. apply (proj2 (Hk item)). }
    split; [ exact Hids | ]. split; [ exact Hsnos | ]. split.
    + unfold Spec.sequenced. rewrite Hsnos. intros ->.
      f_equal. f_equal.
      rewrite <- (length_map item_id (items (updateItem id upd prev))).
      now rewrite Hids, length_map.
    + intros i item Hi Hne. unfold updateItem. cbn [items set_items].
      rewrite list_lookup_fmap, Hi. cbn.
      apply String.eqb_neq in Hne. now rewrite Hne.
  - intros field value prev.
    assert (Hids : map item_id
                     (items (updateGlobalDateDuration field value prev))
                   = map item_id (items prev)).
    { unfold updateGlobalDateDuration. cbn [items set_items].
      rewrite map_map. apply map_ext. intros item.
      repeat match goal with
        | |- context [ if ?b then _ else _ ] => destruct b
        end; reflexivity. }
    assert (Hsnos : map item_sno
                      (items (updateGlobalDateDuration field value prev))
                    = map item_sno (items prev)).
    { unfold updateGlobalDateDuration. cbn [items set_items].
      rewrite map_map. apply map_ext. intros item.
      repeat match goal with
        | |- context [ if ?b then _ else _ ] => destruct b
        end; reflexivity. }
    split; [ exact Hids | ]. split; [ exact Hsnos | ].
    unfold Spec.sequenced. rewrite Hsnos. intros ->. f_equal. f_equal.
    rewrite <- (length_map item_id
                  (items (updateGlobalDateDuration field value prev))).
    now rewrite Hids, length_map.
Qed.

End ItemEditProps.

Section DerivationProps.

Import InvoiceForm.
Context `{PlatformLaws} `{DateLib}.

(** Recomputing periods and amounts twice with the same start date or
    duration gives the same form as doing it once. *)
Theorem updateGlobalDateDuration_idempotent (field : GlobalField)
    (value : string) (prev : InvoiceFormData) :
  updateGlobalDateDuration field value
    (updateGlobalDateDuration field value prev)
  = updateGlobalDateDuration field value prev.
Proof.
  destruct prev as [a b c d e f g du sd bp its r i t].
  destruct field;
    unfold updateGlobalDateDuration, set_items, set_startDate, set_duration;
    cbn [items startDate duration invoiceNumber invoiceDate dueDate
         creditDays poNumber poDate displayName billingParty gstRate
         isInterstate termsAndConditions];
    f_equal; rewrite map_map; apply map_ext; intros item;
    repeat match goal with
      | |- context [ if ?b then _ else _ ] => destruct b eqn:?
      end; cbn in *; try reflexivity; try congruence.
Qed.

(** An amount typed by hand does not survive a change of the duration:
    when the new duration is not empty and the edited items have a rate,
    the form is the one obtained without the manual edit. *)
Theorem manual_amount_overridden (id value : string) (a : Z)
    (prev : InvoiceFormData) :
  truthy_str value = true ->
  Forall (fun item => item_id item = id -> truthy (item_ratePM item) = true)
    (items prev) ->
  updateGlobalDateDuration gf_duration value
    (updateItem id (upd_amount a) prev)
  = updateGlobalDateDuration gf_duration value prev.
Proof.
  intros Hv Hrates.
  destruct prev as [b c d e f g h du sd bp its r i t].
  unfold updateGlobalDateDuration, updateItem, set_items, set_duration.
  cbn [items startDate duration invoiceNumber invoiceDate dueDate
       creditDays poNumber poDate displayName billingParty gstRate
       isInterstate termsAndConditions] in *.
  f_equal. rewrite map_map. apply map_ext_Forall.
  eapply Forall_impl; [ exact Hrates | ]. intros item Hitem. cbn beta.
  rewrite Hv.
  destruct (String.eqb (item_id item) id) eqn:E; [ | reflexivity ].
  apply String.eqb_eq in E. specialize (Hitem E).
  destruct (truthy_str sd) eqn:Tsd; destruct (truthy_str du) eqn:Tdu;
    cbn [andb applyUpdate set_amount set_period item_ratePM item_id
         item_sno item_town item_location item_hsn item_media item_size
         item_area item_type item_period item_amount];
    rewrite ?Hitem; reflexivity.
Qed.

Lemma whole_months_amount (r : Q) (d : Z) :
  JS.rem d 30 = 0 ->
  Spec.amount64 r d
  = Math_round (Float64.mul (inject_Z (d / 30)) (Float64.round r)).
Proof.
  intros Hrem. unfold Spec.amount64, Float64.add, Float64.mul. rewrite Hrem.
  set (x := (inject_Z (d / 30) * Float64.round r)%Q).
  set (y := Float64.div (Float64.round r) 30).
  assert (E0 : (inject_Z 0 * y == 0)%Q) by ring.
  rewrite (round_Qeq _ _ E0). change (Float64.round 0) with 0%Q.
  assert (E1 : (Float64.round x + 0 == Float64.round x)%Q) by ring.
  rewrite (round_Qeq _ _ E1). apply Math_round_Qeq, round_idem.
Qed.

(** For a duration of whole months the daily part vanishes: the amount
    is the rounded product of the number of months and the rate; 30 days
    cost the rounded monthly rate; and at an integer rate the amount is
    the exact product, as long as it stays below 2^53. *)
Theorem calculateAmountFromDuration_whole_months (ratePM : NumOrStr)
    (du : string) (r : Q) (d : Z) :
  rateValue ratePM = Some r -> parseInt du = Some d -> JS.rem d 30 = 0 ->
  calculateAmountFromDuration ratePM du
  = Math_round (Float64.mul (inject_Z (d / 30)) (Float64.round r))
  /\ (d = 30 ->
      calculateAmountFromDuration ratePM du = Math_round (Float64.round r))
  /\ (forall z : Z,
        (r == inject_Z z)%Q -> Z.abs z < 2 ^ 53 ->
        Z.abs (d / 30 * z) < 2 ^ 53 ->
        calculateAmountFromDuration ratePM du = d / 30 * z).
Proof.
  intros Hr Hd Hrem.
  rewrite (amount_formula _ _ _ _ Hr Hd), (whole_months_amount r d Hrem).
  unfold Float64.mul. split; [ reflexivity | split ].
  - intros ->. change (30 / 30) with 1.
    assert (E : (inject_Z 1 * Float64.round r == Float64.round r)%Q) by ring.
    rewrite (round_Qeq _ _ E). apply Math_round_Qeq, round_idem.
  - intros z Ez Hz Hmz.
    rewrite (round_Qeq _ _ Ez).
    assert (E : (inject_Z (d / 30) * Float64.round (inject_Z z)
                 == inject_Z (d / 30 * z))%Q)
      by (rewrite (round_Z z Hz), inject_Z_mult; reflexivity).
    rewrite (round_Qeq _ _ E), (Math_round_Qeq _ _ (round_Z _ Hmz)).
    apply Math_round_Z.
Qed.

(** Typing a rate into an item sets the amount of that item to the
    amount for the current duration, computed in doubles. *)
Theorem rate_edit_sets_amount (id s : string) (r : Q) (d : Z)
    (prev : InvoiceFormData) :
  s <> "" -> parseFloat s = Some r ->
  parseInt (duration prev) = Some d ->
  Forall (fun item =>
            item_id item = id ->
            item_ratePM item = Str s /\
            item_amount item = Spec.amount64 r d)
    (items (updateItem id (upd_ratePM (Str s)) prev)).
Proof.
  intros Hs Hr Hd.
  assert (Tdu : truthy_str (duration prev) = true).
  { destruct (truthy_str (duration prev)) eqn:T; [ reflexivity | ].
    apply truthy_str_empty in T. rewrite T, parseInt_empty in Hd.
    discriminate. }
  assert (Ts : truthy (Str s) = true).
  { cbn. unfold truthy_str. apply negb_true_iff, String.eqb_neq, Hs. }
  unfold updateItem. cbn [items set_items].
  apply Forall_forall. intros item' Hin.
  apply list_elem_of_fmap in Hin as (item & -> & _).
  rewrite Tdu, Ts. cbn [andb].
  rewrite (amount_formula (Str s) _ r d Hr Hd).
  destruct (String.eqb (item_id item) id) eqn:E.
  - intros _. destruct (truthy_str (startDate prev)); cbn; now split.
  - intros Hid. apply String.eqb_neq in E. now destruct E.
Qed.

End DerivationProps.

Lemma calculateAmountFromDuration_whole_months_witness :
  @InvoiceForm.calculateAmountFromDuration Sample.platform (Str "30000") "60"
  = 60 / 30 * 30000.
Proof.
  apply (proj2 (proj2 (@calculateAmountFromDuration_whole_months
                         Sample.platform Sample.platform_laws
                         (Str "30000") "60" 30000%Q 60
                         eq_refl eq_refl eq_refl))
           30000);
    [ reflexivity | reflexivity | reflexivity ].
Defined.

Lemma manual_amount_overridden_witness :
  @InvoiceForm.updateGlobalDateDuration Sample.platform SampleDates.datelib
    InvoiceForm.gf_duration "60"
    (@InvoiceForm.updateItem Sample.platform SampleDates.datelib "2"
       (InvoiceForm.upd_amount 5) (Sample.form 3 1000 18 false))
  = @InvoiceForm.updateGlobalDateDuration Sample.platform
      SampleDates.datelib InvoiceForm.gf_duration "60"
      (Sample.form 3 1000 18 false).
Proof.
  apply (@manual_amount_overridden Sample.platform SampleDates.datelib
           "2" "60" 5 (Sample.form 3 1000 18 false)).
  - reflexivity.
  - repeat constructor.
Defined.

Lemma rate_edit_sets_amount_witness :
  Forall (fun item =>
            item_id item = "2" ->
            item_ratePM item = Str "45000" /\
            item_amount item = Spec.amount64 45000 37)
    (items (@InvoiceForm.updateItem Sample.platform SampleDates.datelib "2"
              (InvoiceForm.upd_ratePM (Str "45000"))
              (Sample.form 3 1000 18 false))).
Proof.
  apply (@rate_edit_sets_amount Sample.platform Sample.platform_laws
           SampleDates.datelib "2" "45000" 45000%Q 37
           (Sample.form 3 1000 18 false));
    [ discriminate | reflexivity | reflexivity ].
Defined.

Example rate_edit_example :
  map item_amount
    (items (@InvoiceForm.updateItem Sample.platform SampleDates.datelib "2"
              (InvoiceForm.upd_ratePM (Str "45000"))
              (Sample.form 3 1000 18 false)))
  = [1000; 55500; 1000].
Proof. vm_compute. reflexivity. Qed.

Example duration_change_example :
  map (fun item => (item_amount item, item_period item))
    (items (@InvoiceForm.updateGlobalDateDuration Sample.platform
              SampleDates.datelib InvoiceForm.gf_duration "45"
              (set_items [Sample.item 1 0]
                 (InvoiceForm.set_startDate "2025-01-01"
                    (Sample.form 0 0 18 false)))))
  = [(45000, "2025-01-01+0 to 2025-01-01+44")].
Proof. reflexivity. Qed.

Lemma item_edits_keep_numbering_witness :
  let fd := Sample.form 3 1000 18 false in
  let fd' :=
    @InvoiceForm.updateItem Sample.platform SampleDates.datelib "2"
      (InvoiceForm.upd_town "Durg") fd in
  map item_id (items fd') = map item_id (items fd) /\
  map item_sno (items fd') = map item_sno (items fd) /\
  (Spec.sequenced (items fd) -> Spec.sequenced (items fd')) /\
  forall (i : nat) (item : InvoiceItem),
    items fd !! i = Some item -> item_id item <> "2" ->
    items fd' !! i = Some item.
Proof.
  apply (proj1 (@item_edits_keep_numbering Sample.platform
                  SampleDates.datelib)
           "2" (InvoiceForm.upd_town "Durg") (Sample.form 3 1000 18 false));
    discriminate.
Defined.

(** ** Removal *)

Section RemovalProps.

Import InvoiceForm.

Lemma set_sno_same (item : InvoiceItem) (n : Z) :
  item_sno item = n -> set_sno n item = item.
Proof. intros <-. now destruct item. Qed.

Lemma imap_renumber_sequenced (l : list InvoiceItem) (k : nat) :
  map item_sno l = map (fun i => Z.of_nat i + 1) (seq k (length l)) ->
  imap (fun index item => set_sno (Z.of_nat (k + index) + 1) item) l = l.
Proof.
  revert k. induction l as [| x l IH]; intros k Hs; [ reflexivity | ].
  cbn [map length seq] in Hs. injection Hs as Hx Hl.
  cbn [imap]. rewrite Nat.add_0_r. f_equal.
  - now apply set_sno_same.
  - rewrite <- (IH (S k) Hl) at 2. apply imap_ext.
    intros i y _. unfold compose. now rewrite Nat.add_succ_r.
Qed.

Lemma filter_all (p : InvoiceItem -> bool) (l : list InvoiceItem) :
  Forall (fun item => p item = true) l -> List.filter p l = l.
Proof.
  induction 1 as [| x l Hx _ IH]; [ reflexivity | ].
  cbn. now rewrite Hx, IH.
Qed.

Lemma set_items_same (fd : InvoiceFormData) : set_items (items fd) fd = fd.
Proof. now destruct fd. Qed.

(** On a form whose items are numbered 1..N, removing an id that no
    item has changes nothing, and removing the item that [addItem] has
    just appended under a fresh id gives the form back. *)
Theorem removeItem_absent_id :
  (forall (id : string) (prev : InvoiceFormData),
     Spec.sequenced (items prev) ->
     Forall (fun item => item_id item <> id) (items prev) ->
     removeItem id prev = prev) /\
  (forall (now : string) (prev : InvoiceFormData),
     Spec.sequenced (items prev) ->
     Forall (fun item => item_id item <> now) (items prev) ->
     removeItem now (addItem prev now prev) = prev).
Proof.
  assert (Hkeep : forall id l,
            Forall (fun item => item_id item <> id) l ->
            List.filter (fun item => negb (String.eqb (item_id item) id)) l
            = l).
  { intros id l Hl. apply filter_all.
    eapply Forall_impl; [ exact Hl | ]. intros item Hne. cbn beta.
    apply negb_true_iff, String.eqb_neq, Hne. }
  assert (Hre : forall l,
            Spec.sequenced l ->
            imap (fun index item => set_sno (Z.of_nat index + 1) item) l
            = l).
  { intros l Hs. apply (imap_renumber_sequenced l 0 Hs). }
  split.
  - intros id prev Hs Hids. unfold removeItem.
    rewrite (Hkeep _ _ Hids), (Hre _ Hs).
    apply set_items_same.
  - intros now prev Hs Hids. unfold removeItem, addItem.
    cbn [items set_items]. rewrite List.filter_app, (Hkeep _ _ Hids).
    cbn [List.filter INITIAL_ITEM item_id]. rewrite String.eqb_refl.
    cbn [negb]. rewrite app_nil_r, (Hre _ Hs).
    destruct prev; reflexivity.
Qed.

End RemovalProps.

Lemma removeItem_absent_id_witness :
  InvoiceForm.removeItem "9" (Sample.form 3 1000 18 false)
  = Sample.form 3 1000 18 false /\
  InvoiceForm.removeItem "1700000000000"
    (InvoiceForm.addItem (Sample.form 3 1000 18 false) "1700000000000"
       (Sample.form 3 1000 18 false))
  = Sample.form 3 1000 18 false.
Proof.
  split.
  - apply (proj1 removeItem_absent_id "9" (Sample.form 3 1000 18 false));
      [ reflexivity | repeat constructor; discriminate ].
  - apply (proj2 removeItem_absent_id "1700000000000"
             (Sample.form 3 1000 18 false));
      [ reflexivity | repeat constructor; discriminate ].
Defined.

(** ** Cell styling *)

Section StyleProps.

Import PdfExport.

Lemma Qle_bool_mono (a b x : Q) :
  (a <= b)%Q -> Qle_bool b x = true -> Qle_bool a x = true.
Proof.
  intros Hab Hb. apply Qle_bool_iff. apply Qle_bool_iff in Hb.
  now apply (Qle_trans _ b).
Qed.

Lemma Qmult_le_nonneg_l (m a b : Q) :
  (0 <= m)%Q -> (a <= b)%Q -> (m * a <= m * b)%Q.
Proof.
  intros Hm Hab. rewrite !(Qmult_comm m). now apply Qmult_le_compat_r.
Qed.

Lemma fontSize_range (text : string) (maxLength : Q) (base : Z) :
  5 <= base ->
  Z.max (base - 3) 3 <= getResponsiveFontSize text maxLength base <= base.
Proof.
  intros Hb. unfold getResponsiveFontSize.
  repeat match goal with
    | |- context [ if ?b then _ else _ ] => destruct b
    end; lia.
Qed.

(** With a base size of at least 5 and a limit that is not negative,
    the font size lies between max (base - 3, 3) and the base, a text
    within the limit keeps the base size, and a longer text, in UTF-16
    code units, never gets a larger font than a shorter one. *)
Theorem getResponsiveFontSize_bounds (maxLength : Q) (base : Z) :
  5 <= base -> (0 <= maxLength)%Q ->
  (forall text : string,
     Z.max (base - 3) 3 <= getResponsiveFontSize text maxLength base <= base)
  /\ (forall text : string,
        (inject_Z (Z.of_nat (String_length text)) <= maxLength)%Q ->
        getResponsiveFontSize text maxLength base = base)
  /\ (forall text1 text2 : string,
        (String_length text1 <= String_length text2)%nat ->
        getResponsiveFontSize text2 maxLength base
        <= getResponsiveFontSize text1 maxLength base).
Proof.
  intros Hb Hm. split; [ | split ].
  - intros text. now apply fontSize_range.
  - intros text Hle. unfold getResponsiveFontSize.
    apply Qle_bool_iff in Hle. rewrite Hle.
    now destruct (negb (truthy_str text)).
  - intros t1 t2 Hlen. unfold getResponsiveFontSize.
    assert (Hq : (inject_Z (Z.of_nat (String_length t1))
                  <= inject_Z (Z.of_nat (String_length t2)))%Q).
    { rewrite <- Zle_Qle. lia. }
    pose proof (Qle_bool_mono _ _ maxLength Hq) as M1.
    pose proof (Qle_bool_mono _ _ (maxLength * (3 # 2))%Q Hq) as M2.
    pose proof (Qle_bool_mono _ _ (maxLength * 2)%Q Hq) as M3.
    destruct (truthy_str t1) eqn:T1; destruct (truthy_str t2) eqn:T2;
      cbn [negb].
    + destruct (Qle_bool (inject_Z (Z.of_nat (String_length t2))) maxLength);
        [ rewrite M1 by reflexivity; lia | ].
      destruct (Qle_bool (inject_Z (Z.of_nat (String_length t2)))
                  (maxLength * (3 # 2)));
        [ rewrite M2 by reflexivity;
          destruct (Qle_bool _ maxLength); lia | ].
      destruct (Qle_bool (inject_Z (Z.of_nat (String_length t2)))
                  (maxLength * 2));
        [ rewrite M3 by reflexivity;
          destruct (Qle_bool _ maxLength);
          destruct (Qle_bool _ (maxLength * (3 # 2))); lia | ].
      repeat match goal with
        | |- context [ if ?b then _ else _ ] => destruct b
        end; lia.
    + apply truthy_str_empty in T2. subst t2.
      rewrite M1; [ lia | ]. apply Qle_bool_iff. exact Hm.
    + repeat match goal with
        | |- context [ if ?b then _ else _ ] => destruct b
        end; lia.
    + lia.
Qed.

Lemma getResponsiveFontSize_bounds_witness :
  (forall text : string,
     Z.max (7 - 3) 3 <= getResponsiveFontSize text 8 7 <= 7)
  /\ (forall text : string,
        (inject_Z (Z.of_nat (String_length text)) <= 8)%Q ->
        getResponsiveFontSize text 8 7 = 7)
  /\ (forall text1 text2 : string,
        (String_length text1 <= String_length text2)%nat ->
        getResponsiveFontSize text2 8 7 <= getResponsiveFontSize text1 8 7).
Proof.
  apply (getResponsiveFontSize_bounds 8 7); [ lia | discriminate ].
Defined.

Example getResponsiveFontSize_steps :
  map (fun text => getResponsiveFontSize text 8 7)
    [ ""; "Raipur"; "Bilaspur"; "Rajnandgaon"; "Jagdalpur Road";
      "Mahasamund Bypass" ]
  = [7; 7; 7; 6; 5; 4].
Proof. reflexivity. Qed.

(** A letter with an accent is one unit of length and two bytes. *)
Example getResponsiveFontSize_accents :
  let e_acute := String "195" (String "169" "") in
  let text := "Pondich" +:+ e_acute +:+ "ry A" in
  String_length text = 12%nat /\ String.length text = 13%nat /\
  getResponsiveFontSize text 8 7 = 6 /\
  getResponsiveFontSize
    (e_acute +:+ e_acute +:+ e_acute +:+ e_acute +:+ e_acute) 8 7 = 7.
Proof. vm_compute. repeat split. Qed.

Lemma columnLimit_nonneg (columnIndex : nat) :
  (0 <= columnLimit columnIndex)%Q.
Proof.
  do 11 (destruct columnIndex as [| columnIndex]; [ discriminate | ]).
  discriminate.
Qed.

Lemma over_triple_is_minimum (text : string) (maxLength : Q) :
  (0 <= maxLength)%Q ->
  Qle_bool (inject_Z (Z.of_nat (String_length text))) (maxLength * 3)
  = false ->
  getResponsiveFontSize text maxLength 7 = 4.
Proof.
  intros Hm Hover. unfold getResponsiveFontSize.
  set (len := inject_Z (Z.of_nat (String_length text))) in *.
  assert (Hnot : forall x, (x <= maxLength * 3)%Q -> Qle_bool len x = false).
  { intros x Hx. destruct (Qle_bool len x) eqn:E; [ | reflexivity ].
    apply Qle_bool_iff in E.
    assert (Hc : Qle_bool len (maxLength * 3) = true)
      by (apply Qle_bool_iff; now apply (Qle_trans _ x)).
    congruence. }
  assert (H1 : (maxLength <= maxLength * 3)%Q).
  { rewrite <- (Qmult_1_r maxLength) at 1.
    apply Qmult_le_nonneg_l; [ exact Hm | discriminate ]. }
  assert (H2 : (maxLength * (3 # 2) <= maxLength * 3)%Q)
    by (apply Qmult_le_nonneg_l; [ exact Hm | discriminate ]).
  assert (H3 : (maxLength * 2 <= maxLength * 3)%Q)
    by (apply Qmult_le_nonneg_l; [ exact Hm | discriminate ]).
  rewrite (Hnot _ H1), (Hnot _ H2), (Hnot _ H3).
  destruct (negb (truthy_str text)) eqn:T; [ | reflexivity ].
  apply negb_true_iff, truthy_str_empty in T. subst text.
  unfold len in Hover. cbn [String_length] in Hover.
  assert (Hc : Qle_bool (inject_Z (Z.of_nat 0)) (maxLength * 3) = true).
  { apply Qle_bool_iff.
    apply (Qle_trans _ maxLength); [ exact Hm | exact H1 ]. }
  congruence.
Qed.

(** In an item row of the first-page table every cell with text gets a
    font size from 4 to 7, and its text is wrapped exactly when it has
    more UTF-16 code units than three times the limit of its column, in
    which case the font size is the smallest one, 4; otherwise the
    overflow is hidden. *)
Theorem item_cell_sizing (itemCount : nat) (data : CellData)
    (line : string) (rest : list string) :
  (cd_rowIndex data < itemCount)%nat ->
  cd_text data = line :: rest ->
  let s := didParseCell_firstPage itemCount data in
  let over :=
    negb (Qle_bool (inject_Z (Z.of_nat (String_length line)))
            (columnLimit (cd_columnIndex data) * 3)) in
  4 <= st_fontSize s <= 7 /\
  st_fontSize s
  = getResponsiveFontSize line (columnLimit (cd_columnIndex data)) 7 /\
  st_overflow s = (if over then ov_linebreak else ov_hidden) /\
  (over = true -> st_fontSize s = 4) /\
  st_lineWidth s = (1 # 4)%Q.
Proof.
  intros Hrow Htext s over. subst s over. unfold didParseCell_firstPage.
  replace (itemCount <=? cd_rowIndex data)%nat with false
    by (symmetry; apply Nat.leb_gt; exact Hrow).
  rewrite Htext. unfold sizeCell.
  pose proof (fontSize_range line (columnLimit (cd_columnIndex data)) 7
                ltac:(lia)) as Hb.
  destruct (Qle_bool _ (columnLimit (cd_columnIndex data) * 3)) eqn:E;
    cbn [st_fontSize st_overflow st_lineWidth negb].
  - repeat split; try lia; try discriminate.
  - repeat split; try lia.
    intros _. apply over_triple_is_minimum;
      [ apply columnLimit_nonneg | exact E ].
Qed.

End StyleProps.

Lemma item_cell_sizing_witness :
  let data :=
    PdfExport.mkCellData PdfExport.sec_body 0 1
      ["Rajnandgaon Bypass Road Junction"]
      (PdfExport.mkStyles PdfExport.ov_linebreak PdfExport.cw_wrap
         PdfExport.va_top PdfExport.ha_center (1 # 4) (0, 0, 0)
         PdfExport.fs_normal None 7) in
  let s := PdfExport.didParseCell_firstPage 3 data in
  4 <= PdfExport.st_fontSize s <= 7 /\
  PdfExport.st_fontSize s
  = PdfExport.getResponsiveFontSize "Rajnandgaon Bypass Road Junction"
      (PdfExport.columnLimit 1) 7 /\
  PdfExport.st_overflow s = PdfExport.ov_linebreak /\
  PdfExport.st_fontSize s = 4.
Proof.
  intros data s.
  pose proof (item_cell_sizing 3 data "Rajnandgaon Bypass Road Junction" []
                ltac:(cbn; lia) eq_refl) as (H1 & H2 & H3 & H4 & _).
  split; [ exact H1 | ]. split; [ exact H2 | ].
  split; [ exact H3 | apply H4; reflexivity ].
Defined.

(** A text of twelve code units in 34 bytes, ten letters of three bytes
    and two of two, in a column with limit 8: the size is 6 and the
    overflow stays hidden. *)
Example item_cell_sizing_accents :
  let a3 := String "224" (String "164" (String "133" "")) in
  let e2 := String "195" (String "169" "") in
  let line :=
    a3 +:+ a3 +:+ a3 +:+ a3 +:+ a3 +:+ a3 +:+ a3 +:+ a3 +:+ a3 +:+ a3
    +:+ e2 +:+ e2 in
  let data :=
    PdfExport.mkCellData PdfExport.sec_body 0 1 [line]
      (PdfExport.mkStyles PdfExport.ov_linebreak PdfExport.cw_wrap
         PdfExport.va_top PdfExport.ha_center (1 # 4) (0, 0, 0)
         PdfExport.fs_normal None 7) in
  let s := PdfExport.didParseCell_firstPage 3 data in
  String_length line = 12%nat /\ String.length line = 34%nat /\
  PdfExport.st_fontSize s = 6 /\
  PdfExport.st_overflow s = PdfExport.ov_hidden.
Proof. vm_compute. repeat split. Qed.

Section TotalStyleProps.

Import PdfExport.

(** On the first page a cell of a total row loses its border in the nine
    blank columns and keeps it in the label and amount columns, the
    SUB TOTAL and GRAND TOTAL rows are bold on a grey fill there, the
    label is left aligned and the font size is not touched.  The
    callback of the continuation table never changes border, font style,
    fill or alignment: total rows that move to the continuation page
    are drawn like item rows. *)
Theorem total_row_styling (itemCount : nat) (data : CellData) :
  (itemCount <= cd_rowIndex data)%nat ->
  let given := cd_styles data in
  let first := didParseCell_firstPage itemCount data in
  let later := didParseCell_continuation data in
  let emphasised :=
    ((cd_rowIndex data =? itemCount)%nat
     || (cd_rowIndex data =? itemCount + 5)%nat)
    && (9 <=? cd_columnIndex data)%nat in
  st_lineWidth first
  = (if (cd_columnIndex data <? 9)%nat then 0%Q else (1 # 4)%Q)
  /\ st_fontStyle first = (if emphasised then fs_bold else st_fontStyle given)
  /\ st_fillColor first
     = (if emphasised then Some (240, 240, 240) else st_fillColor given)
  /\ st_halign first
     = (if (cd_columnIndex data =? 9)%nat then ha_left else st_halign given)
  /\ st_fontSize first = st_fontSize given
  /\ st_lineWidth later = st_lineWidth given
  /\ st_lineColor later = st_lineColor given
  /\ st_fontStyle later = st_fontStyle given
  /\ st_fillColor later = st_fillColor given
  /\ st_halign later = st_halign given.
Proof.
  intros Hrow given first later emphasised.
  subst given first later emphasised.
  unfold didParseCell_firstPage, didParseCell_continuation, sizeCell.
  apply Nat.leb_le in Hrow. rewrite Hrow.
  set (c := cd_columnIndex data).
  assert (Hlt : (c <? 9)%nat = negb (9 <=? c)%nat).
  { destruct (Nat.ltb_spec c 9), (Nat.leb_spec 9 c);
      try reflexivity; lia. }
  assert (Heq : (c =? 9)%nat = true -> (9 <=? c)%nat = true).
  { intros E. apply Nat.eqb_eq in E. apply Nat.leb_le. lia. }
  rewrite Hlt.
  destruct (9 <=? c)%nat eqn:E9; destruct (c =? 9)%nat eqn:Eq9;
    try (specialize (Heq eq_refl); discriminate Heq);
    destruct ((cd_rowIndex data =? itemCount)%nat
              || (cd_rowIndex data =? itemCount + 5)%nat);
    destruct (cd_section data); destruct (cd_text data);
    cbn [negb andb];
    repeat match goal with
      | |- context [ if ?b then _ else _ ] => destruct b
      end; repeat split.
Qed.

End TotalStyleProps.

Lemma total_row_styling_witness :
  let given :=
    PdfExport.mkStyles PdfExport.ov_linebreak PdfExport.cw_wrap
      PdfExport.va_top PdfExport.ha_center (1 # 4) (0, 0, 0)
      PdfExport.fs_normal None 7 in
  let data := PdfExport.mkCellData PdfExport.sec_body 3 10 ["3,540"] given in
  PdfExport.st_fontStyle (PdfExport.didParseCell_firstPage 3 data)
  = PdfExport.fs_bold /\
  PdfExport.st_fontStyle (PdfExport.didParseCell_continuation data)
  = PdfExport.fs_normal.
Proof.
  intros given data.
  pose proof (total_row_styling 3 data ltac:(cbn; lia))
    as (_ & H1 & _ & _ & _ & _ & _ & H2 & _).
  split; [ exact H1 | exact H2 ].
Defined.

(** ** Continuation markers page by page *)

Section PageProps.

Import PdfExport.
Context `{Platform}.

Variable spill : PageBreak -> list (list string) -> nat.

Lemma run_app (a b : list DrawOp) (d : Doc) :
  run spill (a ++ b) d = run spill b (run spill a d).
Proof. unfold run. apply fold_left_app. Qed.

Lemma run_stamp (totalPages : nat) (ps : list nat) (d : Doc) :
  doc_pages (run spill (flat_map (stampPage totalPages) ps) d) = doc_pages d
  /\ doc_texts (run spill (flat_map (stampPage totalPages) ps) d)
     = doc_texts d ++
       flat_map
         (fun p => (p, BROUGHT_FORWARD) ::
                   (if (p <? totalPages)%nat then [(p, CARRIED_FORWARD)]
                    else []))
         ps.
Proof.
  revert d. induction ps as [| p ps IH]; intros d.
  - cbn. now rewrite app_nil_r.
  - cbn [flat_map]. rewrite run_app.
    destruct (IH (run spill (stampPage totalPages p) d)) as [IHp IHt].
    rewrite IHp, IHt. unfold stampPage.
    destruct (p <? totalPages)%nat; cbn; split; try reflexivity;
      now rewrite <- !app_assoc.
Qed.

Lemma drawTables_long (invoice : Invoice) :
  (8 <= length (inv_items invoice))%nat ->
  drawTables invoice
  = [ autoTable pb_avoid (firstPageData invoice);
      text CARRIED_FORWARD; addPage; addHeaderFooter 2; rect;
      text BROUGHT_FORWARD; autoTable pb_auto (remainingData invoice) ].
Proof.
  intros Hn. unfold drawTables.
  destruct (split_lengths invoice) as [_ Hr]. rewrite Hr.
  replace (0 <? length (inv_items invoice) + 6 - 13)%nat with true
    by (symmetry; apply Nat.ltb_lt; lia).
  reflexivity.
Qed.

Lemma drawTables_short (invoice : Invoice) :
  (length (inv_items invoice) <= 7)%nat ->
  drawTables invoice = [autoTable pb_avoid (firstPageData invoice)].
Proof.
  intros Hn. unfold drawTables.
  destruct (split_lengths invoice) as [_ Hr]. rewrite Hr.
  replace (0 <? length (inv_items invoice) + 6 - 13)%nat with false
    by (symmetry; apply Nat.ltb_ge; lia).
  reflexivity.
Qed.

(** Where the markers land when the first-page table stays on its page.
    With at most 7 items the document has one page and no marker.  With
    8 or more items and a continuation table that the renderer spreads
    over [k] further pages, the document has T = 2 + k pages and ends on
    page T; "Brought Forward" is written on every page from 2 to T, and
    "Carried Forward" on page 1 and on pages 3 to T - 1, but not on
    page 2. *)
Theorem drawPages_markers (invoice : Invoice) :
  spill pb_avoid (firstPageData invoice) = 0%nat ->
  let n := length (inv_items invoice) in
  let d := drawPages spill invoice in
  let T := (2 + spill pb_auto (remainingData invoice))%nat in
  ((n <= 7)%nat -> d = mkDoc 1 1 []) /\
  ((8 <= n)%nat ->
   doc_pages d = T /\ doc_current d = T /\
   forall p : nat,
     (In (p, CARRIED_FORWARD) (doc_texts d)
      <-> p = 1%nat \/ (3 <= p < T)%nat) /\
     (In (p, BROUGHT_FORWARD) (doc_texts d) <-> (2 <= p <= T)%nat)).
Proof.
  intros Hfirst n d T. subst n d. unfold drawPages. split.
  - intros Hn. rewrite (drawTables_short _ Hn).
    cbn [run fold_left exec doc_current doc_pages doc_texts].
    rewrite Hfirst. reflexivity.
  - intros Hn. rewrite (drawTables_long _ Hn).
    cbn [run fold_left exec doc_current doc_pages doc_texts app].
    rewrite Hfirst. cbn [Nat.add Nat.max].
    set (k := spill pb_auto (remainingData invoice)) in *.
    replace (Nat.max 2 (S (S k))) with (S (S k)) by lia.
    fold (run spill). unfold stampPages.
    set (d1 := mkDoc (S (S k)) (S (S k))
                 [(1%nat, CARRIED_FORWARD); (2%nat, BROUGHT_FORWARD)]).
    assert (Hrun :
      doc_pages (run spill
                   (if (2 <? S (S k))%nat
                    then flat_map (stampPage (S (S k)))
                           (seq 3 (S (S k) - 2))
                         ++ [setPage (S (S k))]
                    else [setPage (S (S k))]) d1) = S (S k) /\
      doc_current (run spill
                   (if (2 <? S (S k))%nat
                    then flat_map (stampPage (S (S k)))
                           (seq 3 (S (S k) - 2))
                         ++ [setPage (S (S k))]
                    else [setPage (S (S k))]) d1) = S (S k) /\
      doc_texts (run spill
                   (if (2 <? S (S k))%nat
                    then flat_map (stampPage (S (S k)))
                           (seq 3 (S (S k) - 2))
                         ++ [setPage (S (S k))]
                    else [setPage (S (S k))]) d1)
      = doc_texts d1 ++
        flat_map
          (fun p => (p, BROUGHT_FORWARD) ::
                    (if (p <? S (S k))%nat then [(p, CARRIED_FORWARD)]
                     else []))
          (seq 3 k)).
    { replace (S (S k) - 2)%nat with k by lia.
      destruct (2 <? S (S k))%nat eqn:E.
      - rewrite run_app.
        destruct (run_stamp (S (S k)) (seq 3 k) d1) as [Hp Ht].
        cbn [run fold_left exec doc_pages doc_current doc_texts].
        fold (run spill). now rewrite Hp, Ht.
      - apply Nat.ltb_ge in E. assert (k = 0%nat) as -> by lia.
        cbn. repeat split. }
    destruct Hrun as (Hp & Hc & Ht).
    split; [ exact Hp | ]. split; [ exact Hc | ].
    intros p. rewrite Ht. subst d1. cbn [doc_texts].
    rewrite !in_app_iff, !in_flat_map. cbn [In]. split.
    + split.
      * intros [[E | [E | []]] | (q & Hq & Hin)].
        -- injection E as <-. now left.
        -- discriminate E.
        -- apply in_seq in Hq.
           destruct (q <? S (S k))%nat eqn:Eq; cbn [In] in Hin.
           ++ destruct Hin as [E | [E | []]]; [ discriminate E | ].
              injection E as <-. apply Nat.ltb_lt in Eq. right. lia.
           ++ destruct Hin as [E | []]. discriminate E.
      * intros [-> | Hp3]; [ left; now left | right ].
        exists p. split; [ apply in_seq; lia | ].
        replace (p <? S (S k))%nat with true
          by (symmetry; apply Nat.ltb_lt; lia).
        right. now left.
    + split.
      * intros [[E | [E | []]] | (q & Hq & Hin)].
        -- discriminate E.
        -- injection E as <-. lia.
        -- apply in_seq in Hq.
           destruct (q <? S (S k))%nat; cbn [In] in Hin.
           ++ destruct Hin as [E | [E | []]]; [ | discriminate E ].
              injection E as <-. lia.
           ++ destruct Hin as [E | []]. injection E as <-. lia.
      * intros Hp2. destruct (Nat.eq_dec p 2%nat) as [-> | Hne].
        -- left. right. now left.
        -- right. exists p. split; [ apply in_seq; lia | now left ].
Qed.

End PageProps.

Lemma drawPages_markers_witness :
  let spill :=
    fun (pb : PdfExport.PageBreak) (body : list (list string)) =>
      match pb with
      | PdfExport.pb_avoid => 0%nat
      | PdfExport.pb_auto => 2%nat
      end in
  let inv := InvoiceForm.generateInvoice (Sample.form 40 1000 18 false) in
  let d := @PdfExport.drawPages Sample.platform spill inv in
  PdfExport.doc_pages d = 4%nat /\ PdfExport.doc_current d = 4%nat /\
  forall p : nat,
    (In (p, PdfExport.CARRIED_FORWARD) (PdfExport.doc_texts d)
     <-> p = 1%nat \/ (3 <= p < 4)%nat) /\
    (In (p, PdfExport.BROUGHT_FORWARD) (PdfExport.doc_texts d)
     <-> (2 <= p <= 4)%nat).
Proof.
  intros spill inv d.
  apply (proj2 (@drawPages_markers Sample.platform spill inv eq_refl)).
  cbn. lia.
Defined.

Example drawPages_four_pages :
  PdfExport.doc_texts
    (@PdfExport.drawPages Sample.platform
       (fun pb _ => match pb with
                    | PdfExport.pb_avoid => 0%nat
                    | PdfExport.pb_auto => 2%nat
                    end)
       (InvoiceForm.generateInvoice (Sample.form 40 1000 18 false)))
  = [ (1%nat, PdfExport.CARRIED_FORWARD); (2%nat, PdfExport.BROUGHT_FORWARD);
      (3%nat, PdfExport.BROUGHT_FORWARD); (3%nat, PdfExport.CARRIED_FORWARD);
      (4%nat, PdfExport.BROUGHT_FORWARD) ].
Proof. reflexivity. Qed.

(** ** Terms and conditions *)

Section TermsProps.

Import InvoiceForm.

Lemma split_free (sep : ascii) (x : string) :
  string_forallb (fun c => negb (Ascii.eqb c sep)) x = true ->
  split sep x = [x].
Proof.
  induction x as [| c x IH]; intros Hx; [ reflexivity | ].
  cbn in Hx. apply andb_prop in Hx as [Hc Hx].
  apply negb_true_iff in Hc. cbn [split]. now rewrite Hc, (IH Hx).
Qed.

Lemma split_free_app (sep : ascii) (x s : string) :
  string_forallb (fun c => negb (Ascii.eqb c sep)) x = true ->
  split sep (x +:+ String sep s) = x :: split sep s.
Proof.
  induction x as [| c x IH]; intros Hx.
  - cbn [String.append split]. change ("" +:+ String sep s)
      with (String sep s). cbn [split]. now rewrite Ascii.eqb_refl.
  - cbn in Hx. apply andb_prop in Hx as [Hc Hx].
    apply negb_true_iff in Hc. rewrite append_cons. cbn [split].
    now rewrite Hc, (IH Hx).
Qed.

Lemma split_join_lines (sep : ascii) (l : list string) :
  l <> [] ->
  Forall (fun t => string_forallb (fun c => negb (Ascii.eqb c sep)) t = true)
    l ->
  split sep (join (String sep "") l) = l.
Proof.
  induction l as [| x [| y tl] IH]; intros Hne Hall.
  - congruence.
  - apply Forall_cons in Hall as [Hx _]. now apply split_free.
  - apply Forall_cons in Hall as [Hx Hall].
    change (join (String sep "") (x :: y :: tl))
      with (x +:+ String sep (join (String sep "") (y :: tl))).
    rewrite (split_free_app _ _ _ Hx), IH; [ reflexivity | discriminate | ].
    exact Hall.
Qed.

(** Terms typed one per line come back as the same list: for terms that
    contain no line break and are not blank, the snapshot of a form
    whose terms field is their join with line breaks carries exactly
    these terms, in order; and no term of any snapshot is blank. *)
Theorem terms_round_trip (fd : InvoiceFormData) :
  (forall terms : list string,
     Forall (fun t => string_forallb
                        (fun c => negb (Ascii.eqb c "010")) t = true)
       terms ->
     Forall (fun t => truthy_str (trim t) = true) terms ->
     inv_termsAndConditions
       (generateInvoice (set_terms (join (String "010" "") terms) fd))
     = terms) /\
  Forall (fun t => truthy_str (trim t) = true)
    (inv_termsAndConditions (generateInvoice fd)).
Proof.
  split.
  - intros terms Hfree Hfull. unfold generateInvoice.
    cbn [inv_termsAndConditions termsAndConditions set_terms].
    destruct terms as [| t terms]; [ reflexivity | ].
    rewrite split_join_lines by (discriminate || exact Hfree).
    clear Hfree. induction Hfull as [| x l Hx _ IH]; [ reflexivity | ].
    cbn [List.filter]. now rewrite Hx, IH.
  - unfold generateInvoice. cbn [inv_termsAndConditions].
    apply Forall_forall. intros t Ht. apply list_elem_of_In in Ht.
    now apply filter_In in Ht as [_ Ht].
Qed.

End TermsProps.

Lemma terms_round_trip_witness :
  inv_termsAndConditions
    (InvoiceForm.generateInvoice
       (InvoiceForm.set_terms
          (join (String "010" "") InvoiceForm.DEFAULT_TERMS)
          (Sample.form 1 1000 18 false)))
  = InvoiceForm.DEFAULT_TERMS.
Proof.
  apply (proj1 (terms_round_trip (Sample.form 1 1000 18 false))
           InvoiceForm.DEFAULT_TERMS);
    repeat constructor.
Defined.

(** A line that holds a no-break space only is blank and dropped. *)
Example terms_no_break_space :
  let nbsp := String "194" (String "160" "") in
  let lines := "a" +:+ String "010" nbsp +:+ String "010" "b" in
  inv_termsAndConditions
    (InvoiceForm.generateInvoice
       (InvoiceForm.set_terms lines (Sample.form 1 1000 18 false)))
  = ["a"; "b"] /\
  trim (String "239" (String "187" (String "191" " x ")) +:+ nbsp) = "x".
Proof. vm_compute. split; reflexivity. Qed.

(** ** The spreadsheet *)

Section ExcelProps.

Import InvoiceForm ExcelExport.

Lemma headerData_length (invoice : Invoice) :
  length (headerData invoice) = 19%nat.
Proof. reflexivity. Qed.

Lemma taxData_length (invoice : Invoice) :
  length (taxData invoice)
  = if 0 <? inv_cgst invoice then 5%nat else 4%nat.
Proof. unfold taxData. now destruct (0 <? inv_cgst invoice). Qed.

(** The sheet of every invoice: the row styled as the table header
    (index 18) is the row of the eleven column titles, item [i] is on
    row 19 + i, the blank row and the subtotal follow the items, and the
    sheet has 31 + items + terms rows, one more when CGST and SGST are
    shown. *)
Theorem allData_layout (invoice : Invoice) :
  let n := length (inv_items invoice) in
  headerRowIndex invoice = 18%nat /\
  allData invoice !! headerRowIndex invoice = Some titles /\
  (forall (i : nat) (item : InvoiceItem),
     inv_items invoice !! i = Some item ->
     allData invoice !! (19 + i)%nat = Some (itemCells item)) /\
  allData invoice !! (19 + n)%nat = Some [Str ""] /\
  allData invoice !! (20 + n)%nat
  = Some (summaryRow "Subtotal:" (inv_subtotal invoice)) /\
  length (allData invoice)
  = (31 + n + length (inv_termsAndConditions invoice)
     + (if (0 <? inv_cgst invoice)%Z then 1 else 0))%nat.
Proof.
  intros n. unfold allData.
  split; [ reflexivity | ]. split; [ reflexivity | ].
  assert (Hi : length (itemsData invoice) = n) by apply length_map.
  split; [ | split; [ | split ] ].
  - intros i item Hitem.
    rewrite lookup_app_r by (rewrite headerData_length; lia).
    rewrite headerData_length.
    replace (19 + i - 19)%nat with i by lia.
    rewrite lookup_app_l
      by (rewrite Hi; apply lookup_lt_Some in Hitem; exact Hitem).
    unfold itemsData. now rewrite list_lookup_fmap, Hitem.
  - rewrite lookup_app_r by (rewrite headerData_length; lia).
    rewrite headerData_length.
    rewrite lookup_app_r by (rewrite Hi; lia). rewrite Hi.
    replace (19 + n - 19 - n)%nat with 0%nat by lia.
    unfold taxData. now destruct (0 <? inv_cgst invoice).
  - rewrite lookup_app_r by (rewrite headerData_length; lia).
    rewrite headerData_length.
    rewrite lookup_app_r by (rewrite Hi; lia). rewrite Hi.
    replace (20 + n - 19 - n)%nat with 1%nat by lia.
    unfold taxData. now destruct (0 <? inv_cgst invoice).
  - rewrite !length_app, headerData_length, Hi, taxData_length.
    unfold wordsData, termsData. rewrite !length_app, length_imap.
    cbn [length]. destruct (0 <? inv_cgst invoice); lia.
Qed.

(** With a non-negative subtotal and rate the tax rows of the sheet
    account for the whole tax of the snapshot: an interstate invoice
    shows the IGST row, an intrastate one with a positive tax the CGST
    and SGST rows, and an intrastate one without tax a single IGST row
    of 0. *)
Theorem taxData_accounts_for_tax (fd : InvoiceFormData) :
  0 <= subtotal (calculateTotals fd) -> (0 <= gstRate fd)%Q ->
  let invoice := generateInvoice fd in
  exists shown : list (string * Z),
    taxData invoice
    = [ [Str ""]; summaryRow "Subtotal:" (inv_subtotal invoice) ]
      ++ map (fun lv => summaryRow (fst lv) (snd lv)) shown
      ++ [ summaryRow "Grand Total:" (inv_grandTotal invoice) ] /\
    fold_right Z.add 0 (map snd shown)
    = inv_cgst invoice + inv_sgst invoice + inv_igst invoice /\
    (shown = [("IGST:", inv_igst invoice)] \/
     shown = [("CGST:", inv_cgst invoice); ("SGST:", inv_sgst invoice)]
     /\ isInterstate fd = false /\ 0 < inv_cgst invoice).
Proof.
  intros Hs Hr invoice. subst invoice. unfold taxData, generateInvoice.
  cbn [inv_subtotal inv_cgst inv_sgst inv_igst inv_grandTotal].
  unfold calculateTotals in *. cbn [subtotal cgst sgst igst grandTotal] in *.
  rewrite calculateGST_fields.
  cbn [gst_cgst gst_sgst gst_igst gst_total].
  rewrite !Math_round_Z in *.
  set (s := fold_left _ _ _) in *.
  pose proof (gstAmount_nonneg s (gstRate fd) Hs Hr) as Ht.
  set (t := Math_round (Float64.div _ _)) in *.
  destruct (isInterstate fd).
  - exists [("IGST:", t)].
    split; [ reflexivity | ].
    split; [ cbn [map snd fold_right]; lia | now left ].
  - destruct (0 <? (t + 1) / 2) eqn:E.
    + exists [("CGST:", (t + 1) / 2); ("SGST:", (t + 1) / 2)].
      apply Z.ltb_lt in E.
      split; [ reflexivity | ].
      split; [ cbn [map snd fold_right]; lia | ].
      right. now repeat split.
    + exists [("IGST:", 0)]. apply Z.ltb_ge in E.
      split; [ reflexivity | ]. split; [ | now left ].
      cbn [map snd fold_right]. Z.div_mod_to_equations. lia.
Qed.

End ExcelProps.

Lemma allData_layout_witness :
  let invoice := InvoiceForm.generateInvoice (Sample.form 3 1000 18 false) in
  ExcelExport.allData invoice !! 20%nat
  = Some (ExcelExport.itemCells (Sample.item 2 1000)).
Proof.
  intros invoice.
  pose proof (allData_layout invoice) as (_ & _ & Hi & _).
  apply (Hi 1%nat). reflexivity.
Defined.

Lemma taxData_accounts_for_tax_witness :
  let invoice := InvoiceForm.generateInvoice (Sample.form 1 1005 18 false) in
  exists shown : list (string * Z),
    ExcelExport.taxData invoice
    = [ [Str ""];
        ExcelExport.summaryRow "Subtotal:" (inv_subtotal invoice) ]
      ++ map (fun lv => ExcelExport.summaryRow (fst lv) (snd lv)) shown
      ++ [ ExcelExport.summaryRow "Grand Total:" (inv_grandTotal invoice) ]
    /\ fold_right Z.add 0 (map snd shown)
       = inv_cgst invoice + inv_sgst invoice + inv_igst invoice /\
    (shown = [("IGST:", inv_igst invoice)] \/
     shown = [("CGST:", inv_cgst invoice); ("SGST:", inv_sgst invoice)]
     /\ isInterstate (Sample.form 1 1005 18 false) = false
     /\ 0 < inv_cgst invoice).
Proof.
  apply (taxData_accounts_for_tax (Sample.form 1 1005 18 false));
    vm_compute; discriminate.
Defined.

(** A negative intrastate subtotal is outside this: the sheet then shows
    an IGST row of 0 and neither of the negative halves. *)
Example taxData_negative_subtotal :
  let invoice :=
    InvoiceForm.generateInvoice (Sample.form 1 (-1000) 18 false) in
  (inv_cgst invoice, inv_sgst invoice, inv_igst invoice) = (-90, -90, 0) /\
  ExcelExport.taxData invoice
  = [ [Str ""]; ExcelExport.summaryRow "Subtotal:" (-1000);
      ExcelExport.summaryRow "IGST:" 0;
      ExcelExport.summaryRow "Grand Total:" (-1180) ].
Proof. split; reflexivity. Qed.

(** ** The period text *)

Section PeriodProps.

Import InvoiceForm.
Context `{Platform} `{DateLib}.

Lemma append_nonempty (a b : string) : a +:+ " to " +:+ b <> "".
Proof. destruct a; discriminate. Qed.

(** The period is empty exactly when the start date or the duration is
    empty or the duration is not a number; otherwise it runs from the
    start date to the day [duration - 1] days later, so that a duration
    of one day starts and ends on the same day. *)
Theorem calculatePeriodFromDates_spec (startDate duration : string) :
  (calculatePeriodFromDates startDate duration = ""
   <-> startDate = "" \/ duration = "" \/ parseInt duration = None) /\
  (forall d : Z,
     startDate <> "" -> duration <> "" -> parseInt duration = Some d ->
     calculatePeriodFromDates startDate duration
     = formatShifted startDate 0 +:+ " to " +:+
       formatShifted startDate (d - 1)).
Proof.
  unfold calculatePeriodFromDates, truthy_str. split.
  - destruct (String.eqb_spec startDate "") as [-> | Hs]; cbn [negb orb].
    + split; auto.
    + destruct (String.eqb_spec duration "") as [-> | Hd]; cbn [negb].
      * split; auto.
      * destruct (parseInt duration) as [d |].
        -- split; [ intros E; now apply append_nonempty in E | ].
           intros [E | [E | E]]; congruence.
        -- split; auto.
  - intros d Hs Hd Hp.
    apply String.eqb_neq in Hs, Hd. rewrite Hs, Hd, Hp. reflexivity.
Qed.

End PeriodProps.

Lemma calculatePeriodFromDates_spec_witness :
  @InvoiceForm.calculatePeriodFromDates Sample.platform SampleDates.datelib
    "2025-01-01" "37"
  = @InvoiceForm.formatShifted SampleDates.datelib "2025-01-01" 0
    +:+ " to " +:+
    @InvoiceForm.formatShifted SampleDates.datelib "2025-01-01" (37 - 1).
Proof.
  apply (proj2 (@calculatePeriodFromDates_spec Sample.platform
                  SampleDates.datelib "2025-01-01" "37") 37);
    (discriminate || reflexivity).
Defined.
